(** * Check (CyberDrain) -- detection scoring, per-tab verdicts, retry
      supervisor and rogue-app registry

    A shallow embedding of the parts of the extension that decide a page's
    fate:

    - [Content]    : src/scripts/content.ts   (matchesAnyPattern,
                     isTrustedLoginDomain, analyzePageForPhishing);
    - [Background] : src/scripts/background.ts (RogueAppsManager and
                     CheckBackground: initialize/_doInitialize,
                     refreshPolicy, urlOrigin, verdictForUrl,
                     handleTabUpdate, the tabs.onRemoved listener,
                     handleMessage);
    - [BackgroundAlt] : the second copy of the service worker kept in the
                     repository, whose handleTabRemoved differs.

    Conventions.  An [async] method of the service worker is one atomic
    transition of the state, and the state is that of one lifetime of the
    service-worker instance; the calls of the log store, which nothing
    serializes, are interleaved step by step ([LogStore]).  A storage
    call that a handler's decision depends on takes its outcome as an
    input: the session read of handleTabUpdate, the reads and writes of
    the log store and of the flush may reject; the remaining storage
    writes succeed.  A JavaScript number is an IEEE 754 double
    ([PrimFloat]).  A JavaScript exception is the [Threw] constructor of
    [outcome].  Console logging, badges and outbound events are not state;
    a log is recorded only where a statement refers to it.  What the
    JavaScript runtime provides (the [RegExp] engine and the WHATWG [URL]
    parser) is a section variable. *)

From Stdlib Require Import Floats.
From Stdlib Require Import ZArith Bool List Ascii String DecimalString Lia.
From stdpp Require Import gmap strings list.
Import ListNotations.

Set Warnings "-register-all".

(* ===================================================================== *)
(** ** JavaScript values the code manipulates *)
(* ===================================================================== *)

Module JS.

(** What a call can do: return a value or throw. *)
Inductive outcome (A : Type) : Type :=
| Returned (a : A)
| Threw (name message : string).
Arguments Returned {A} a.
Arguments Threw {A} name message.

Definition bind {A B} (m : outcome A) (k : A -> outcome B) : outcome B :=
  match m with
  | Returned a => k a
  | Threw n msg => Threw n msg
  end.

(** Data read back from [chrome.storage] or from [response.json()]:
    plain JSON, it never holds a function or a [Set].  Numbers are kept as
    integers; only their truthiness and identity are ever observed. *)
Inductive json : Type :=
| JNull
| JBool (b : bool)
| JNum (z : Z)
| JStr (s : string)
| JArr (items : list json)
| JObj (members : list (string * json)).

(** [undefined] is [None]. *)
Definition value := option json.

(** ToBoolean. *)
Definition truthy (v : value) : bool :=
  match v with
  | None | Some JNull => false
  | Some (JBool b) => b
  | Some (JNum z) => negb (z =? 0)%Z
  | Some (JStr s) => negb (String.eqb s "")
  | Some (JArr _) | Some (JObj _) => true
  end.

Fixpoint assoc (k : string) (ms : list (string * json)) : value :=
  match ms with
  | [] => None
  | (k', v) :: ms' => if String.eqb k k' then Some v else assoc k ms'
  end.

(** [v.k] for a key [k] that no prototype defines (such as [has],
    [appId], [trustedOrigins]); reading a property of [null] throws. *)
Definition get (v : json) (k : string) : outcome value :=
  match v with
  | JNull => Threw "TypeError" "Cannot read properties of null"
  | JObj ms => Returned (assoc k ms)
  | _ => Returned None
  end.

(** [v?.k]. *)
Definition get_opt (v : value) (k : string) : value :=
  match v with
  | Some (JObj ms) => assoc k ms
  | _ => None
  end.

(** A JavaScript number is an IEEE 754 binary64 value: [float], with the
    operations of the standard (round to nearest, ties to even; NaN,
    infinities and signed zeros included). *)
Definition number : Type := float.
Bind Scope float_scope with number.

(** [a / b]. *)
Definition div (a b : number) : number := (a / b)%float.

(** [Math.min(x, 1)]: NaN when [x] is NaN, else the smaller of the two. *)
Definition min_one (x : number) : number :=
  if PrimFloat.is_nan x then nan
  else if (x <? 1)%float then x else 1%float.

(** [x > c] and [a >= b]; both false when an operand is NaN. *)
Definition gt (x c : number) : bool := (c <? x)%float.
Definition gte (a b : number) : bool := (b <=? a)%float.

(** The double nearest to the decimal 0.8, which the literal [0.8]
    denotes. *)
Definition point_eight : number := 0x1.999999999999ap-1%float.

(** A counter that starts at 0 and is raised by [++] [n] times; it is
    also the value of [array.length] for an array of [n] elements (array
    lengths are below 2^32, where the counter is exact). *)
Fixpoint number_of_nat (n : nat) : number :=
  match n with
  | O => 0%float
  | S k => (number_of_nat k + 1)%float
  end.

(** What [JSON.parse(JSON.stringify(x))] gives back for a number:
    [None] is [null], the serialization of NaN and of the infinities;
    the sign of a zero is lost. *)
Definition json_number (x : number) : option number :=
  if PrimFloat.is_nan x || PrimFloat.is_infinity x then None
  else if (x =? 0)%float then Some 0%float
  else Some x.

(** [String.prototype.toLowerCase] on the ASCII strings that a serialized
    origin is made of. *)
Definition lower (a : ascii) : ascii :=
  let n := Ascii.nat_of_ascii a in
  if (65 <=? n)%nat && (n <=? 90)%nat then Ascii.ascii_of_nat (n + 32) else a.

Fixpoint toLowerCase (s : string) : string :=
  match s with
  | EmptyString => EmptyString
  | String a s' => String (lower a) (toLowerCase s')
  end.

(** ToString on JSON data, as applied when a value is passed where a
    string is expected ([new URL(v)]). *)
Fixpoint ToString (v : json) : string :=
  match v with
  | JNull => "null"
  | JBool true => "true"
  | JBool false => "false"
  | JNum z => NilZero.string_of_int (Z.to_int z)
  | JStr s => s
  | JArr items =>
      (fix join (vs : list json) : string :=
         match vs with
         | [] => ""
         | [JNull] => ""
         | [x] => ToString x
         | JNull :: rest => "," +:+ join rest
         | x :: rest => ToString x +:+ "," +:+ join rest
         end) items
  | JObj _ => "[object Object]"
  end.

End JS.

Import JS.

(* ===================================================================== *)
(** ** src/scripts/content.ts *)
(* ===================================================================== *)

Module Content.

(** Rule elements.  [pattern] is optional in types/detection.ts and the
    scan guards on it, so it is an option here.  Weights and thresholds are
    of type [number]: doubles, added and compared as JavaScript does. *)
Record DetectionElement : Type := {
  id : string;
  pattern : option string;
  weight : number
}.

Record DetectionThresholds : Type := {
  minimum_primary_elements : number;
  minimum_total_weight : number;
  minimum_elements_overall : number
}.

Record M365DetectionRequirements : Type := {
  primary_elements : list DetectionElement;
  secondary_elements : list DetectionElement;
  detection_thresholds : DetectionThresholds
}.

Record DetectionRules : Type := {
  m365_detection_requirements : option M365DetectionRequirements;
  trusted_login_patterns : option (list string);
  microsoft_domain_patterns : option (list string)
}.

Record DetectionResult : Type := {
  isPhishing : bool;
  confidence : number;
  detectedElements : list string;
  totalWeight : number;
  primaryElementsCount : number;
  secondaryElementsCount : number;
  reasons : list string;
  appliedRules : list string;
  timestamp : string;
  url : string;
  severity : option string
}.

(** The script's module-level variables that the scan reads. *)
Record Globals : Type := {
  detectionRules : option DetectionRules;
  trustedLoginPatterns : list string;
  microsoftDomainPatterns : list string
}.

(** [result.detectedElements.push(id); result.appliedRules.push(id)]. *)
Definition push_element (r : DetectionResult) (i : string) : DetectionResult :=
  {| isPhishing := isPhishing r; confidence := confidence r;
     detectedElements := detectedElements r ++ [i];
     totalWeight := totalWeight r;
     primaryElementsCount := primaryElementsCount r;
     secondaryElementsCount := secondaryElementsCount r;
     reasons := reasons r; appliedRules := appliedRules r ++ [i];
     timestamp := timestamp r; url := url r; severity := severity r |}.

(** [result.reasons.push(msg)]. *)
Definition push_reason (r : DetectionResult) (msg : string) : DetectionResult :=
  {| isPhishing := isPhishing r; confidence := confidence r;
     detectedElements := detectedElements r;
     totalWeight := totalWeight r;
     primaryElementsCount := primaryElementsCount r;
     secondaryElementsCount := secondaryElementsCount r;
     reasons := reasons r ++ [msg]; appliedRules := appliedRules r;
     timestamp := timestamp r; url := url r; severity := severity r |}.

(** The three assignments after the two loops. *)
Definition set_totals (r : DetectionResult) (tw pc sc : number)
    : DetectionResult :=
  {| isPhishing := isPhishing r; confidence := confidence r;
     detectedElements := detectedElements r;
     totalWeight := tw;
     primaryElementsCount := pc;
     secondaryElementsCount := sc;
     reasons := reasons r; appliedRules := appliedRules r;
     timestamp := timestamp r; url := url r; severity := severity r |}.

(** The assignments of the untrusted-domain branch. *)
Definition flag_phishing (r : DetectionResult) (c : number) : DetectionResult :=
  {| isPhishing := true; confidence := c;
     detectedElements := detectedElements r;
     totalWeight := totalWeight r;
     primaryElementsCount := primaryElementsCount r;
     secondaryElementsCount := secondaryElementsCount r;
     reasons := reasons r ++ ["Microsoft 365 login page detected on untrusted domain"];
     appliedRules := appliedRules r;
     timestamp := timestamp r; url := url r;
     severity := Some (if gt c point_eight then "high" else "medium") |}.

Section Runtime.

(** [new RegExp(pattern, flags)]: [None] when the constructor throws a
    SyntaxError.  [test re s] is [re.test(s)] (no [g] flag is ever used, so
    the test is stateless). *)
Context {regex : Type}.
Variable RegExp : string -> string -> option regex.
Variable test : regex -> string -> bool.

(** [new URL(u).origin]: [None] when the constructor throws. *)
Variable URL_origin : string -> option string.

(** matchesAnyPattern, with the patterns it warned about. *)
Fixpoint matchesAnyPattern_loop (u : string) (patterns : list string)
    (warned : list string) : bool * list string :=
  match patterns with
  | [] => (false, warned)
  | p :: rest =>
      match RegExp p "" with
      | Some re =>
          if test re u then (true, warned)
          else matchesAnyPattern_loop u rest warned
      | None => matchesAnyPattern_loop u rest (warned ++ [p])
      end
  end.

Definition matchesAnyPattern (u : string) (patterns : list string)
    : bool * list string :=
  matchesAnyPattern_loop u patterns [].

Definition isTrustedLoginDomain (g : Globals) (u : string) : bool :=
  match URL_origin u with
  | Some origin => fst (matchesAnyPattern origin (trustedLoginPatterns g))
  | None => false
  end.

Definition isMicrosoftDomain (g : Globals) (u : string) : bool :=
  match URL_origin u with
  | Some origin => fst (matchesAnyPattern origin (microsoftDomainPatterns g))
  | None => false
  end.

(** [element.pattern && new RegExp(element.pattern, 'i').test(pageSource)]:
    the constructor call is not guarded. *)
Definition element_matches (pageSource : string) (element : DetectionElement)
    : outcome bool :=
  match pattern element with
  | None => Returned false
  | Some p =>
      if String.eqb p "" then Returned false
      else match RegExp p "i" with
           | Some re => Returned (test re pageSource)
           | None => Threw "SyntaxError" "Invalid regular expression"
           end
  end.

(** One [for (const element of ...)] loop of analyzePageForPhishing; the
    loop carries [result], [totalWeight] and its own counter. *)
Fixpoint check_elements (pageSource : string) (elements : list DetectionElement)
    (result : DetectionResult) (tw count : number)
    : outcome (DetectionResult * number * number) :=
  match elements with
  | [] => Returned (result, tw, count)
  | element :: rest =>
      bind (element_matches pageSource element) (fun hit =>
        if hit
        then check_elements pageSource rest (push_element result (id element))
               (tw + weight element)%float (count + 1)%float
        else check_elements pageSource rest result tw count)
  end.

Definition analyzePageForPhishing (g : Globals)
    (currentUrl pageSource now : string) : outcome DetectionResult :=
  let result :=
    {| isPhishing := false; confidence := 0%float; detectedElements := [];
       totalWeight := 0%float; primaryElementsCount := 0%float;
       secondaryElementsCount := 0%float; reasons := []; appliedRules := [];
       timestamp := now; url := currentUrl; severity := None |} in
  match detectionRules g ≫= m365_detection_requirements with
  | None => Returned (push_reason result "No detection rules available")
  | Some requirements =>
      bind (check_elements pageSource (primary_elements requirements) result
              0%float 0%float)
        (fun '(result, tw, primaryCount) =>
      bind (check_elements pageSource (secondary_elements requirements) result
              tw 0%float)
        (fun '(result, tw, secondaryCount) =>
      let result := set_totals result tw primaryCount secondaryCount in
      let thresholds := detection_thresholds requirements in
      if gte primaryCount (minimum_primary_elements thresholds)
         && gte tw (minimum_total_weight thresholds)
         && gte (number_of_nat (length (detectedElements result)))
              (minimum_elements_overall thresholds)
      then
        if negb (isTrustedLoginDomain g currentUrl)
        then Returned (flag_phishing result
                         (min_one (div tw (minimum_total_weight thresholds))))
        else Returned (push_reason result
                         "Microsoft 365 login page on trusted domain")
      else Returned (push_reason result
                       "Insufficient indicators for Microsoft 365 login page")))
  end.

(** An element's pattern compiles (or the element has none to compile). *)
Definition pattern_compiles (element : DetectionElement) : bool :=
  match pattern element with
  | None => true
  | Some p => String.eqb p "" || bool_decide (is_Some (RegExp p "i"))
  end.

(** An element is matched when it carries a non-empty pattern that is a
    regular expression matching the page, letter case ignored. *)
Definition hit (pageSource : string) (element : DetectionElement) : bool :=
  match pattern element with
  | None => false
  | Some p =>
      negb (String.eqb p "")
      && match RegExp p "i" with
         | Some re => test re pageSource
         | None => false
         end
  end.

Definition matched (pageSource : string) (elements : list DetectionElement)
    : list DetectionElement :=
  filter (fun e => hit pageSource e = true) elements.

(** The weights of the elements added up in list order, as doubles,
    starting from [acc]. *)
Definition weight_sum_from (acc : number) (elements : list DetectionElement)
    : number :=
  foldl (fun a e => (a + weight e)%float) acc elements.

Definition weight_sum (elements : list DetectionElement) : number :=
  weight_sum_from 0%float elements.

(** The number of elements, as a JavaScript number. *)
Definition count (elements : list DetectionElement) : number :=
  number_of_nat (length elements).

(** [detectionRules?.m365_detection_requirements]. *)
Definition requirements_of (g : Globals) : option M365DetectionRequirements :=
  detectionRules g ≫= m365_detection_requirements.

(** The candidate-login-page test on the matched elements. *)
Definition candidate (req : M365DetectionRequirements) (pageSource : string)
    : bool :=
  let mp := matched pageSource (primary_elements req) in
  let ms := matched pageSource (secondary_elements req) in
  let t := detection_thresholds req in
  gte (count mp) (minimum_primary_elements t)
  && gte (weight_sum (mp ++ ms)) (minimum_total_weight t)
  && gte (count (mp ++ ms)) (minimum_elements_overall t).

(** The page's origin matches one of the trusted login patterns. *)
Definition origin_trusted (g : Globals) (u : string) : Prop :=
  exists origin p re,
    URL_origin u = Some origin /\ p ∈ trustedLoginPatterns g /\
    RegExp p "" = Some re /\ test re origin = true.

(** The result of a scan in which every pattern compiles, written from
    the matched elements. *)
Definition scan_outcome (g : Globals) (req : M365DetectionRequirements)
    (currentUrl pageSource now : string) : DetectionResult :=
  let mp := matched pageSource (primary_elements req) in
  let ms := matched pageSource (secondary_elements req) in
  let base :=
    {| isPhishing := false; confidence := 0%float;
       detectedElements := id <$> (mp ++ ms);
       totalWeight := weight_sum (mp ++ ms);
       primaryElementsCount := count mp;
       secondaryElementsCount := count ms;
       reasons := []; appliedRules := id <$> (mp ++ ms);
       timestamp := now; url := currentUrl; severity := None |} in
  if candidate req pageSource then
    if isTrustedLoginDomain g currentUrl
    then push_reason base "Microsoft 365 login page on trusted domain"
    else flag_phishing base
           (min_one (div (weight_sum (mp ++ ms))
                       (minimum_total_weight (detection_thresholds req))))
  else push_reason base "Insufficient indicators for Microsoft 365 login page".

(** The same globals with other rule elements. *)
Definition with_elements (g : Globals) (req : M365DetectionRequirements)
    (primary secondary : list DetectionElement) : Globals :=
  {| detectionRules :=
       Some {| m365_detection_requirements :=
                 Some {| primary_elements := primary;
                         secondary_elements := secondary;
                         detection_thresholds := detection_thresholds req |};
               trusted_login_patterns :=
                 detectionRules g ≫= trusted_login_patterns;
               microsoft_domain_patterns :=
                 detectionRules g ≫= microsoft_domain_patterns |};
     trustedLoginPatterns := trustedLoginPatterns g;
     microsoftDomainPatterns := microsoftDomainPatterns g |}.

End Runtime.

End Content.

(* ===================================================================== *)
(** ** A runtime for literal patterns *)
(* ===================================================================== *)

(** The statements about the scan hold for every regex engine and URL
    parser.  To run the model on concrete pages this module gives the
    fragment that needs no regex theory: a pattern without metacharacters
    matches as a substring (case-folded under the [i] flag), and a pattern
    holding a metacharacter is rejected, as JavaScript rejects "(".  The
    URL parser covers [http(s)://host/...]. *)
Module Lit.

Fixpoint contains (p s : string) : bool :=
  String.prefix p s ||
  match s with
  | EmptyString => false
  | String _ s' => contains p s'
  end.

Definition metachar (a : ascii) : bool :=
  existsb (Ascii.eqb a) (list_ascii_of_string "\^$.|?*+()[]{}").

Record regex : Type := { source : string; ignoreCase : bool }.

Definition RegExp (p flags : string) : option regex :=
  if existsb metachar (list_ascii_of_string p) then None
  else Some {| source := p; ignoreCase := String.eqb flags "i" |}.

Definition test (re : regex) (s : string) : bool :=
  if ignoreCase re then contains (toLowerCase (source re)) (toLowerCase s)
  else contains (source re) s.

Fixpoint host_of (s : string) : string :=
  match s with
  | EmptyString => EmptyString
  | String a s' =>
      if existsb (Ascii.eqb a) (list_ascii_of_string "/?#") then EmptyString
      else String (lower a) (host_of s')
  end.

Definition after (scheme u : string) : option string :=
  if String.prefix scheme u
  then Some (String.substring (String.length scheme)
               (String.length u - String.length scheme) u)
  else None.

Definition URL_origin (u : string) : option string :=
  let with_scheme scheme :=
    match after scheme u with
    | Some rest =>
        let h := host_of rest in
        if String.eqb h "" then None else Some (scheme +:+ h)
    | None => None
    end in
  match with_scheme "https://" with
  | Some o => Some o
  | None => with_scheme "http://"
  end.

End Lit.

(* ===================================================================== *)
(** ** src/scripts/background.ts *)
(* ===================================================================== *)

Module Background.

(** *** RogueAppsManager *)

(** What [fetchWithTimeout(sourceUrl, 10000)] followed by
    [response.json()] can deliver. *)
Inductive fetched : Type :=
| NetworkError (message : string)
| TimedOut
| Response (status : Z) (statusText : string) (body : option json).

(** [`HTTP ${response.status}: ${response.statusText}`]. *)
Definition http_error (status : Z) (statusText : string) : string :=
  "HTTP " +:+ NilZero.string_of_int (Z.to_int status) +:+ ": " +:+ statusText.

(** [response.ok]. *)
Definition ok (status : Z) : bool := (200 <=? status)%Z && (status <=? 299)%Z.

(** SameValueZero on the keys of a [Map]: primitives by value; an object
    or array parsed from JSON is a fresh reference, equal to no other key. *)
Definition same_key (a b : json) : bool :=
  match a, b with
  | JNull, JNull => true
  | JBool x, JBool y => Bool.eqb x y
  | JNum x, JNum y => (x =? y)%Z
  | JStr x, JStr y => String.eqb x y
  | _, _ => false
  end.

(** [Map.prototype.set]: the entries in insertion order. *)
Fixpoint map_set (k v : json) (m : list (json * json)) : list (json * json) :=
  match m with
  | [] => [(k, v)]
  | (k', v') :: m' =>
      if same_key k k' then (k, v) :: m' else (k', v') :: map_set k v m'
  end.

Fixpoint map_get (k : json) (m : list (json * json)) : value :=
  match m with
  | [] => None
  | (k', v) :: m' => if same_key k k' then Some v else map_get k m'
  end.

Record RogueAppsManager : Type := {
  rogueApps : list (json * json);
  lastUpdate : Z;
  initialized : bool;
  sourceUrl : string;
  (** the [rogue_apps_cache] entry of [chrome.storage.local] *)
  rogue_apps_cache : option (json * Z)
}.

(** [apps.forEach(app => { if (app.appId) this.rogueApps.set(app.appId, app) })]
    the table as it stands when the loop ends or throws. *)
Fixpoint populate (apps : list json) (table : list (json * json))
    : outcome unit * list (json * json) :=
  match apps with
  | [] => (Returned tt, table)
  | app :: rest =>
      match get app "appId" with
      | Threw n msg => (Threw n msg, table)
      | Returned appId =>
          if truthy appId
          then populate rest (map_set (default JNull appId) app table)
          else populate rest table
      end
  end.

Definition updateRogueApps (m : RogueAppsManager) (f : fetched) (now : Z)
    : outcome unit * RogueAppsManager :=
  match f with
  | NetworkError message => (Threw "TypeError" message, m)
  | TimedOut => (Threw "AbortError" "The operation was aborted", m)
  | Response status statusText body =>
      if negb (ok status) then (Threw "Error" (http_error status statusText), m)
      else
        match body with
        | None => (Threw "SyntaxError" "Unexpected token in JSON", m)
        | Some (JArr apps) =>
            match populate apps [] with
            | (Returned _, table) =>
                (Returned tt,
                 {| rogueApps := table; lastUpdate := now;
                    initialized := initialized m; sourceUrl := sourceUrl m;
                    rogue_apps_cache := Some (JArr apps, now) |})
            | (Threw n msg, table) =>
                (Threw n msg,
                 {| rogueApps := table; lastUpdate := lastUpdate m;
                    initialized := initialized m; sourceUrl := sourceUrl m;
                    rogue_apps_cache := rogue_apps_cache m |})
            end
        | Some _ =>
            (Threw "Error" "Invalid response format: expected array", m)
        end
  end.

(** The refreshes that fail before the table is touched: network error,
    timeout, non-2xx status, a body that is no JSON, a payload that is no
    array. *)
Definition fails_early (f : fetched) : Prop :=
  match f with
  | NetworkError _ | TimedOut => True
  | Response status _ body =>
      ok status = false \/ body = None
      \/ exists j, body = Some j /\ forall apps, j <> JArr apps
  end.

(** What forceUpdate resolves to. *)
Inductive update_report : Type :=
| UpdateSucceeded (count : nat)
| UpdateFailed (error : string).

Definition forceUpdate (m : RogueAppsManager) (f : fetched) (now : Z)
    : update_report * RogueAppsManager :=
  match updateRogueApps m f now with
  | (Returned _, m') => (UpdateSucceeded (length (rogueApps m')), m')
  | (Threw _ message, m') => (UpdateFailed message, m')
  end.

Definition calculateRiskLevel (app : json) : string :=
  match get_opt (Some app) "severity" with
  | Some (JStr "critical") | Some (JStr "high") => "high"
  | Some (JStr "medium") => "medium"
  | _ => "low"
  end.

(** The three shapes checkClientId returns. *)
Inductive rogue_check : Type :=
| CheckNull
| NotRogue
| IsRogue (appName : value) (risk : string).

Definition checkClientId (m : RogueAppsManager) (clientId : string) : rogue_check :=
  if String.eqb clientId "" || negb (initialized m) then CheckNull
  else match map_get (JStr clientId) (rogueApps m) with
       | Some app =>
           if truthy (Some app)
           then IsRogue (get_opt (Some app) "displayName") (calculateRiskLevel app)
           else NotRogue
       | None => NotRogue
       end.

(** *** CheckBackground *)

(** An entry of [chrome.storage.session] under the key ['verdict:' + tabId];
    the map below is keyed by the tab id itself. *)
Record TabVerdict : Type := {
  verdict : string;
  url : option string;
  detail : list (string * value)
}.

(** An entry of the header cache: the response headers by lower-cased
    name, and when they were captured. *)
Record HeaderEntry : Type := {
  headers : gmap string string;
  ts : Z
}.

(** The header cache is a [Map], whose iteration order (insertion order)
    decides which of two equally old entries is evicted: an association
    list in insertion order. *)
Fixpoint headers_get (tabId : Z) (m : list (Z * HeaderEntry)) : option HeaderEntry :=
  match m with
  | [] => None
  | (k, e) :: m' => if (k =? tabId)%Z then Some e else headers_get tabId m'
  end.

Fixpoint headers_set (tabId : Z) (e : HeaderEntry) (m : list (Z * HeaderEntry))
    : list (Z * HeaderEntry) :=
  match m with
  | [] => [(tabId, e)]
  | (k, e') :: m' =>
      if (k =? tabId)%Z then (k, e) :: m' else (k, e') :: headers_set tabId e m'
  end.

Definition headers_delete (tabId : Z) (m : list (Z * HeaderEntry))
    : list (Z * HeaderEntry) :=
  filter (fun ke => fst ke <> tabId) m.

(** The loop that looks for the oldest entry: [best] is
    [(oldestId, oldestTs)], [None] while [oldestTs] is [Infinity]. *)
Fixpoint oldest_from (m : list (Z * HeaderEntry)) (best : option (Z * Z))
    : option (Z * Z) :=
  match m with
  | [] => best
  | (k, e) :: m' =>
      match best with
      | None => oldest_from m' (Some (k, ts e))
      | Some (_, oldestTs) =>
          if (ts e <? oldestTs)%Z then oldest_from m' (Some (k, ts e))
          else oldest_from m' best
      end
  end.

Definition HEADER_CACHE_TTL : Z := 5 * 60 * 1000.
Definition MAX_HEADER_CACHE_ENTRIES : nat := 100.

(** [headers[h.name.toLowerCase()] = h.value || ''] over the response
    headers.  [headers] is a plain object and the map is that of its own
    properties: an assignment to ['__proto__'] reaches the setter of
    [Object.prototype], which ignores a string, and creates no property. *)
Definition collect_headers (responseHeaders : list (string * option string))
    : gmap string string :=
  foldl (fun hs h =>
           let name := toLowerCase (fst h) in
           if String.eqb name "__proto__" then hs
           else <[name := default "" (snd h)]> hs)
        ∅ responseHeaders.

(** The value of the last response header named [n], letter case
    ignored. *)
Definition last_header (n : string)
    (responseHeaders : list (string * option string)) : option string :=
  (fun h => default "" (snd h))
    <$> last (filter (fun h => toLowerCase (fst h) = n) responseHeaders).

(** [chrome.tabs.TabChangeInfo] and [chrome.tabs.Tab], the members read. *)
Record TabChangeInfo : Type := {
  status : option string;
  changed_url : option string
}.

Record Tab : Type := {
  tab_id : Z;
  tab_url : option string
}.

(** The initialization fields of the class. *)
Record Init : Type := {
  isInitialized : bool;
  initializationPromise : bool;   (* a promise is stored (non-null) *)
  initializationRetries : Z;
  _retryScheduled : bool;
  _listenersReady : bool;
  lastError : option string;
  errorCount : Z
}.

(** The per-tab maps of the class. *)
Record PerTab : Type := {
  tabHeaders : list (Z * HeaderEntry);
  tabQueues : gmap Z nat;          (* tab id -> tasks chained so far *)
  tabDebounce : gmap Z Z           (* tab id -> timer id *)
}.

(** The browser state the service worker acts on. *)
Record Chrome : Type := {
  session : gmap Z TabVerdict;     (* chrome.storage.session *)
  alarms : list (string * Z);      (* every chrome.alarms.create(name, when) *)
  timeouts : gmap Z (Z * TabChangeInfo * Tab);  (* pending setTimeout *)
  next_timeout : Z
}.

Record State : Type := {
  init : Init;
  policy : value;
  extraWhitelist : gset string;
  tabs : PerTab;
  rogueAppsManager : RogueAppsManager;
  chrome : Chrome
}.

Definition maxInitializationRetries : Z := 3.
Definition maxErrors : Z := 10.

Definition getDefaultPolicy : json :=
  JObj [ ("BrandingName", JStr "CyberDrain Check Phishing Protection");
         ("BrandingImage", JStr "");
         ("ExtraWhitelist", JArr []);
         ("CIPPReportingServer", JStr "");
         ("AlertWhenLogon", JBool true);
         ("ValidPageBadgeImage", JStr "");
         ("StrictResourceAudit", JBool true);
         ("RequireMicrosoftAction", JBool true);
         ("EnableValidPageBadge", JBool false) ].

Definition with_init (st : State) (i : Init) : State :=
  {| init := i; policy := policy st; extraWhitelist := extraWhitelist st;
     tabs := tabs st; rogueAppsManager := rogueAppsManager st;
     chrome := chrome st |}.

Definition with_policy (st : State) (p : value) (w : gset string) : State :=
  {| init := init st; policy := p; extraWhitelist := w;
     tabs := tabs st; rogueAppsManager := rogueAppsManager st;
     chrome := chrome st |}.

Definition with_tabs (st : State) (t : PerTab) : State :=
  {| init := init st; policy := policy st; extraWhitelist := extraWhitelist st;
     tabs := t; rogueAppsManager := rogueAppsManager st;
     chrome := chrome st |}.

Definition with_rogue (st : State) (m : RogueAppsManager) : State :=
  {| init := init st; policy := policy st; extraWhitelist := extraWhitelist st;
     tabs := tabs st; rogueAppsManager := m; chrome := chrome st |}.

Definition with_chrome (st : State) (c : Chrome) : State :=
  {| init := init st; policy := policy st; extraWhitelist := extraWhitelist st;
     tabs := tabs st; rogueAppsManager := rogueAppsManager st;
     chrome := c |}.

(** [chrome.storage.session.set({['verdict:' + tabId]: entry})]. *)
Definition session_set (st : State) (tabId : Z) (entry : TabVerdict) : State :=
  with_chrome st
    {| session := <[tabId := entry]> (session (chrome st));
       alarms := alarms (chrome st);
       timeouts := timeouts (chrome st);
       next_timeout := next_timeout (chrome st) |}.

(** [chrome.alarms.create(name, {when})]. *)
Definition alarms_create (st : State) (name : string) (when : Z) : State :=
  with_chrome st
    {| session := session (chrome st);
       alarms := alarms (chrome st) ++ [(name, when)];
       timeouts := timeouts (chrome st);
       next_timeout := next_timeout (chrome st) |}.

(** The fresh instance and a fresh browser session. *)
Definition initial : State :=
  {| init := {| isInitialized := false; initializationPromise := false;
                initializationRetries := 0; _retryScheduled := false;
                _listenersReady := false; lastError := None;
                errorCount := 0 |};
     policy := None;
     extraWhitelist := ∅;
     tabs := {| tabHeaders := []; tabQueues := ∅; tabDebounce := ∅ |};
     rogueAppsManager :=
       {| rogueApps := []; lastUpdate := 0; initialized := false;
          sourceUrl := ""; rogue_apps_cache := None |};
     chrome := {| session := ∅; alarms := []; timeouts := ∅;
                  next_timeout := 1 |} |}.

Definition enterFallbackMode (st : State) : State :=
  let i := init st in
  with_policy
    (with_init st
       {| isInitialized := false;
          initializationPromise := initializationPromise i;
          initializationRetries := initializationRetries i;
          _retryScheduled := _retryScheduled i;
          _listenersReady := _listenersReady i;
          lastError := lastError i; errorCount := errorCount i |})
    (Some getDefaultPolicy) (extraWhitelist st).

Section Runtime.

(** [new URL(u).origin], [None] when the constructor throws. *)
Variable URL_origin : string -> option string.

Definition urlOrigin (u : string) : string :=
  match URL_origin u with
  | Some origin => toLowerCase origin
  | None => ""
  end.

(** [(policy?.ExtraWhitelist || []).map(s => this.urlOrigin(s)).filter(Boolean)]
    as a [Set]; a truthy entry that is no array has no [map] and throws. *)
Definition whitelist_of (p : value) : outcome (gset string) :=
  let entry := get_opt p "ExtraWhitelist" in
  if truthy entry then
    match entry with
    | Some (JArr items) =>
        Returned (list_to_set
                    (filter (fun o => o ≠ "") (map (fun s => urlOrigin (ToString s)) items)))
    | _ => Threw "TypeError" "map is not a function"
    end
  else Returned ∅.

(** refreshPolicy, given what [policyManager.getPolicies()] resolves to. *)
Definition refreshPolicy (st : State) (policyData : value) : State :=
  let p := if truthy policyData then policyData else Some getDefaultPolicy in
  match whitelist_of p with
  | Returned w => with_policy st p w
  | Threw _ _ => with_policy st (Some getDefaultPolicy) ∅
  end.

Definition default_trusted_origins : list string :=
  [ "https://login.microsoftonline.com";
    "https://login.microsoft.com";
    "https://account.microsoft.com" ].

Definition verdictForUrl (st : State) (raw : string) : outcome string :=
  let origin := urlOrigin raw in
  let by_whitelist :=
    if bool_decide (origin ∈ extraWhitelist st)
    then Returned "trusted-extra" else Returned "not-evaluated" in
  let stored := get_opt (policy st) "trustedOrigins" in
  if truthy stored then
    (* trustedOrigins is the stored JSON value, which holds no function *)
    if truthy (get_opt stored "has")
    then Threw "TypeError" "trustedOrigins.has is not a function"
    else by_whitelist
  else
    (* trustedOrigins is the Set of the three login origins *)
    if bool_decide (origin ∈ default_trusted_origins)
    then Returned "trusted" else by_whitelist.

(** What the awaited calls in the [try] block of _doInitialize do on one
    run.  One of them rejects: that is [configManager.loadConfig()], which
    rethrows and comes before refreshPolicy (the later calls catch their
    own errors).  Or all resolve: then [policyData] is what
    [policyManager.getPolicies()] gives refreshPolicy and [rogue] is the
    rogue-apps manager after its own [initialize()]. *)
Inductive init_run : Type :=
| InitFails (message : string)
| InitSucceeds (policyData : value) (rogue : RogueAppsManager).

Definition _doInitialize (st : State) (run : init_run) (now : Z)
    : outcome unit * State :=
  match run with
  | InitSucceeds policyData rogue =>
      let st := with_rogue (refreshPolicy st policyData) rogue in
      let i := init st in
      (Returned tt,
       with_init st
         {| isInitialized := true;
            initializationPromise := initializationPromise i;
            initializationRetries := 0;
            _retryScheduled := _retryScheduled i;
            _listenersReady := true;            (* setupEventListeners *)
            lastError := lastError i;
            errorCount := 0 |})
  | InitFails message =>
      let i := init st in
      let retries := (initializationRetries i + 1)%Z in
      let st :=
        with_init st
          {| isInitialized := isInitialized i;
             initializationPromise := false;
             initializationRetries := retries;
             _retryScheduled := _retryScheduled i;
             _listenersReady := _listenersReady i;
             lastError := Some message;
             errorCount := errorCount i |} in
      if (retries <? maxInitializationRetries)%Z then
        let i := init st in
        (Threw "Error" message,
         alarms_create
           (with_init st
              {| isInitialized := isInitialized i;
                 initializationPromise := initializationPromise i;
                 initializationRetries := initializationRetries i;
                 _retryScheduled := true;
                 _listenersReady := _listenersReady i;
                 lastError := lastError i;
                 errorCount := errorCount i |})
           "check:init-retry" (now + 1000 * retries)%Z)
      else (Threw "Error" message, enterFallbackMode st)
  end.

Definition initialize (st : State) (run : init_run) (now : Z)
    : outcome unit * State :=
  let i := init st in
  if isInitialized i then (Returned tt, st)
  else if initializationPromise i || _retryScheduled i then (Returned tt, st)
  else
    _doInitialize
      (with_init st
         {| isInitialized := isInitialized i;
            initializationPromise := true;
            initializationRetries := initializationRetries i;
            _retryScheduled := _retryScheduled i;
            _listenersReady := _listenersReady i;
            lastError := lastError i;
            errorCount := errorCount i |})
      run now.

(** The [chrome.alarms.onAlarm] listener of setupCoreListeners. *)
Definition onAlarm (st : State) (name : string) (run : init_run) (now : Z) : State :=
  if String.eqb name "check:init-retry" then
    let i := init st in
    snd (initialize
           (with_init st
              {| isInitialized := isInitialized i;
                 initializationPromise := initializationPromise i;
                 initializationRetries := initializationRetries i;
                 _retryScheduled := false;
                 _listenersReady := _listenersReady i;
                 lastError := lastError i;
                 errorCount := errorCount i |})
           run now)
  else st.   (* 'check:flush' writes the log batches, which are not modelled *)

(** [a || b] on optional strings. *)
Definition or_else (a b : option string) : option string :=
  match a with
  | Some s => if String.eqb s "" then b else a
  | None => b
  end.

Definition is_truthy (a : option string) : bool :=
  match a with
  | Some s => negb (String.eqb s "")
  | None => false
  end.

(** handleTabUpdate, given what [chrome.tabs.get(tabId)] resolves to
    ([None] when the safe wrapper swallowed a rejection) and whether
    [chrome.storage.session.get] resolves ([read]): when it rejects, the
    safe wrapper yields [undefined] and [existingVerdict] is [undefined]
    whatever is stored.  The badge, the outbound events and the
    content-script injection leave the state untouched. *)
Definition handleTabUpdate (st : State) (tabId : Z) (changeInfo : TabChangeInfo)
    (tab : Tab) (latest : option Tab) (read : bool) : State :=
  if negb (isInitialized (init st)) then st
  else
    match latest with
    | None => st
    | Some latest =>
        if negb (bool_decide (tab_url latest
                                = or_else (tab_url tab) (changed_url changeInfo)))
        then st
        else if bool_decide (status changeInfo = Some "complete")
                && is_truthy (tab_url tab)
        then
          match verdictForUrl st (default "" (tab_url tab)) with
          | Threw _ _ => st                    (* caught and logged *)
          | Returned urlBasedVerdict =>
              let existingVerdict :=
                if read then verdict <$> session (chrome st) !! tabId
                else None in
              let shouldUpdateVerdict :=
                negb (is_truthy existingVerdict)
                || bool_decide (existingVerdict = Some "not-evaluated")
                || (bool_decide (existingVerdict = Some "trusted")
                    && negb (String.eqb urlBasedVerdict "trusted")) in
              if shouldUpdateVerdict
              then session_set st tabId
                     {| verdict := urlBasedVerdict; url := tab_url tab;
                        detail := [] |}
              else st
          end
        else st
    end.

(** debouncePerTab as called by the [tabs.onUpdated] listener: the pending
    timer of the tab is cleared and a new one armed. *)
Definition debouncePerTab (st : State) (tabId : Z) (changeInfo : TabChangeInfo)
    (tab : Tab) : State :=
  let c := chrome st in
  let cleared :=
    match tabDebounce (tabs st) !! tabId with
    | Some old => delete old (timeouts c)
    | None => timeouts c
    end in
  let id := next_timeout c in
  with_tabs
    (with_chrome st
       {| session := session c; alarms := alarms c;
          timeouts := <[id := (tabId, changeInfo, tab)]> cleared;
          next_timeout := (id + 1)%Z |})
    {| tabHeaders := tabHeaders (tabs st);
       tabQueues := tabQueues (tabs st);
       tabDebounce := <[tabId := id]> (tabDebounce (tabs st)) |}.

(** enqueue: the task is chained on the tab's queue and, the handlers being
    atomic here, runs at once. *)
Definition enqueue (st : State) (tabId : Z) (task : State -> State) : State :=
  let prev := default 0%nat (tabQueues (tabs st) !! tabId) in
  task
    (with_tabs st
       {| tabHeaders := tabHeaders (tabs st);
          tabQueues := <[tabId := S prev]> (tabQueues (tabs st));
          tabDebounce := tabDebounce (tabs st) |}).

(** A debounce timer fires. *)
Definition onTimeout (st : State) (id : Z) (latest : option Tab)
    (read : bool) : State :=
  let c := chrome st in
  match timeouts c !! id with
  | None => st
  | Some (tabId, changeInfo, tab) =>
      enqueue
        (with_chrome st
           {| session := session c; alarms := alarms c;
              timeouts := delete id (timeouts c);
              next_timeout := next_timeout c |})
        tabId
        (fun st => handleTabUpdate st tabId changeInfo tab latest read)
  end.

(** The [chrome.webRequest.onHeadersReceived] listener of
    setupEventListeners, for a main-frame response. *)
Definition onHeadersReceived (st : State) (tabId : Z)
    (responseHeaders : option (list (string * option string))) (now : Z)
    : State :=
  if (tabId <? 0)%Z then st
  else
    match responseHeaders with
    | None => st
    | Some hs =>
        let cache := tabHeaders (tabs st) in
        let cache :=
          if (MAX_HEADER_CACHE_ENTRIES <=? length cache)%nat then
            match oldest_from cache None with
            | Some (oldestId, _) => headers_delete oldestId cache
            | None => cache
            end
          else cache in
        with_tabs st
          {| tabHeaders :=
               headers_set tabId {| headers := collect_headers hs; ts := now |}
                 cache;
             tabQueues := tabQueues (tabs st);
             tabDebounce := tabDebounce (tabs st) |}
    end.

(** The [chrome.tabs.onRemoved] listener of setupEventListeners. *)
Definition onRemoved (st : State) (tabId : Z) : State :=
  let c := chrome st in
  let cleared :=
    match tabDebounce (tabs st) !! tabId with
    | Some id => delete id (timeouts c)
    | None => timeouts c
    end in
  with_tabs
    (with_chrome st
       {| session := session c; alarms := alarms c;
          timeouts := cleared; next_timeout := next_timeout c |})
    {| tabHeaders := headers_delete tabId (tabHeaders (tabs st));
       tabQueues := delete tabId (tabQueues (tabs st));
       tabDebounce := delete tabId (tabDebounce (tabs st)) |}.

(** The messages whose handling touches the verdicts or the supervisor;
    [Other] stands for every remaining type, whose handler either answers
    or throws into the outer [catch]. *)
Inductive message : Type :=
| ping
| FLAG_PHISHY (reason : value)
| FLAG_TRUSTED_BY_REFERRER
| FLAG_MS_LOGIN_ON_UNKNOWN_DOMAIN (origin redirectTo : value)
| FLAG_ROGUE_APP (clientId appName reason : value)
| UPDATE_VERDICT_TO_SAFE (reason analysis legitimacyScore threshold : value)
| CHECK_ROGUE_APP (clientId : string)
| GET_PAGE_HEADERS
| Other (throws : option string).

Inductive response : Type :=
| PingResponse (initialized fallbackMode : bool) (errorCount : Z)
    (lastError : option string)
| Success
| RogueAppData (data : rogue_check)
| PageHeaders (found : gmap string string)
| Handled
| Failure (error : string).

(** [sender.tab?.id], truthy for a non-zero tab id. *)
Definition sender_tab (sender : option Tab) : option Tab :=
  match sender with
  | Some t => if (tab_id t =? 0)%Z then None else Some t
  | None => None
  end.

Definition flag (st : State) (sender : option Tab) (v : string)
    (d : list (string * value)) : State * option response :=
  match sender_tab sender with
  | Some t =>
      (session_set st (tab_id t)
         {| verdict := v; url := tab_url t; detail := d |},
       Some Success)
  | None => (st, None)
  end.

Definition handleMessage (st : State) (msg : message) (sender : option Tab)
    (run : init_run) (now : Z) : State * option response :=
  match msg with
  | ping =>
      (st, Some (PingResponse (isInitialized (init st))
                   (negb (isInitialized (init st)))
                   (errorCount (init st)) (lastError (init st))))
  | _ =>
      let st :=
        if negb (isInitialized (init st))
        then snd (initialize st run now)      (* a rejection is caught here *)
        else st in
      match msg with
      | ping => (st, None)
      | FLAG_PHISHY reason => flag st sender "phishy" []
      | FLAG_TRUSTED_BY_REFERRER =>
          flag st sender "trusted" [("by", Some (JStr "referrer"))]
      | FLAG_MS_LOGIN_ON_UNKNOWN_DOMAIN origin redirectTo =>
          flag st sender "ms-login-unknown"
            [("origin", origin); ("redirectTo", redirectTo)]
      | FLAG_ROGUE_APP clientId appName reason =>
          flag st sender "rogue-app"
            [("clientId", clientId); ("appName", appName); ("reason", reason)]
      | UPDATE_VERDICT_TO_SAFE reason analysis legitimacyScore threshold =>
          flag st sender "safe"
            [("reason", reason); ("analysis", analysis);
             ("legitimacyScore", legitimacyScore); ("threshold", threshold)]
      | CHECK_ROGUE_APP clientId =>
          let result := checkClientId (rogueAppsManager st) clientId in
          match result, sender_tab sender with
          | IsRogue _ _, Some t =>
              (session_set st (tab_id t)
                 {| verdict := "rogue-app"; url := tab_url t;
                    detail := [("appId", Some (JStr clientId))] |},
               Some (RogueAppData result))
          | _, _ => (st, Some (RogueAppData result))
          end
      | GET_PAGE_HEADERS =>
          (* [sender.tab?.id != null] holds for the tab id 0 as well *)
          match sender with
          | Some t =>
              match headers_get (tab_id t) (tabHeaders (tabs st)) with
              | Some data =>
                  if (HEADER_CACHE_TTL <? now - ts data)%Z
                  then (with_tabs st
                          {| tabHeaders :=
                               headers_delete (tab_id t) (tabHeaders (tabs st));
                             tabQueues := tabQueues (tabs st);
                             tabDebounce := tabDebounce (tabs st) |},
                        Some (PageHeaders ∅))
                  else (st, Some (PageHeaders (headers data)))
              | None => (st, Some (PageHeaders ∅))
              end
          | None => (st, Some (PageHeaders ∅))
          end
      | Other None => (st, Some Handled)
      | Other (Some error) =>
          let i := init st in
          let errors := (errorCount i + 1)%Z in
          let counted (e : Z) (ready promise : bool) :=
            with_init st
              {| isInitialized := ready;
                 initializationPromise := promise;
                 initializationRetries := initializationRetries i;
                 _retryScheduled := _retryScheduled i;
                 _listenersReady := _listenersReady i;
                 lastError := lastError i;
                 errorCount := e |} in
          if (maxErrors <? errors)%Z
          then (snd (initialize (counted 0%Z false false) run now),
                Some (Failure error))
          else (counted errors (isInitialized i) (initializationPromise i),
                Some (Failure error))
      end
  end.

(** What the service worker reacts to.  The tab listeners exist once
    setupEventListeners has run. *)
Inductive event : Type :=
| Loaded (run : init_run) (now : Z)
| Alarm (name : string) (run : init_run) (now : Z)
| Message (msg : message) (sender : option Tab) (run : init_run) (now : Z)
| TabUpdated (tabId : Z) (changeInfo : TabChangeInfo) (tab : Tab)
| TimerFired (id : Z) (latest : option Tab) (read : bool)
| HeadersReceived (tabId : Z)
    (responseHeaders : option (list (string * option string))) (now : Z)
| TabRemoved (tabId : Z).

Definition step (st : State) (e : event) : State :=
  match e with
  | Loaded run now => snd (initialize st run now)
  | Alarm name run now => onAlarm st name run now
  | Message msg sender run now => fst (handleMessage st msg sender run now)
  | TabUpdated tabId changeInfo tab =>
      if _listenersReady (init st) then debouncePerTab st tabId changeInfo tab
      else st
  | TimerFired id latest read => onTimeout st id latest read
  | HeadersReceived tabId responseHeaders now =>
      if _listenersReady (init st)
      then onHeadersReceived st tabId responseHeaders now else st
  | TabRemoved tabId =>
      if _listenersReady (init st) then onRemoved st tabId else st
  end.

Definition run_events (st : State) (es : list event) : State :=
  foldl step st es.

(** The answers to the pings among the events, in order. *)
Fixpoint ping_answers (st : State) (es : list event) : list bool :=
  match es with
  | [] => []
  | e :: es' =>
      match e with
      | Message ping sender run now =>
          match snd (handleMessage st ping sender run now) with
          | Some (PingResponse _ fallbackMode _ _) =>
              fallbackMode :: ping_answers (step st e) es'
          | _ => ping_answers (step st e) es'
          end
      | _ => ping_answers (step st e) es'
      end
  end.

(** The retry alarms among all alarms created so far. *)
Definition retry_alarms (st : State) : list Z :=
  snd <$> filter (fun a => fst a = "check:init-retry") (alarms (chrome st)).

(** The events whose initialization run, if one starts, fails. *)
Definition fails (e : event) : Prop :=
  match e with
  | Loaded (InitSucceeds _ _) _
  | Alarm _ (InitSucceeds _ _) _
  | Message _ _ (InitSucceeds _ _) _ => False
  | _ => True
  end.



(** The verdicts the service worker writes. *)
Definition written_verdicts : list string :=
  [ "trusted"; "trusted-extra"; "not-evaluated"; "phishy";
    "ms-login-unknown"; "rogue-app"; "safe" ].

(** The states the service worker reaches from a fresh start. *)
Definition reachable (st : State) : Prop :=
  exists es, st = run_events initial es.

(** *** Predicates on the states *)

(** [policy?.trustedOrigins?.has] is truthy: the call
    [trustedOrigins.has(origin)] is made on stored data. *)
Definition has_member (st : State) : bool :=
  truthy (get_opt (get_opt (policy st) "trustedOrigins") "has").

Definition whitelist_ok (st : State) : Prop := "" ∉ extraWhitelist st.

Definition verdicts_ok (st : State) : Prop :=
  forall tabId entry,
    session (chrome st) !! tabId = Some entry ->
    verdict entry ∈ written_verdicts.

(** What a transition does to the stored verdicts: nothing, or one entry
    is written with one of the seven verdicts. *)
Definition writes_at_most_one (st st' : State) : Prop :=
  session (chrome st') = session (chrome st)
  \/ exists tabId entry,
       verdict entry ∈ written_verdicts
       /\ session (chrome st') = <[tabId := entry]> (session (chrome st)).

(** The state a message handler works on once it has tried to
    initialize. *)
Definition after_init_attempt (st : State) (run : init_run) (now : Z) : State :=
  if negb (isInitialized (init st))
  then snd (initialize st run now) else st.

Definition fails_run (run : init_run) : Prop :=
  match run with
  | InitFails _ => True
  | InitSucceeds _ _ => False
  end.

(** Fallback mode: not initialized and out of retries. *)
Definition in_fallback (st : State) : Prop :=
  isInitialized (init st) = false
  /\ (maxInitializationRetries <= initializationRetries (init st))%Z.

(** Before fallback, under failing runs: not initialized, and one retry
    alarm per failure up to the last retry. *)
Definition retry_budget (st : State) : Prop :=
  isInitialized (init st) = false
  /\ (0 <= initializationRetries (init st))%Z
  /\ Z.of_nat (length (alarms (chrome st)))
     = Z.min (initializationRetries (init st)) (maxInitializationRetries - 1).

(** The canonical run: the first attempt at load and the two retries
    each fail. *)
Definition three_failures (m1 m2 m3 : string) (t1 t2 t3 : Z) : list event :=
  [ Loaded (InitFails m1) t1;
    Alarm "check:init-retry" (InitFails m2) t2;
    Alarm "check:init-retry" (InitFails m3) t3 ].

End Runtime.
End Background.

(* ===================================================================== *)
(** ** The second copy of the service worker *)
(* ===================================================================== *)

Module BackgroundAlt.

Import Background.

(** handleTabRemoved of that copy: it removes the stored verdict, the
    queue and the debounce entry. *)
Definition handleTabRemoved (st : State) (tabId : Z) : State :=
  let c := chrome st in
  with_tabs
    (with_chrome st
       {| session := delete tabId (session c); alarms := alarms c;
          timeouts := timeouts c; next_timeout := next_timeout c |})
    {| tabHeaders := tabHeaders (tabs st);
       tabQueues := delete tabId (tabQueues (tabs st));
       tabDebounce := delete tabId (tabDebounce (tabs st)) |}.

End BackgroundAlt.

(* ===================================================================== *)
(** ** Concrete rule sets and pages *)
(* ===================================================================== *)

Module Fixtures.

Import Content.

Definition password_field : DetectionElement :=
  {| id := "password_field"; pattern := Some "password"; weight := 3%float |}.

Definition sign_in_text : DetectionElement :=
  {| id := "sign_in_text"; pattern := Some "sign in"; weight := 2%float |}.

Definition brand_name : DetectionElement :=
  {| id := "brand_name"; pattern := Some "microsoft"; weight := 1%float |}.

Definition unbalanced : DetectionElement :=
  {| id := "unbalanced"; pattern := Some "("; weight := 1%float |}.

Definition globals (primary secondary : list DetectionElement)
    (p w o : number) : Globals :=
  {| detectionRules :=
       Some {| m365_detection_requirements :=
                 Some {| primary_elements := primary;
                         secondary_elements := secondary;
                         detection_thresholds :=
                           {| minimum_primary_elements := p;
                              minimum_total_weight := w;
                              minimum_elements_overall := o |} |};
               trusted_login_patterns := Some ["microsoftonline"];
               microsoft_domain_patterns := None |};
     trustedLoginPatterns := ["microsoftonline"];
     microsoftDomainPatterns := [] |}.

Definition requirements (primary secondary : list DetectionElement)
    (p w o : number) : M365DetectionRequirements :=
  {| primary_elements := primary; secondary_elements := secondary;
     detection_thresholds :=
       {| minimum_primary_elements := p; minimum_total_weight := w;
          minimum_elements_overall := o |} |}.

Definition login_page : string :=
  "<title>Sign in</title><p>Microsoft</p><input type=password>".

Definition blank_page : string := "<html></html>".

Definition untrusted_url : string := "https://evil.example/login".
Definition trusted_url : string := "https://login.microsoftonline.com/common".

Definition scan (g : Globals) (currentUrl pageSource : string)
    : outcome DetectionResult :=
  analyzePageForPhishing Lit.RegExp Lit.test Lit.URL_origin g currentUrl
    pageSource "2025-01-01T00:00:00.000Z".

Definition no_rogue_apps : Background.RogueAppsManager :=
  {| Background.rogueApps := []; Background.lastUpdate := 0;
     Background.initialized := true; Background.sourceUrl := "";
     Background.rogue_apps_cache := None |}.

Definition known_apps : Background.RogueAppsManager :=
  {| Background.rogueApps :=
       [ (JStr "app-1", JObj [("appId", JStr "app-1");
                              ("displayName", JStr "Mail Sync");
                              ("severity", JStr "high")]) ];
     Background.lastUpdate := 1000;
     Background.initialized := true;
     Background.sourceUrl := "https://example.org/rogueapps.json";
     Background.rogue_apps_cache := None |}.

Definition tab7 : Background.Tab :=
  {| Background.tab_id := 7;
     Background.tab_url := Some "https://evil.example/login" |}.

Definition complete : Background.TabChangeInfo :=
  {| Background.status := Some "complete"; Background.changed_url := None |}.

(** A stored policy whose [trustedOrigins] entry is an object with a
    [has] member that is no function. *)
Definition odd_policy : json :=
  JObj [("trustedOrigins", JObj [("has", JBool true)])].

Definition phishy_entry : Background.TabVerdict :=
  {| Background.verdict := "phishy"; Background.url := Some "https://evil.example/login";
     Background.detail := [] |}.

(** A start that succeeds, then a page in tab 7 flagged by the content
    script. *)
Definition flagged_tab7 : list Background.event :=
  [ Background.Loaded (Background.InitSucceeds None no_rogue_apps) 0;
    Background.Message (Background.FLAG_PHISHY None) (Some tab7)
      (Background.InitFails "") 10 ].

End Fixtures.

(* ===================================================================== *)
(** ** src/scripts/content.ts: the protection loop *)
(* ===================================================================== *)

Module Protection.

Import Content.

Definition MAX_SCANS : Z := 5.
Definition SCAN_COOLDOWN : Z := 1200.

(** The JSON document blockCurrentPage places in the [details] parameter
    of the blocked page: the object goes through [JSON.stringify], which
    keeps the strings and writes the confidence as [json_number] tells. *)
Record BlockDetails : Type := {
  blocked_url : string;
  blocked_reason : string;
  blocked_elements : list string;
  blocked_confidence : option number;
  blocked_timestamp : string
}.

(** [window.location.href]: the page's own address, or, once
    blockCurrentPage has assigned it, the extension's
    [blocked.html?details=...]. *)
Inductive location : Type :=
| At (href : string)
| Blocked (details : BlockDetails).

(** The module-level variables of the content script, and the address of
    the page it runs in. *)
Record Page : Type := {
  globals : Globals;
  lastScanTime : Z;
  scanCount : Z;
  lastDetectionResult : option DetectionResult;
  showingBanner : bool;
  href : location
}.

(** [s.includes(sub)]. *)
Definition includes (s sub : string) : bool := Lit.contains sub s.

Definition fresh (u : string) : Page :=
  {| globals := {| detectionRules := None; trustedLoginPatterns := [];
                   microsoftDomainPatterns := [] |};
     lastScanTime := 0; scanCount := 0; lastDetectionResult := None;
     showingBanner := false; href := At u |}.

(** loadDetectionRules: [rules] is the document obtained from the
    background script or, failing that, from the bundled file; the two
    paths assign the same globals.  The pattern lists are replaced only by
    a list the document carries. *)
Definition loadDetectionRules (g : Globals) (rules : DetectionRules) : Globals :=
  {| detectionRules := Some rules;
     trustedLoginPatterns :=
       default (trustedLoginPatterns g) (trusted_login_patterns rules);
     microsoftDomainPatterns :=
       default (microsoftDomainPatterns g) (microsoft_domain_patterns rules) |}.

(** [JSON.stringify({url, reason, detectedElements, confidence,
    timestamp})] placed in the [details] parameter. *)
Definition blockCurrentPage (u : string) (r : DetectionResult) : location :=
  Blocked {| blocked_url := u;
             blocked_reason := "Potential Microsoft 365 phishing attempt detected";
             blocked_elements := detectedElements r;
             blocked_confidence := json_number (confidence r);
             blocked_timestamp := timestamp r |}.

Section Runtime.

Context {regex : Type}.
Variable RegExp : string -> string -> option regex.
Variable test : regex -> string -> bool.
Variable URL_origin : string -> option string.

(** One call of runProtection.  [now] is [Date.now()], [loaded] what
    loadDetectionRules resolves to ([None]: it rejects), [pageSource] the
    markup and [stamp] the ISO time of the scan.  Whatever is thrown inside
    is caught and logged.  On the blocked page the call returns at once:
    the address blockCurrentPage assigns is
    [chrome.runtime.getURL('blocked.html') + '?details=' + ...], which
    includes ['blocked.html'].  The rate limit is checked and the counter
    raised before the first [await]; the calls are taken one after the
    other. *)
Definition runProtection (p : Page) (now : Z) (loaded : option DetectionRules)
    (pageSource stamp : string) : Page :=
  match href p with
  | Blocked _ => p
  | At currentUrl =>
      if showingBanner p || includes currentUrl "blocked.html" then p
      else if (now - lastScanTime p <? SCAN_COOLDOWN)%Z
              || (MAX_SCANS <=? scanCount p)%Z then p
      else
        let counted g r l :=
          {| globals := g; lastScanTime := now;
             scanCount := (scanCount p + 1)%Z;
             lastDetectionResult := r; showingBanner := showingBanner p;
             href := l |} in
        let rules_loaded :=
          match detectionRules (globals p) with
          | Some _ => Some (globals p)
          | None => loadDetectionRules (globals p) <$> loaded
          end in
        match rules_loaded with
        | None => counted (globals p) (lastDetectionResult p) (href p)
        | Some g =>
            if isTrustedLoginDomain RegExp test URL_origin g currentUrl
            then counted g (lastDetectionResult p) (href p)
            else
              match analyzePageForPhishing RegExp test URL_origin g
                      currentUrl pageSource stamp with
              | Threw _ _ => counted g (lastDetectionResult p) (href p)
              | Returned r =>
                  counted g (Some r)
                    (if isPhishing r then blockCurrentPage currentUrl r
                     else href p)
              end
        end
  end.

(** The calls of one page lifetime: the DOMContentLoaded call and those of
    the mutation observer. *)
Record Call : Type := {
  call_time : Z;
  call_loaded : option DetectionRules;
  call_source : string;
  call_stamp : string
}.

Definition run_calls (p : Page) (calls : list Call) : Page :=
  foldl (fun p c =>
           runProtection p (call_time c) (call_loaded c) (call_source c)
             (call_stamp c))
        p calls.

(** The calls that went past the rate limit. *)
Fixpoint scans (p : Page) (calls : list Call) : list Z :=
  match calls with
  | [] => []
  | c :: rest =>
      let p' := runProtection p (call_time c) (call_loaded c) (call_source c)
                  (call_stamp c) in
      if (scanCount p' =? scanCount p)%Z then scans p' rest
      else call_time c :: scans p' rest
  end.

(** Scan times that keep the cooldown: each at least [SCAN_COOLDOWN]
    after the one before. *)
Fixpoint spaced (last : Z) (ts : list Z) : Prop :=
  match ts with
  | [] => True
  | t :: rest => (SCAN_COOLDOWN <= t - last)%Z /\ spaced t rest
  end.

(** The address is that of a trusted login origin under every pattern list
    the calls can put in force: the one in force when the rules are
    loaded, else the one any successful load installs. *)
Definition trusted_throughout (p : Page) (calls : list Call) (u : string)
    : Prop :=
  match detectionRules (globals p) with
  | Some _ => isTrustedLoginDomain RegExp test URL_origin (globals p) u = true
  | None =>
      forall c rules, c ∈ calls -> call_loaded c = Some rules ->
        isTrustedLoginDomain RegExp test URL_origin
          (loadDetectionRules (globals p) rules) u = true
  end.

End Runtime.

End Protection.

(* ===================================================================== *)
(** ** src/scripts/background.ts: what the service worker maintains *)
(* ===================================================================== *)

Module ServiceWorker.

Import Background.

(** Every pending debounce timer is the one that its tab's entry of
    [tabDebounce] names; before the tab listeners are registered no timer
    is armed. *)
Definition timers_ok (st : State) : Prop :=
  (forall id tabId changeInfo tab,
     timeouts (chrome st) !! id = Some (tabId, changeInfo, tab) ->
     tabDebounce (tabs st) !! tabId = Some id)
  /\ (_listenersReady (init st) = false -> timeouts (chrome st) = ∅).

(** The header cache holds at most [MAX_HEADER_CACHE_ENTRIES] tabs, each
    once. *)
Definition header_cache_ok (st : State) : Prop :=
  (length (tabHeaders (tabs st)) <= MAX_HEADER_CACHE_ENTRIES)%nat
  /\ NoDup (tabHeaders (tabs st)).*1.

Definition error_count_ok (st : State) : Prop :=
  (0 <= errorCount (init st) <= maxErrors)%Z.

(** [app.appId] of a fetched entry ([undefined] where the read throws). *)
Definition app_id (app : json) : value :=
  match get app "appId" with
  | Returned v => v
  | Threw _ _ => None
  end.

(** The entry of a fetched list that a client id designates: the last one
    whose [appId] is that string. *)
Definition has_id (clientId : string) (app : json) : bool :=
  match app_id app with
  | Some (JStr s) => String.eqb s clientId
  | _ => false
  end.

Definition listed (clientId : string) (apps : list json) : option json :=
  last (filter (fun app => has_id clientId app = true) apps).

(** RogueAppsManager.loadFromCache.  [cached] is the [rogue_apps_cache]
    entry the storage read resolved to ([None] when it is absent or the
    read failed), [cacheDuration] is
    [this.config?.cache_duration || this.defaultConfig.cache_duration] and
    [now] is [Date.now()].  What the [forEach] throws is caught and logged,
    after [lastUpdate] was assigned and the table cleared. *)
Definition loadFromCache (m : RogueAppsManager) (cached : option (json * Z))
    (cacheDuration now : Z) : RogueAppsManager :=
  match cached with
  | None => m
  | Some (apps, cachedAt) =>
      if truthy (Some apps) && negb (cachedAt =? 0)%Z then
        if (cacheDuration <? now - cachedAt)%Z then m
        else
          {| rogueApps :=
               match apps with
               | JArr items => snd (populate items [])
               | _ => []          (* [cached.apps.forEach] is no function *)
               end;
             lastUpdate := cachedAt;
             initialized := initialized m;
             sourceUrl := sourceUrl m;
             rogue_apps_cache := rogue_apps_cache m |}
      else m
  end.

(** The manager of a service worker that has just started: the field
    initializers of the class, over the storage the last one left. *)
Definition restarted (m : RogueAppsManager) : RogueAppsManager :=
  {| rogueApps := []; lastUpdate := 0; initialized := false; sourceUrl := "";
     rogue_apps_cache := rogue_apps_cache m |}.

End ServiceWorker.

(* ===================================================================== *)
(** ** src/scripts/background.ts: the batched log writes *)
(* ===================================================================== *)

Module LogBatch.

(** [pendingLocal], [flushScheduled], the two log arrays kept in
    [chrome.storage.local], and the ['check:flush'] alarms created. *)
Record Batch : Type := {
  pendingAccess : list json;
  pendingSecurity : list json;
  flushScheduled : bool;
  accessLogs : option (list json);
  securityEvents : option (list json);
  flushAlarms : list Z
}.

Definition empty : Batch :=
  {| pendingAccess := []; pendingSecurity := []; flushScheduled := false;
     accessLogs := None; securityEvents := None; flushAlarms := [] |}.

(** [l.slice(-n)]. *)
Definition slice_last {A} (n : nat) (l : list A) : list A :=
  drop (length l - n) l.

Definition scheduleFlush (b : Batch) (now : Z) : Batch :=
  if flushScheduled b then b
  else {| pendingAccess := pendingAccess b;
          pendingSecurity := pendingSecurity b;
          flushScheduled := true;
          accessLogs := accessLogs b; securityEvents := securityEvents b;
          flushAlarms := flushAlarms b ++ [(now + 2000)%Z] |}.

(** The last two statements of logUrlAccess. *)
Definition queueAccess (b : Batch) (logEntry : json) (now : Z) : Batch :=
  scheduleFlush
    {| pendingAccess := pendingAccess b ++ [logEntry];
       pendingSecurity := pendingSecurity b;
       flushScheduled := flushScheduled b;
       accessLogs := accessLogs b; securityEvents := securityEvents b;
       flushAlarms := flushAlarms b |} now.

(** The push and the scheduleFlush call of logEvent. *)
Definition queueSecurity (b : Batch) (logEntry : json) (now : Z) : Batch :=
  scheduleFlush
    {| pendingAccess := pendingAccess b;
       pendingSecurity := pendingSecurity b ++ [logEntry];
       flushScheduled := flushScheduled b;
       accessLogs := accessLogs b; securityEvents := securityEvents b;
       flushAlarms := flushAlarms b |} now.

Definition MAX_PAYLOAD : Z := 4 * 1024 * 1024.

Section Runtime.

(** [JSON.stringify({accessLogs, securityEvents}).length]. *)
Variable stringify_length : list json -> list json -> Z.

(** _doFlush.  [read] tells whether the storage read resolved (the safe
    wrapper turns a rejection into [undefined], read as [{}]), [written]
    whether the write did.  The pending entries are taken and cleared in
    one synchronous stretch after the read; flushes are taken one after
    the other. *)
Definition _doFlush (b : Batch) (read written : bool) : Batch :=
  let cur_access := if read then default [] (accessLogs b) else [] in
  let cur_sec := if read then default [] (securityEvents b) else [] in
  let access := slice_last 1000 (cur_access ++ pendingAccess b) in
  let sec := slice_last 500 (cur_sec ++ pendingSecurity b) in
  if (stringify_length access sec <=? MAX_PAYLOAD)%Z && written
  then {| pendingAccess := []; pendingSecurity := [];
          flushScheduled := flushScheduled b;
          accessLogs := Some access; securityEvents := Some sec;
          flushAlarms := flushAlarms b |}
  else {| pendingAccess := []; pendingSecurity := [];
          flushScheduled := flushScheduled b;
          accessLogs := accessLogs b; securityEvents := securityEvents b;
          flushAlarms := flushAlarms b |}.

(** The ['check:flush'] branch of the alarm listener. *)
Definition onFlushAlarm (b : Batch) (read written : bool) : Batch :=
  _doFlush
    {| pendingAccess := pendingAccess b;
       pendingSecurity := pendingSecurity b;
       flushScheduled := false;
       accessLogs := accessLogs b; securityEvents := securityEvents b;
       flushAlarms := flushAlarms b |} read written.

Inductive event : Type :=
| AccessLogged (logEntry : json) (now : Z)
| SecurityLogged (logEntry : json) (now : Z)
| FlushAlarm (read written : bool).

Definition step (b : Batch) (e : event) : Batch :=
  match e with
  | AccessLogged logEntry now => queueAccess b logEntry now
  | SecurityLogged logEntry now => queueSecurity b logEntry now
  | FlushAlarm read written => onFlushAlarm b read written
  end.

Definition run (b : Batch) (es : list event) : Batch := foldl step b es.

Definition is_flush (e : event) : bool :=
  match e with
  | FlushAlarm _ _ => true
  | _ => false
  end.

(** How often the flush alarm fired. *)
Definition flushes (es : list event) : nat :=
  length (filter (fun e => is_flush e = true) es).

(** The entries queued by logUrlAccess and by logEvent, in order. *)
Definition access_logged (es : list event) : list json :=
  omap (fun e => match e with
                 | AccessLogged logEntry _ => Some logEntry
                 | _ => None
                 end) es.

Definition security_logged (es : list event) : list json :=
  omap (fun e => match e with
                 | SecurityLogged logEntry _ => Some logEntry
                 | _ => None
                 end) es.

(** Every flush of the run reads the stored logs, builds a payload within
    the limit and writes it. *)
Fixpoint every_flush_written (b : Batch) (es : list event) : Prop :=
  match es with
  | [] => True
  | e :: rest =>
      match e with
      | FlushAlarm read written =>
          read = true /\ written = true
          /\ (stringify_length
                (slice_last 1000 (default [] (accessLogs b) ++ pendingAccess b))
                (slice_last 500
                   (default [] (securityEvents b) ++ pendingSecurity b))
              <= MAX_PAYLOAD)%Z
      | _ => True
      end
      /\ every_flush_written (step b e) rest
  end.

End Runtime.

End LogBatch.

(* ===================================================================== *)
(** ** src/utils/background-logger.ts *)
(* ===================================================================== *)

Module LogStore.

Record StoredLog : Type := {
  level : string;
  message : string;
  timestamp : string
}.

(** store, on the [debugLogs] entry of [chrome.storage.local].  [read] and
    [written] tell whether the storage read and write resolved; a
    rejection is caught and logged to the console. *)
Definition store (debugLogs : option (list StoredLog)) (read written : bool)
    (entry : StoredLog) : option (list StoredLog) :=
  if read then
    let logs := default [] debugLogs ++ [entry] in
    let logs :=
      if (1000 <? length logs)%nat then drop (length logs - 1000) logs
      else logs in
    if written then Some logs else debugLogs
  else debugLogs.

(** Calls that run one after the other, and whose reads and writes all
    resolve. *)
Definition store_all (debugLogs : option (list StoredLog))
    (entries : list StoredLog) : option (list StoredLog) :=
  foldl (fun logs entry => store logs true true entry) debugLogs entries.

(** [logs.push(entry)] and the [splice] that keeps the last 1000. *)
Definition pushed (debugLogs : option (list StoredLog)) (entry : StoredLog)
    : list StoredLog :=
  let logs := default [] debugLogs ++ [entry] in
  if (1000 <? length logs)%nat then drop (length logs - 1000) logs else logs.

(** The calls of store are not serialized: each 'log' message starts one,
    and a call is suspended at its storage read and at its storage write.
    [writing] holds, for each call that has read, the array it has handed
    to [chrome.storage.local.set]. *)
Record Storage : Type := {
  debugLogs : option (list StoredLog);
  writing : gmap nat (list StoredLog)
}.

Definition empty_storage : Storage := {| debugLogs := None; writing := ∅ |}.

(** What happens to the calls: the read of a call resolves (the call
    builds its array from what it read and starts the write) or rejects;
    the write of a call reaches the storage or rejects. *)
Inductive event : Type :=
| Read (call : nat) (entry : StoredLog) (resolved : bool)
| Write (call : nat) (resolved : bool).

Definition step (st : Storage) (e : event) : Storage :=
  match e with
  | Read call entry true =>
      {| debugLogs := debugLogs st;
         writing := <[call := pushed (debugLogs st) entry]> (writing st) |}
  | Read _ _ false => st
  | Write call resolved =>
      match writing st !! call with
      | Some logs =>
          {| debugLogs := if resolved then Some logs else debugLogs st;
             writing := delete call (writing st) |}
      | None => st
      end
  end.

Definition run (st : Storage) (es : list event) : Storage := foldl step st es.

(** Whatever the storage holds and whatever a call is about to write is
    at most 1000 entries long. *)
Definition within_bound (st : Storage) : Prop :=
  (length (default [] (debugLogs st)) <= 1000)%nat
  /\ forall call logs,
       writing st !! call = Some logs -> (length logs <= 1000)%nat.

(** Calls that run one after the other: each one reads and writes before
    the next one starts. *)
Fixpoint serial (calls : list (nat * StoredLog)) : list event :=
  match calls with
  | [] => []
  | (call, entry) :: rest =>
      Read call entry true :: Write call true :: serial rest
  end.

End LogStore.

(* ===================================================================== *)
(** ** src/modules/detection-rules-manager.ts *)
(* ===================================================================== *)

Module RulesManager.

(** The [detection_rules_cache] entry of [chrome.storage.local]. *)
Record CachedRules : Type := {
  rules : json;
  cached_lastUpdate : Z;
  source : string
}.

(** The fields of DetectionRulesManager, and its storage entry.
    [cachedRules] starts as [null]. *)
Record Manager : Type := {
  cachedRules : json;
  lastUpdate : Z;
  updateInterval : Z;
  fallbackUrl : string;
  remoteUrl : string;
  initialized : bool;
  detection_rules_cache : option CachedRules
}.

(** What [fetch(url)] followed by [response.json()] can deliver. *)
Inductive fetched : Type :=
| Rejected (message : string)
| Responded (status : Z) (statusText : string) (body : option json).

(** saveToCache: [stored] tells whether [chrome.storage.local.set]
    resolved; when it rejects, the two assignments after it are skipped
    and the error is logged. *)
Definition saveToCache (m : Manager) (rules : json) (now : Z) (stored : bool)
    : Manager :=
  if stored then
    {| cachedRules := rules; lastUpdate := now;
       updateInterval := updateInterval m; fallbackUrl := fallbackUrl m;
       remoteUrl := remoteUrl m; initialized := initialized m;
       detection_rules_cache :=
         Some {| rules := rules; cached_lastUpdate := now;
                 source := remoteUrl m |} |}
  else m.

(** One fetch of fetchDetectionRules: the rules it yields, or what it
    throws. *)
Definition rules_of (f : fetched) : outcome json :=
  match f with
  | Rejected message => Threw "TypeError" message
  | Responded status statusText body =>
      if negb (Background.ok status)
      then Threw "Error" (Background.http_error status statusText)
      else match body with
           | Some rules => Returned rules
           | None => Threw "SyntaxError" "Unexpected token in JSON"
           end
  end.

(** fetchDetectionRules: [remote] and [bundled] are what the two fetches
    deliver when they are made, [now] and [stored] belong to the one call
    of saveToCache. *)
Definition fetchDetectionRules (m : Manager) (remote bundled : fetched)
    (now : Z) (stored : bool) : outcome json * Manager :=
  let from_remote :=
    if negb (String.eqb (remoteUrl m) "")
       && negb (String.eqb (remoteUrl m) (fallbackUrl m))
    then match rules_of remote with
         | Returned rules => Some rules
         | Threw _ _ => None              (* caught and logged *)
         end
    else None in
  match from_remote with
  | Some rules => (Returned rules, saveToCache m rules now stored)
  | None =>
      match rules_of bundled with
      | Returned rules => (Returned rules, saveToCache m rules now stored)
      | Threw n msg => (Threw n msg, m)
      end
  end.

(** loadFromCache: [read] is what the storage read resolved to, [None]
    when it rejected. *)
Definition loadFromCache (m : Manager) (read : option (option CachedRules))
    (now : Z) : bool * Manager :=
  match read with
  | Some (Some cached) =>
      if truthy (Some (rules cached))
         && negb (cached_lastUpdate cached =? 0)%Z
      then
        if (now - cached_lastUpdate cached <? updateInterval m)%Z
        then (true,
              {| cachedRules := rules cached;
                 lastUpdate := cached_lastUpdate cached;
                 updateInterval := updateInterval m;
                 fallbackUrl := fallbackUrl m; remoteUrl := remoteUrl m;
                 initialized := initialized m;
                 detection_rules_cache := detection_rules_cache m |})
        else (false, m)
      else (false, m)
  | _ => (false, m)
  end.

(** isUpdateDue. *)
Definition isUpdateDue (m : Manager) (now : Z) : bool :=
  (updateInterval m <? now - lastUpdate m)%Z.

(** A manager constructed anew over the storage of the last one; the
    configuration ([remoteUrl], [updateInterval]) as loadConfiguration
    sets it again. *)
Definition restarted (m : Manager) : Manager :=
  {| cachedRules := JNull; lastUpdate := 0;
     updateInterval := updateInterval m; fallbackUrl := fallbackUrl m;
     remoteUrl := remoteUrl m; initialized := false;
     detection_rules_cache := detection_rules_cache m |}.

End RulesManager.

(* ===================================================================== *)
(** ** Defanged URLs: src/scripts/blocked.ts and src/scripts/background.ts *)
(* ===================================================================== *)

Module Defang.

(** Strings are sequences of code units; the functions below look at no
    unit but the colon, so bytes stand for the units. *)

(** [url.replace(/:/g, '[:]')]. *)
Fixpoint replace_colons (url : string) : string :=
  match url with
  | EmptyString => EmptyString
  | String c rest =>
      if Ascii.eqb c ":" then "[:]" +:+ replace_colons rest
      else String c (replace_colons rest)
  end.

(** defangUrl of blocked.ts. *)
Definition defangUrl (url : string) : string :=
  if String.eqb url "" || String.eqb url "about:blank"
     || Protection.includes url "chrome-extension://"
  then "Unknown URL"
  else
    let defanged := replace_colons url in
    if (80 <? String.length defanged)%nat
    then String.substring 0 77 defanged +:+ "..."
    else defanged.

(** truncateUrl of blocked.ts. *)
Definition truncateUrl (url : string) : string :=
  if (50 <? String.length url)%nat
  then String.substring 0 47 url +:+ "..."
  else url.

(** CheckBackground.defangUrl of background.ts, on a string. *)
Definition defangUrl_background (url : string) : string :=
  if Protection.includes url "[:]" then url else replace_colons url.

(** No colon of the string is directly followed by a slash. *)
Fixpoint no_colon_slash (s : string) : bool :=
  match s with
  | EmptyString => true
  | String c rest =>
      negb (Ascii.eqb c ":" && String.prefix "/" rest) && no_colon_slash rest
  end.

End Defang.


(* ===================================================================== *)
(** ** More concrete inputs *)
(* ===================================================================== *)

Module Samples.

Import Content.

Definition stamp : string := "2025-01-01T00:00:00.000Z".

(** The rule document of [Fixtures.globals]. *)
Definition rules (primary secondary : list DetectionElement) : DetectionRules :=
  {| m365_detection_requirements :=
       Some (Fixtures.requirements primary secondary 2 5 3);
     trusted_login_patterns := Some ["microsoftonline"];
     microsoft_domain_patterns := None |}.

(** A page on which the rules are already loaded. *)
Definition page_at (primary secondary : list DetectionElement) (u : string)
    : Protection.Page :=
  {| Protection.globals := Fixtures.globals primary secondary 2 5 3;
     Protection.lastScanTime := 0; Protection.scanCount := 0;
     Protection.lastDetectionResult := None;
     Protection.showingBanner := false;
     Protection.href := Protection.At u |}.

Definition first_call : Protection.Call :=
  {| Protection.call_time := 2000; Protection.call_loaded := None;
     Protection.call_source := Fixtures.login_page;
     Protection.call_stamp := stamp |}.

Definition block_details : Protection.BlockDetails :=
  {| Protection.blocked_url := Fixtures.untrusted_url;
     Protection.blocked_reason :=
       "Potential Microsoft 365 phishing attempt detected";
     Protection.blocked_elements :=
       ["password_field"; "sign_in_text"; "brand_name"];
     Protection.blocked_confidence := Some 1%float;
     Protection.blocked_timestamp := stamp |}.

Definition run_protection (p : Protection.Page) (now : Z)
    (loaded : option DetectionRules) : Protection.Page :=
  Protection.runProtection Lit.RegExp Lit.test Lit.URL_origin p now loaded
    Fixtures.login_page stamp.

(** A start that succeeds, then two updates of tab 7 in one burst. *)
Definition burst_tab7 : list Background.event :=
  [ Background.Loaded (Background.InitSucceeds None Fixtures.no_rogue_apps) 0;
    Background.TabUpdated 7 Fixtures.complete Fixtures.tab7;
    Background.TabUpdated 7 Fixtures.complete Fixtures.tab7 ].

Definition html_headers : list (string * option string) :=
  [ ("Content-Type", Some "text/html"); ("X-Frame-Options", None);
    ("__proto__", Some "polluted") ].

(** A header cache at its capacity: the tabs 0 to 99, tab [i] captured at
    time [1000 + i]. *)
Definition full_cache : list (Z * Background.HeaderEntry) :=
  (fun i : nat => (Z.of_nat i,
                   {| Background.headers := ∅;
                      Background.ts := (1000 + Z.of_nat i)%Z |}))
  <$> seq 0 100.

Definition full_state : Background.State :=
  Background.with_tabs Background.initial
    {| Background.tabHeaders := full_cache; Background.tabQueues := ∅;
       Background.tabDebounce := ∅ |}.

Definition mail_sync : json :=
  JObj [("appId", JStr "app-1"); ("displayName", JStr "Mail Sync");
        ("severity", JStr "high")].

Definition refreshed : Background.fetched :=
  Background.Response 200 "OK" (Some (JArr [mail_sync])).

Definition whitelist_policy : list (string * json) :=
  [("ExtraWhitelist", JArr [JStr "https://Partner.Example/start"])].

Definition rules_manager : RulesManager.Manager :=
  {| RulesManager.cachedRules := JNull; RulesManager.lastUpdate := 0;
     RulesManager.updateInterval := 24 * 60 * 60 * 1000;
     RulesManager.fallbackUrl :=
       "chrome-extension://check/rules/detection-rules.json";
     RulesManager.remoteUrl :=
       "https://raw.githubusercontent.com/CyberDrain/Check/refs/heads/main/rules/detection-rules.json";
     RulesManager.initialized := false;
     RulesManager.detection_rules_cache := None |}.

Definition rules_document : json := JObj [("version", JStr "1.0")].

Definition answered : RulesManager.fetched :=
  RulesManager.Responded 200 "OK" (Some rules_document).

Definition unreachable : RulesManager.fetched :=
  RulesManager.Rejected "Failed to fetch".

(** Two entries logged, then the flush alarm. *)
Definition logged_and_flushed : list LogBatch.event :=
  [ LogBatch.AccessLogged (JStr "first") 0;
    LogBatch.SecurityLogged (JStr "second") 10;
    LogBatch.FlushAlarm true true ].

(** A stand-in for the length of the serialized payload: 64 characters
    an entry. *)
Definition small_payload (access sec : list json) : Z :=
  (64 * Z.of_nat (length access + length sec))%Z.

End Samples.

(* ===================================================================== *)
(** ** Arithmetic of the confidence *)
(* ===================================================================== *)

Module NumberFacts.

Lemma SFcompare_antisym a b :
  SFcompare a b = Some Lt -> SFcompare b a = Some Gt.
Proof.
  destruct a as [s1|s1| |s1 m1 e1], b as [s2|s2| |s2 m2 e2]; simpl;
    try discriminate;
    try (destruct s1; try destruct s2; simpl; congruence);
    try (destruct s2; simpl; congruence).
  rewrite (Z.compare_antisym e1 e2).
  change (PosDef.Pos.compare_cont Eq m2 m1)
    with (Pos.compare_cont (CompOpp Eq) m2 m1).
  rewrite <- (Pos.compare_cont_antisym m1 m2 Eq).
  destruct s1, s2; try congruence;
    destruct (e1 ?= e2)%Z; simpl; try congruence;
    destruct (PosDef.Pos.compare_cont Eq m1 m2); simpl; congruence.
Qed.

Lemma SFcompare_refl a : a <> S754_nan -> SFcompare a a = Some Eq.
Proof.
  destruct a as [s|s| |s m e]; simpl; try done; try by destruct s.
  intros _. rewrite Z.compare_refl.
  change (PosDef.Pos.compare_cont Eq m m) with (Pos.compare m m).
  rewrite Pos.compare_refl. by destruct s.
Qed.

(** [x < y] excludes [y < x]. *)
Lemma ltb_asym x y : (x <? y)%float = true -> (y <? x)%float = false.
Proof.
  rewrite !FloatAxioms.ltb_spec. unfold SFltb. intros H.
  destruct (SFcompare (Prim2SF x) (Prim2SF y)) as [[]|] eqn:E; try discriminate.
  by rewrite (SFcompare_antisym _ _ E).
Qed.

(** [x >= y] excludes [x < y]. *)
Lemma leb_not_ltb x y : (y <=? x)%float = true -> (x <? y)%float = false.
Proof.
  rewrite FloatAxioms.leb_spec, FloatAxioms.ltb_spec. unfold SFleb, SFltb. intros H.
  destruct (SFcompare (Prim2SF x) (Prim2SF y)) as [[]|] eqn:E; try done.
  by rewrite (SFcompare_antisym _ _ E) in H.
Qed.

(** A number that compares [>=] to another is not NaN. *)
Lemma leb_not_nan x y : (y <=? x)%float = true -> PrimFloat.is_nan x = false.
Proof.
  unfold PrimFloat.is_nan. rewrite FloatAxioms.leb_spec, FloatAxioms.eqb_spec. unfold SFleb, SFeqb.
  intros H. rewrite SFcompare_refl; [done|].
  intros Hn. rewrite Hn in H.
  by destruct (Prim2SF y) as [[]|[]| |[] ? ?].
Qed.

(** [Math.min(x, 1)] is never above 1. *)
Lemma min_one_not_above_one x : gt (min_one x) 1 = false.
Proof.
  unfold gt, min_one. destruct (PrimFloat.is_nan x); [reflexivity|].
  destruct (x <? 1)%float eqn:E; [by apply ltb_asym|reflexivity].
Qed.

(** At a quotient of 1 or more the clamp yields exactly 1. *)
Lemma min_one_reached x : gte x 1 = true -> min_one x = 1%float.
Proof.
  unfold gte, min_one. intros H.
  by rewrite (leb_not_nan _ _ H), (leb_not_ltb _ _ H).
Qed.

(** Below 1 the clamp leaves the number as it is. *)
Lemma min_one_below x : (x <? 1)%float = true -> min_one x = x.
Proof.
  unfold min_one. intros H. rewrite H.
  destruct (PrimFloat.is_nan x) eqn:Hn; [|done].
  unfold PrimFloat.is_nan in Hn. rewrite FloatAxioms.ltb_spec in H.
  rewrite FloatAxioms.eqb_spec in Hn. unfold SFltb in H. unfold SFeqb in Hn.
  rewrite SFcompare_refl in Hn; [done|].
  intros Hx. by rewrite Hx in H.
Qed.

(** The clamp is NaN exactly when its argument is. *)
Lemma min_one_nan x : PrimFloat.is_nan (min_one x) = PrimFloat.is_nan x.
Proof.
  unfold min_one. destruct (PrimFloat.is_nan x) eqn:Hn; [reflexivity|].
  by destruct (x <? 1)%float.
Qed.

(** The counter after one more [++]. *)
Lemma number_of_nat_S k : number_of_nat (S k) = (number_of_nat k + 1)%float.
Proof. done. Qed.

End NumberFacts.

(* ===================================================================== *)
(** ** The page scan *)
(* ===================================================================== *)

Module ContentFacts.

Import Content.

Section Runtime.

Context {regex : Type}.
Variable RegExp : string -> string -> option regex.
Variable test : regex -> string -> bool.
Variable URL_origin : string -> option string.

Local Abbreviation analyze := (analyzePageForPhishing RegExp test URL_origin).
Local Abbreviation trusted := (isTrustedLoginDomain RegExp test URL_origin).
Local Abbreviation compiles := (fun e => pattern_compiles RegExp e = true).
Local Abbreviation matched := (matched RegExp test).
Local Abbreviation hit := (hit RegExp test).
Local Abbreviation check := (check_elements RegExp test).

Lemma element_matches_compiles ps e :
  pattern_compiles RegExp e = true ->
  element_matches RegExp test ps e = Returned (hit ps e).
Proof.
  unfold pattern_compiles, Content.hit, element_matches.
  destruct (pattern e) as [p|]; [|done].
  destruct (String.eqb p ""); [done|]. simpl.
  destruct (RegExp p "i"); [done|].
  rewrite bool_decide_eq_true. intros [? ?]. discriminate.
Qed.

Lemma element_matches_rejects ps e :
  pattern_compiles RegExp e = false ->
  element_matches RegExp test ps e
  = Threw "SyntaxError" "Invalid regular expression".
Proof.
  unfold pattern_compiles, element_matches.
  destruct (pattern e) as [p|]; [|done].
  destruct (String.eqb p ""); [done|]. simpl.
  destruct (RegExp p "i"); [|done].
  rewrite bool_decide_eq_false. intros []. eauto.
Qed.

Lemma weight_sum_from_app acc l1 l2 :
  weight_sum_from acc (l1 ++ l2)
  = weight_sum_from (weight_sum_from acc l1) l2.
Proof. apply foldl_app. Qed.

Lemma matched_cons ps e l :
  matched ps (e :: l) = if hit ps e then e :: matched ps l else matched ps l.
Proof.
  unfold Content.matched. rewrite filter_cons.
  destruct (hit ps e); case_decide; congruence.
Qed.

(** One loop over elements whose patterns compile: it pushes the ids of
    the matched ones, adds their weights to the running total in list
    order and raises its counter once for each. *)
Lemma check_elements_returns ps l : forall r tw k,
  Forall compiles l ->
  check ps l r tw (number_of_nat k)
  = Returned (foldl push_element r (id <$> matched ps l),
              weight_sum_from tw (matched ps l),
              number_of_nat (k + length (matched ps l))).
Proof.
  induction l as [|e l IH]; intros r tw k Hl.
  - simpl. by rewrite Nat.add_0_r.
  - inversion Hl as [|? ? He Hl']; subst.
    simpl. rewrite (element_matches_compiles ps e He). simpl.
    rewrite matched_cons. destruct (hit ps e).
    + rewrite <- NumberFacts.number_of_nat_S, IH by done.
      simpl length. by rewrite Nat.add_succ_r.
    + by rewrite IH.
Qed.

Lemma check_elements_throws ps l : forall r tw c,
  Exists (fun e => pattern_compiles RegExp e = false) l ->
  check ps l r tw c = Threw "SyntaxError" "Invalid regular expression".
Proof.
  induction l as [|e l IH]; intros r tw c Hl; [by inversion Hl|].
  simpl. destruct (pattern_compiles RegExp e) eqn:He.
  - rewrite (element_matches_compiles ps e He). simpl.
    inversion Hl; subst; [congruence|].
    destruct (hit ps e); by apply IH.
  - by rewrite (element_matches_rejects ps e He).
Qed.

Lemma foldl_push_detected ids : forall r,
  detectedElements (foldl push_element r ids) = detectedElements r ++ ids.
Proof.
  induction ids as [|i ids IH]; intros r; simpl; [by rewrite app_nil_r|].
  rewrite IH. simpl. by rewrite <- app_assoc.
Qed.

Lemma foldl_push_applied ids : forall r,
  appliedRules (foldl push_element r ids) = appliedRules r ++ ids.
Proof.
  induction ids as [|i ids IH]; intros r; simpl; [by rewrite app_nil_r|].
  rewrite IH. simpl. by rewrite <- app_assoc.
Qed.

Lemma foldl_push_rest ids : forall r,
  let r' := foldl push_element r ids in
  isPhishing r' = isPhishing r /\ confidence r' = confidence r
  /\ reasons r' = reasons r /\ timestamp r' = timestamp r
  /\ url r' = url r /\ severity r' = severity r.
Proof.
  induction ids as [|i ids IH]; intros r; simpl; [done|].
  destruct (IH (push_element r i)) as (?&?&?&?&?&?). by repeat split.
Qed.

Lemma foldl_push_element ids : forall r,
  foldl push_element r ids
  = {| isPhishing := isPhishing r; confidence := confidence r;
       detectedElements := detectedElements r ++ ids;
       totalWeight := totalWeight r;
       primaryElementsCount := primaryElementsCount r;
       secondaryElementsCount := secondaryElementsCount r;
       reasons := reasons r; appliedRules := appliedRules r ++ ids;
       timestamp := timestamp r; url := url r; severity := severity r |}.
Proof.
  induction ids as [|i ids IH]; intros r.
  - simpl. rewrite !app_nil_r. by destruct r.
  - simpl. rewrite IH. simpl. by rewrite <- !app_assoc.
Qed.

(** A scan whose patterns all compile returns, and returns what
    [scan_outcome] writes from the matched elements. *)
Lemma analyze_scan g req currentUrl ps now :
  requirements_of g = Some req ->
  Forall compiles (primary_elements req ++ secondary_elements req) ->
  analyze g currentUrl ps now
  = Returned (scan_outcome RegExp test URL_origin g req currentUrl ps now).
Proof.
  intros Hreq Hall. apply Forall_app in Hall as [Hp Hs].
  unfold analyzePageForPhishing, requirements_of in *. rewrite Hreq.
  rewrite (check_elements_returns ps _ _ _ 0 Hp). cbn [bind].
  rewrite (check_elements_returns ps _ _ _ 0 Hs). cbn [bind].
  rewrite !foldl_push_element.
  cbn -[number_of_nat weight_sum_from gte min_one div].
  rewrite <- weight_sum_from_app, <- fmap_app, length_fmap.
  unfold scan_outcome, candidate, weight_sum, count.
  destruct (_ && _ && _); [|done].
  by destruct (trusted g currentUrl).
Qed.

(** A scan that meets a pattern the engine rejects throws. *)
Lemma analyze_throws g req currentUrl ps now :
  requirements_of g = Some req ->
  Exists (fun e => pattern_compiles RegExp e = false)
    (primary_elements req ++ secondary_elements req) ->
  analyze g currentUrl ps now
  = Threw "SyntaxError" "Invalid regular expression".
Proof.
  intros Hreq Hex.
  unfold analyzePageForPhishing, requirements_of in *. rewrite Hreq.
  destruct (decide (Forall compiles (primary_elements req))) as [Hp|Hp].
  - rewrite (check_elements_returns ps _ _ _ 0 Hp). cbn [bind].
    apply Exists_app in Hex as [Hex|Hex].
    + exfalso. apply Exists_exists in Hex as (e & He & Hf).
      rewrite Forall_forall in Hp. specialize (Hp e He). simpl in Hp. congruence.
    + by rewrite (check_elements_throws ps _ _ _ _ Hex).
  - apply not_Forall_Exists in Hp; [|intros e; apply _].
    rewrite (check_elements_throws ps (primary_elements req)); [done|].
    eapply Exists_impl; [exact Hp|]. simpl. intros e He.
    by destruct (pattern_compiles RegExp e).
Qed.

(** Whatever is returned was scanned with patterns that all compile. *)
Lemma analyze_returned_compiles g req currentUrl ps now r :
  requirements_of g = Some req ->
  analyze g currentUrl ps now = Returned r ->
  Forall compiles (primary_elements req ++ secondary_elements req).
Proof.
  intros Hreq Hr.
  destruct (decide (Forall compiles
                      (primary_elements req ++ secondary_elements req)))
    as [H|H]; [done|].
  apply not_Forall_Exists in H; [|intros e; apply _].
  rewrite (analyze_throws g req) in Hr; [done|done|].
  eapply Exists_impl; [exact H|]. simpl. intros e He.
  by destruct (pattern_compiles RegExp e).
Qed.

Lemma scan_outcome_isPhishing g req currentUrl ps now :
  isPhishing (scan_outcome RegExp test URL_origin g req currentUrl ps now)
  = candidate RegExp test req ps && negb (trusted g currentUrl).
Proof.
  unfold scan_outcome.
  destruct (candidate RegExp test req ps); [|done].
  by destruct (trusted g currentUrl).
Qed.

Lemma candidate_spec req ps :
  candidate RegExp test req ps = true <->
  gte (count (matched ps (primary_elements req)))
    (minimum_primary_elements (detection_thresholds req)) = true
  /\ gte (weight_sum (matched ps (primary_elements req)
                        ++ matched ps (secondary_elements req)))
       (minimum_total_weight (detection_thresholds req)) = true
  /\ gte (count (matched ps (primary_elements req)
                   ++ matched ps (secondary_elements req)))
       (minimum_elements_overall (detection_thresholds req)) = true.
Proof. unfold candidate. rewrite !andb_true_iff. tauto. Qed.

(** Taking a matched element out of a rule list takes one out of the
    matched elements. *)
Lemma matched_delete ps l i e :
  l !! i = Some e -> hit ps e = true ->
  length (matched ps l) = S (length (matched ps (delete i l))).
Proof.
  intros Hi He.
  rewrite <- (take_drop_middle l i e Hi) at 1.
  rewrite delete_take_drop. unfold Content.matched.
  rewrite !filter_app, filter_cons_True by done.
  rewrite !length_app. simpl. lia.
Qed.

(** What the loop of matchesAnyPattern answers and what it warns
    about. *)
Lemma matchesAnyPattern_loop_spec u patterns : forall warned,
  let out := matchesAnyPattern_loop RegExp test u patterns warned in
  (fst out = true <->
   exists p re, p ∈ patterns /\ RegExp p "" = Some re /\ test re u = true)
  /\ (forall p, p ∈ snd out ->
        p ∈ warned \/ (p ∈ patterns /\ RegExp p "" = None))
  /\ (fst out = false ->
      snd out = warned ++ filter (fun p => RegExp p "" = None) patterns).
Proof.
  induction patterns as [|q l IH]; intros warned; simpl.
  - split; [|split].
    + split; [done|]. intros (p & re & Hp & _). by apply elem_of_nil in Hp.
    + intros p Hp. by left.
    + intros _. by rewrite app_nil_r.
  - destruct (RegExp q "") as [re|] eqn:Hq.
    + destruct (test re u) eqn:Ht; simpl.
      * split; [|split]; [|by left|done].
        split; [|done]. intros _. exists q, re. by rewrite elem_of_cons; auto.
      * destruct (IH warned) as (IH1 & IH2 & IH3). split; [|split].
        -- rewrite IH1. split.
           ++ intros (p & re' & Hp & Hc & Hm). exists p, re'.
              rewrite elem_of_cons. auto.
           ++ intros (p & re' & Hp & Hc & Hm).
              apply elem_of_cons in Hp as [->|Hp]; [congruence|].
              by exists p, re'.
        -- intros p Hp. destruct (IH2 p Hp) as [?|[? ?]]; [by left|right].
           rewrite elem_of_cons. auto.
        -- intros Hf. rewrite (IH3 Hf). f_equal.
           rewrite filter_cons_False; [done|]. by rewrite Hq.
    + destruct (IH (warned ++ [q])) as (IH1 & IH2 & IH3). split; [|split].
      * rewrite IH1. split.
        -- intros (p & re' & Hp & Hc & Hm). exists p, re'.
           rewrite elem_of_cons. auto.
        -- intros (p & re' & Hp & Hc & Hm).
           apply elem_of_cons in Hp as [->|Hp]; [congruence|].
           by exists p, re'.
      * intros p Hp. destruct (IH2 p Hp) as [Hw|[? ?]].
        -- apply elem_of_app in Hw as [?|Hw]; [by left|right].
           apply elem_of_cons in Hw as [->|Hw]; [|by apply elem_of_nil in Hw].
           rewrite elem_of_cons. auto.
        -- right. rewrite elem_of_cons. auto.
      * intros Hf. rewrite (IH3 Hf), <- app_assoc. f_equal.
        by rewrite filter_cons_True.
Qed.

Lemma trusted_with_elements g req primary secondary currentUrl :
  trusted (with_elements g req primary secondary) currentUrl
  = trusted g currentUrl.
Proof. done. Qed.

(** isTrustedLoginDomain answers true exactly when the address parses
    and its origin matches a trusted login pattern that compiles. *)
Lemma isTrustedLoginDomain_spec g u :
  trusted g u = true <-> origin_trusted RegExp test URL_origin g u.
Proof.
  unfold isTrustedLoginDomain, origin_trusted.
  destruct (URL_origin u) as [origin|].
  - destruct (matchesAnyPattern_loop_spec origin (trustedLoginPatterns g) [])
      as (H & _).
    unfold matchesAnyPattern. rewrite H. split.
    + intros (p & re & Hp & Hc & Hm). by exists origin, p, re.
    + intros (o & p & re & [= <-] & Hp & Hc & Hm). by exists p, re.
  - split; [done|]. by intros (? & ? & ? & ? & _).
Qed.

(** X25 (src/scripts/content.ts, analyzePageForPhishing): the scan
    returns a result flagged as phishing exactly when every pattern of the
    rule set compiles, the matched primary count, the matched weight and
    the matched overall count each reach their threshold (inclusive,
    compared as JavaScript numbers) and the origin matches no trusted login
    pattern.  When the patterns compile the result reports the matched
    ids, counts and weight.  At thresholds 2/5/3, on a page matching exactly
    two primary elements and one secondary element, taking any one matched
    element out of the rule set gives a result that is not flagged. *)
Theorem scan_flags_exactly_at_thresholds g req currentUrl ps now :
  requirements_of g = Some req ->
  let mp := matched ps (primary_elements req) in
  let ms := matched ps (secondary_elements req) in
  let t := detection_thresholds req in
  ((exists r, analyze g currentUrl ps now = Returned r /\ isPhishing r = true)
   <-> Forall compiles (primary_elements req ++ secondary_elements req)
       /\ gte (count mp) (minimum_primary_elements t) = true
       /\ gte (weight_sum (mp ++ ms)) (minimum_total_weight t) = true
       /\ gte (count (mp ++ ms)) (minimum_elements_overall t) = true
       /\ ~ origin_trusted RegExp test URL_origin g currentUrl)
  /\ (Forall compiles (primary_elements req ++ secondary_elements req) ->
      exists r,
        analyze g currentUrl ps now = Returned r
        /\ detectedElements r = id <$> (mp ++ ms)
        /\ primaryElementsCount r = count mp
        /\ secondaryElementsCount r = count ms
        /\ totalWeight r = weight_sum (mp ++ ms))
  /\ (Forall compiles (primary_elements req ++ secondary_elements req) ->
      t = {| minimum_primary_elements := 2; minimum_total_weight := 5;
             minimum_elements_overall := 3 |} ->
      length mp = 2%nat -> length ms = 1%nat ->
      (forall i e,
         primary_elements req !! i = Some e -> hit ps e = true ->
         exists r',
           analyze (with_elements g req (delete i (primary_elements req))
                      (secondary_elements req)) currentUrl ps now
           = Returned r'
           /\ isPhishing r' = false)
      /\ (forall i e,
            secondary_elements req !! i = Some e -> hit ps e = true ->
            exists r',
              analyze (with_elements g req (primary_elements req)
                         (delete i (secondary_elements req))) currentUrl ps now
              = Returned r'
              /\ isPhishing r' = false)).
Proof.
  intros Hreq mp ms t. split; [|split].
  - split.
    + intros (r & Hr & Hp).
      pose proof (analyze_returned_compiles g req currentUrl ps now r Hreq Hr)
        as Hall.
      rewrite (analyze_scan g req currentUrl ps now Hreq Hall) in Hr.
      injection Hr as <-.
      rewrite scan_outcome_isPhishing, andb_true_iff, negb_true_iff,
        candidate_spec in Hp.
      destruct Hp as ((? & ? & ?) & Hu). repeat split; try done.
      rewrite <- isTrustedLoginDomain_spec. by rewrite Hu.
    + intros (Hall & Hp & Hw & Ho & Hu). eexists.
      split; [by apply analyze_scan|].
      rewrite scan_outcome_isPhishing, andb_true_iff, negb_true_iff,
        candidate_spec.
      split; [done|]. apply not_true_is_false.
      by rewrite isTrustedLoginDomain_spec.
  - intros Hall. eexists. split; [by apply analyze_scan|].
    unfold scan_outcome. destruct (candidate _ _ _ _); [|done].
    by destruct (trusted g currentUrl).
  - intros Hall Ht Hmp Hms. apply Forall_app in Hall as [Hp Hs]. split.
    + intros i e Hi He. eexists. split.
      * apply analyze_scan; [done|]. simpl.
        apply Forall_app. split; [by apply Forall_delete|done].
      * rewrite scan_outcome_isPhishing. apply andb_false_iff. left.
        unfold candidate. simpl. fold t. rewrite Ht. simpl.
        pose proof (matched_delete ps _ i e Hi He) as Hd. fold mp in Hd.
        rewrite Hmp in Hd. injection Hd as Hd.
        unfold count. by rewrite <- Hd.
    + intros i e Hi He. eexists. split.
      * apply analyze_scan; [done|]. simpl.
        apply Forall_app. split; [done|by apply Forall_delete].
      * rewrite scan_outcome_isPhishing. apply andb_false_iff. left.
        unfold candidate. simpl. fold t. rewrite Ht. simpl.
        pose proof (matched_delete ps _ i e Hi He) as Hd. fold ms in Hd.
        rewrite Hms in Hd. injection Hd as Hd.
        unfold count. rewrite length_app. fold mp. rewrite Hmp, <- Hd.
        apply andb_false_iff. by right.
Qed.

Lemma scan_outcome_flagged g req currentUrl ps now :
  candidate RegExp test req ps = true ->
  trusted g currentUrl = false ->
  let mp := matched ps (primary_elements req) in
  let ms := matched ps (secondary_elements req) in
  scan_outcome RegExp test URL_origin g req currentUrl ps now
  = flag_phishing
      {| isPhishing := false; confidence := 0%float;
         detectedElements := id <$> (mp ++ ms);
         totalWeight := weight_sum (mp ++ ms);
         primaryElementsCount := count mp;
         secondaryElementsCount := count ms;
         reasons := []; appliedRules := id <$> (mp ++ ms);
         timestamp := now; url := currentUrl; severity := None |}
      (min_one (div (weight_sum (mp ++ ms))
                  (minimum_total_weight (detection_thresholds req)))).
Proof. intros Hc Hu. unfold scan_outcome. by rewrite Hc, Hu. Qed.

(** C2, as the code has it.  When the candidate test passes on an
    untrusted origin, the confidence is [Math.min(totalWeight /
    minimum_total_weight, 1)] on doubles, it is never above 1, and the
    severity is 'high' exactly when the confidence is above 0.8 and
    'medium' otherwise.  Whenever the quotient is 1 or more the confidence
    is exactly 1; below 1 it is the quotient itself; and it is NaN exactly
    when the quotient is. *)
Theorem confidence_is_clamped_ratio g req currentUrl ps now r :
  requirements_of g = Some req ->
  analyze g currentUrl ps now = Returned r ->
  candidate RegExp test req ps = true ->
  ~ origin_trusted RegExp test URL_origin g currentUrl ->
  let q :=
    (totalWeight r / minimum_total_weight (detection_thresholds req))%float in
  isPhishing r = true
  /\ confidence r = min_one q
  /\ (1 <? confidence r)%float = false
  /\ ((point_eight <? confidence r)%float = true -> severity r = Some "high")
  /\ ((point_eight <? confidence r)%float = false ->
      severity r = Some "medium")
  /\ ((1 <=? q)%float = true -> confidence r = 1%float)
  /\ ((q <? 1)%float = true -> confidence r = q)
  /\ PrimFloat.is_nan (confidence r) = PrimFloat.is_nan q.
Proof.
  intros Hreq Hr Hc Hno q.
  assert (Hu : trusted g currentUrl = false).
  { apply not_true_is_false. by rewrite isTrustedLoginDomain_spec. }
  pose proof (analyze_returned_compiles g req currentUrl ps now r Hreq Hr) as Hall.
  rewrite (analyze_scan g req currentUrl ps now Hreq Hall) in Hr.
  injection Hr as <-.
  subst q. rewrite (scan_outcome_flagged g req currentUrl ps now Hc Hu).
  cbn [isPhishing confidence totalWeight severity flag_phishing].
  split; [done|]. split; [done|].
  split; [apply NumberFacts.min_one_not_above_one|].
  split; [unfold gt; by intros ->|]. split; [unfold gt; by intros ->|].
  split; [apply NumberFacts.min_one_reached|].
  split; [apply NumberFacts.min_one_below|].
  apply NumberFacts.min_one_nan.
Qed.


(** C8, as the code has it.  The scan keeps no record of the ids it has
    seen: each entry of the two rule lists whose pattern matches adds its
    id and its weight once, in list order, so an id carried by several
    matching entries is reported and weighed once per entry.  Ids that are
    pairwise distinct in the rule lists are pairwise distinct in
    [detectedElements]. *)
Theorem each_entry_counted_once g req currentUrl ps now r :
  requirements_of g = Some req ->
  analyze g currentUrl ps now = Returned r ->
  let mp := matched ps (primary_elements req) in
  let ms := matched ps (secondary_elements req) in
  detectedElements r = id <$> (mp ++ ms)
  /\ totalWeight r = weight_sum (mp ++ ms)
  /\ (length (detectedElements r)
      <= length (primary_elements req ++ secondary_elements req))%nat
  /\ (NoDup (id <$> (primary_elements req ++ secondary_elements req)) ->
      NoDup (detectedElements r)).
Proof.
  intros Hreq Hr mp ms.
  pose proof (analyze_returned_compiles g req currentUrl ps now r Hreq Hr) as Hall.
  rewrite (analyze_scan g req currentUrl ps now Hreq Hall) in Hr.
  injection Hr as <-.
  assert (Hd : detectedElements
                 (scan_outcome RegExp test URL_origin g req currentUrl ps now)
               = id <$> (mp ++ ms)).
  { unfold scan_outcome. destruct (candidate _ _ _ _); [|done].
    by destruct (trusted g currentUrl). }
  assert (Hsub : (mp ++ ms) `sublist_of`
                 (primary_elements req ++ secondary_elements req)).
  { subst mp ms. unfold Content.matched. rewrite <- filter_app.
    apply sublist_filter. }
  split; [exact Hd|]. split.
  { unfold scan_outcome. destruct (candidate _ _ _ _); [|done].
    by destruct (trusted g currentUrl). }
  rewrite Hd. split.
  - rewrite length_fmap. by apply sublist_length.
  - intros Hnd. eapply sublist_NoDup; [exact Hnd|]. by apply fmap_sublist.
Qed.

(** The sibling loop: matchesAnyPattern guards the constructor, warns
    about a pattern that does not compile and goes on with the next. *)
Lemma matchesAnyPattern_loop_fst u l : forall w w',
  fst (matchesAnyPattern_loop RegExp test u l w)
  = fst (matchesAnyPattern_loop RegExp test u l w').
Proof.
  induction l as [|p l IH]; intros w w'; simpl; [done|].
  destruct (RegExp p ""); [|by apply IH].
  destruct (test _ u); [done|by apply IH].
Qed.

Lemma matchesAnyPattern_skips_invalid u p l1 l2 :
  RegExp p "" = None ->
  fst (matchesAnyPattern RegExp test u (l1 ++ p :: l2))
  = fst (matchesAnyPattern RegExp test u (l1 ++ l2)).
Proof.
  intros Hp. unfold matchesAnyPattern. generalize (@nil string).
  induction l1 as [|q l1 IH]; intros w; simpl.
  - rewrite Hp. apply matchesAnyPattern_loop_fst.
  - destruct (RegExp q ""); [|by apply IH].
    destruct (test _ u); [done|by apply IH].
Qed.

End Runtime.

End ContentFacts.

(* ===================================================================== *)
(** ** The rogue-app registry *)
(* ===================================================================== *)

Module RegistryFacts.

Import Background.

(** C9.  A refresh that fails on the network, on the timeout, on a
    non-2xx status, on a body that is no JSON or on a payload that is no
    array throws to its caller, and leaves the manager as it was: the
    table, [lastUpdate] and the persisted cache are untouched.
    forceUpdate hands the error back as [{success: false, error}]. *)
Theorem failed_refresh_keeps_table m f now :
  fails_early f ->
  exists name message,
    updateRogueApps m f now = (Threw name message, m)
    /\ rogueApps (snd (updateRogueApps m f now)) = rogueApps m
    /\ lastUpdate (snd (updateRogueApps m f now)) = lastUpdate m
    /\ forceUpdate m f now = (UpdateFailed message, m).
Proof.
  intros Hf.
  assert (H : exists name message,
             updateRogueApps m f now = (Threw name message, m)).
  { destruct f as [msg| |status text body]; simpl in *; eauto.
    destruct (ok status); simpl.
    - destruct Hf as [?|[->|(j & -> & Hj)]]; [done|eauto|].
      destruct j; eauto. by destruct (Hj items).
    - eauto. }
  destruct H as (name & message & H). exists name, message.
  unfold forceUpdate. by rewrite H.
Qed.

(** The table is replaced only once the whole payload went through. *)
Lemma refresh_replaces_table m status text apps table now :
  ok status = true ->
  populate apps [] = (Returned tt, table) ->
  updateRogueApps m (Response status text (Some (JArr apps))) now
  = (Returned tt,
     {| rogueApps := table; lastUpdate := now;
        initialized := initialized m; sourceUrl := sourceUrl m;
        rogue_apps_cache := Some (JArr apps, now) |}).
Proof. intros Hok Hp. simpl. by rewrite Hok, Hp. Qed.

(** Outside the five failures above: an array holding [null] makes the
    [forEach] callback throw after the table was cleared. *)
Lemma null_entry_clears_table :
  updateRogueApps Fixtures.known_apps
    (Response 200 "OK" (Some (JArr [JNull]))) 5000
  = (Threw "TypeError" "Cannot read properties of null",
     {| rogueApps := []; lastUpdate := 1000; initialized := true;
        sourceUrl := "https://example.org/rogueapps.json";
        rogue_apps_cache := None |}).
Proof. reflexivity. Qed.

Lemma failed_refresh_keeps_table_witness :
  fails_early (Response 503 "Service Unavailable" None)
  /\ fails_early (Response 200 "OK" (Some (JObj [])))
  /\ rogueApps (snd (updateRogueApps Fixtures.known_apps
                       (Response 200 "OK" (Some (JObj []))) 5000))
     = rogueApps Fixtures.known_apps
  /\ lastUpdate (snd (updateRogueApps Fixtures.known_apps
                        (Response 200 "OK" (Some (JObj []))) 5000))
     = 1000%Z.
Proof.
  assert (H : fails_early (Response 200 "OK" (Some (JObj [])))).
  { right. right. by eexists. }
  split; [by left|]. split; [exact H|].
  destruct (failed_refresh_keeps_table Fixtures.known_apps _ 5000 H)
    as (? & ? & _ & Ht & Hl & _).
  split; [exact Ht|exact Hl].
Defined.

End RegistryFacts.

(* ===================================================================== *)
(** ** The service worker *)
(* ===================================================================== *)

Module BackgroundFacts.

Import Background.

Section Runtime.

Variable URL_origin : string -> option string.

Local Abbreviation handleTabUpdate := (handleTabUpdate URL_origin).
Local Abbreviation verdictForUrl := (verdictForUrl URL_origin).
Local Abbreviation refreshPolicy := (refreshPolicy URL_origin).
Local Abbreviation initialize := (initialize URL_origin).
Local Abbreviation _doInitialize := (_doInitialize URL_origin).
Local Abbreviation handleMessage := (handleMessage URL_origin).
Local Abbreviation onAlarm := (onAlarm URL_origin).
Local Abbreviation onTimeout := (onTimeout URL_origin).
Local Abbreviation step := (step URL_origin).
Local Abbreviation run_events := (run_events URL_origin).
Local Abbreviation reachable := (reachable URL_origin).
Local Abbreviation after_init_attempt := (after_init_attempt URL_origin).

(** *** Closing a tab *)

Lemma onRemoved_session st tabId :
  session (chrome (onRemoved st tabId)) = session (chrome st).
Proof. done. Qed.

Lemma headers_get_delete tabId m :
  headers_get tabId (headers_delete tabId m) = None.
Proof.
  induction m as [|[k e] m IH]; [done|].
  unfold headers_delete in *. rewrite filter_cons. simpl.
  case_decide as Hk; [|done]. simpl.
  destruct (Z.eqb_spec k tabId); [done|exact IH].
Qed.

Lemma onRemoved_clears st tabId :
  headers_get tabId (tabHeaders (tabs (onRemoved st tabId))) = None
  /\ tabQueues (tabs (onRemoved st tabId)) !! tabId = None
  /\ tabDebounce (tabs (onRemoved st tabId)) !! tabId = None
  /\ (forall id, tabDebounce (tabs st) !! tabId = Some id ->
                 timeouts (chrome (onRemoved st tabId)) !! id = None).
Proof.
  unfold onRemoved. simpl. rewrite !lookup_delete_eq, headers_get_delete.
  repeat split. intros id ->. apply lookup_delete_eq.
Qed.

Lemma handleTabRemoved_session st tabId :
  session (chrome (BackgroundAlt.handleTabRemoved st tabId)) !! tabId = None.
Proof. unfold BackgroundAlt.handleTabRemoved. simpl. apply lookup_delete_eq. Qed.

(** *** The URL-based verdict *)

Lemma falsy_has_no_member v : truthy v = false -> truthy (get_opt v "has") = false.
Proof. by destruct v as [[| | | | |]|]. Qed.

Lemma verdictForUrl_throws st raw :
  has_member st = true ->
  verdictForUrl st raw = Threw "TypeError" "trustedOrigins.has is not a function".
Proof.
  unfold has_member, Background.verdictForUrl. intros H. rewrite H.
  destruct (truthy (get_opt (policy st) "trustedOrigins")) eqn:Hs; [done|].
  by rewrite (falsy_has_no_member _ Hs) in H.
Qed.

Lemma verdictForUrl_returns st raw :
  has_member st = false ->
  exists v, verdictForUrl st raw = Returned v
            /\ v ∈ ["trusted"; "trusted-extra"; "not-evaluated"].
Proof.
  unfold has_member, Background.verdictForUrl. intros H. rewrite H.
  destruct (truthy (get_opt (policy st) "trustedOrigins")).
  - case_bool_decide; eexists; (split; [done|]); repeat constructor.
  - repeat case_bool_decide; eexists; (split; [done|]); repeat constructor.
Qed.

Lemma urlOrigin_unparseable raw :
  URL_origin raw = None -> urlOrigin URL_origin raw = "".
Proof. unfold urlOrigin. by intros ->. Qed.

Lemma verdictForUrl_unparseable st raw :
  has_member st = false ->
  "" ∉ extraWhitelist st ->
  URL_origin raw = None ->
  verdictForUrl st raw = Returned "not-evaluated".
Proof.
  unfold has_member, Background.verdictForUrl. intros H Hw Hraw. rewrite H.
  rewrite (urlOrigin_unparseable raw Hraw).
  rewrite (bool_decide_eq_false_2 _ Hw).
  destruct (truthy (get_opt (policy st) "trustedOrigins")); [done|].
  rewrite bool_decide_eq_false_2; [done|].
  unfold default_trusted_origins. rewrite !elem_of_cons, elem_of_nil.
  by intros [?|[?|[?|?]]].
Qed.

(** refreshPolicy keeps the empty origin out of the extra whitelist. *)
Lemma refreshPolicy_whitelist st policyData :
  "" ∉ extraWhitelist (refreshPolicy st policyData).
Proof.
  unfold Background.refreshPolicy.
  destruct (whitelist_of _ _) as [w|] eqn:Hw; simpl; [|set_solver].
  unfold whitelist_of in Hw.
  destruct (truthy (get_opt _ "ExtraWhitelist")).
  - destruct (get_opt _ "ExtraWhitelist") as [[| | | |items|]|]; try done.
    injection Hw as <-. rewrite elem_of_list_to_set, list_elem_of_filter.
    by intros [? _].
  - injection Hw as <-. set_solver.
Qed.

Lemma refreshPolicy_rest st policyData :
  init (refreshPolicy st policyData) = init st
  /\ tabs (refreshPolicy st policyData) = tabs st
  /\ chrome (refreshPolicy st policyData) = chrome st
  /\ rogueAppsManager (refreshPolicy st policyData) = rogueAppsManager st.
Proof. unfold Background.refreshPolicy. by destruct (whitelist_of _ _). Qed.

(** *** What each handler leaves alone *)

Lemma doInitialize_frame st run now :
  session (chrome (snd (_doInitialize st run now))) = session (chrome st)
  /\ tabs (snd (_doInitialize st run now)) = tabs st
  /\ timeouts (chrome (snd (_doInitialize st run now))) = timeouts (chrome st)
  /\ (whitelist_ok st -> whitelist_ok (snd (_doInitialize st run now))).
Proof.
  destruct run as [message|policyData rogue]; cbn -[refreshPolicy Z.ltb Z.add].
  - destruct (_ <? _)%Z; by repeat split.
  - destruct (refreshPolicy_rest st policyData) as (_ & -> & -> & _).
    repeat split. intros _. apply refreshPolicy_whitelist.
Qed.

Lemma initialize_frame st run now :
  session (chrome (snd (initialize st run now))) = session (chrome st)
  /\ tabs (snd (initialize st run now)) = tabs st
  /\ timeouts (chrome (snd (initialize st run now))) = timeouts (chrome st)
  /\ (whitelist_ok st -> whitelist_ok (snd (initialize st run now))).
Proof.
  unfold Background.initialize.
  destruct (isInitialized (init st)); [done|].
  destruct (_ || _); [done|].
  apply (doInitialize_frame (with_init st _) run now).
Qed.

Lemma onAlarm_frame st name run now :
  session (chrome (onAlarm st name run now)) = session (chrome st)
  /\ tabs (onAlarm st name run now) = tabs st
  /\ timeouts (chrome (onAlarm st name run now)) = timeouts (chrome st)
  /\ (whitelist_ok st -> whitelist_ok (onAlarm st name run now)).
Proof.
  unfold Background.onAlarm. destruct (String.eqb name _); [|done].
  apply (initialize_frame (with_init st _) run now).
Qed.

(** handleTabUpdate either leaves the state alone or stores the URL-based
    verdict; it stores it only under the guard of the source. *)
Lemma handleTabUpdate_cases st tabId changeInfo tab latest read :
  handleTabUpdate st tabId changeInfo tab latest read = st
  \/ exists v,
       verdictForUrl st (default "" (tab_url tab)) = Returned v
       /\ handleTabUpdate st tabId changeInfo tab latest read
          = session_set st tabId
              {| verdict := v; url := tab_url tab; detail := [] |}
       /\ (read = false
           \/ is_truthy (verdict <$> session (chrome st) !! tabId) = false
           \/ verdict <$> session (chrome st) !! tabId = Some "not-evaluated"
           \/ (verdict <$> session (chrome st) !! tabId = Some "trusted"
               /\ v <> "trusted")).
Proof.
  unfold Background.handleTabUpdate.
  destruct (negb (isInitialized (init st))); [by left|].
  destruct latest as [latest|]; [|by left].
  destruct (negb (bool_decide _)); [by left|].
  destruct (_ && _); [|by left].
  destruct (Background.verdictForUrl _ _ _) as [v|]; [|by left].
  destruct (_ || _ || _) eqn:Hguard; [|by left].
  right. exists v. split; [done|]. split; [done|].
  destruct read; [right|by left].
  apply orb_true_iff in Hguard as [Hguard|Hguard].
  - apply orb_true_iff in Hguard as [Hguard|Hguard].
    + left. by apply negb_true_iff.
    + right. left. by apply bool_decide_eq_true in Hguard.
  - right. right. apply andb_true_iff in Hguard as [H1 H2].
    apply bool_decide_eq_true in H1. apply negb_true_iff in H2.
    split; [done|]. intros ->. by rewrite String.eqb_refl in H2.
Qed.

Lemma verdictForUrl_range st raw v :
  verdictForUrl st raw = Returned v ->
  v ∈ ["trusted"; "trusted-extra"; "not-evaluated"].
Proof.
  destruct (has_member st) eqn:Hm.
  - by rewrite (verdictForUrl_throws st raw Hm).
  - destruct (verdictForUrl_returns st raw Hm) as (v' & -> & Hv).
    by intros [= <-].
Qed.

Lemma handleTabUpdate_frame st tabId changeInfo tab latest read :
  let st' := handleTabUpdate st tabId changeInfo tab latest read in
  init st' = init st /\ tabs st' = tabs st /\ policy st' = policy st
  /\ extraWhitelist st' = extraWhitelist st
  /\ alarms (chrome st') = alarms (chrome st)
  /\ timeouts (chrome st') = timeouts (chrome st)
  /\ writes_at_most_one st st'.
Proof.
  destruct (handleTabUpdate_cases st tabId changeInfo tab latest read)
    as [->|(v & Hv & -> & _)]; simpl.
  - repeat split. by left.
  - repeat split. right. eexists _, _. split; [|done]. simpl.
    apply verdictForUrl_range in Hv.
    rewrite !elem_of_cons, elem_of_nil in Hv.
    destruct Hv as [->|[->|[->|[]]]]; repeat constructor.
Qed.

Lemma flag_frame st sender v d :
  v ∈ written_verdicts ->
  let st' := fst (flag st sender v d) in
  init st' = init st /\ tabs st' = tabs st /\ policy st' = policy st
  /\ extraWhitelist st' = extraWhitelist st
  /\ alarms (chrome st') = alarms (chrome st)
  /\ timeouts (chrome st') = timeouts (chrome st)
  /\ writes_at_most_one st st'.
Proof.
  intros Hv. unfold flag. destruct (sender_tab sender) as [t|]; simpl.
  - repeat split. right.
    exists (tab_id t), {| verdict := v; url := tab_url t; detail := d |}.
    split; [exact Hv|done].
  - repeat split. by left.
Qed.

Lemma after_init_attempt_frame st run now :
  let st' := after_init_attempt st run now in
  session (chrome st') = session (chrome st)
  /\ tabs st' = tabs st
  /\ timeouts (chrome st') = timeouts (chrome st)
  /\ (whitelist_ok st -> whitelist_ok st').
Proof.
  unfold after_init_attempt. destruct (negb _); [|done].
  apply initialize_frame.
Qed.

Lemma handleMessage_frame st msg sender run now :
  let st' := fst (handleMessage st msg sender run now) in
  (whitelist_ok st -> whitelist_ok st')
  /\ writes_at_most_one st st'.
Proof.
  destruct (after_init_attempt_frame st run now) as (Hs & _ & _ & Hw).
  assert (Hflag : forall v d, v ∈ written_verdicts ->
            let st' := fst (flag (after_init_attempt st run now) sender v d) in
            (whitelist_ok st -> whitelist_ok st')
            /\ writes_at_most_one st st').
  { intros v d Hv.
    destruct (flag_frame (after_init_attempt st run now) sender v d Hv)
      as (_ & _ & _ & Hw' & _ & _ & Hwr).
    cbv zeta. unfold whitelist_ok, writes_at_most_one in *.
    rewrite Hw'. rewrite <- Hs. by split. }
  assert (Hsame : (whitelist_ok st ->
                   whitelist_ok (after_init_attempt st run now))
                  /\ writes_at_most_one st (after_init_attempt st run now)).
  { split; [done|]. left. by rewrite Hs. }
  destruct msg; cbn [Background.handleMessage fst];
    fold (after_init_attempt st run now).
  - split; [done|by left].
  - apply Hflag. repeat constructor.
  - apply Hflag. repeat constructor.
  - apply Hflag. repeat constructor.
  - apply Hflag. repeat constructor.
  - apply Hflag. repeat constructor.
  - destruct (checkClientId _ _); simpl; try exact Hsame.
    destruct (sender_tab sender) as [t|]; simpl; [|exact Hsame].
    split; [done|]. right. eexists _, _. rewrite <- Hs.
    split; [|done]. simpl. repeat constructor.
  - destruct sender as [t|]; simpl; [|exact Hsame].
    destruct (headers_get _ _) as [data|]; simpl; [|exact Hsame].
    destruct (_ <? _)%Z; simpl; exact Hsame.
  - destruct throws as [error|]; simpl; [|exact Hsame].
    destruct (_ <? _)%Z; simpl.
    + match goal with
      | |- context [Background.initialize _ ?s _ _] =>
          destruct (initialize_frame s run now) as (Hs' & _ & _ & Hw')
      end.
      simpl in *. split.
      * intros H. apply Hw'. by apply Hw.
      * left. by rewrite Hs'.
    + exact Hsame.
Qed.

Lemma writes_at_most_one_refl st : writes_at_most_one st st.
Proof. by left. Qed.

Lemma step_frame st e :
  (whitelist_ok st -> whitelist_ok (step st e))
  /\ writes_at_most_one st (step st e).
Proof.
  destruct e as [run now|name run now|msg sender run now
                |tabId changeInfo tab|id latest read|tabId hs now|tabId];
    cbn [Background.step].
  - destruct (initialize_frame st run now) as (Hs & _ & _ & Hw).
    split; [done|by left].
  - destruct (onAlarm_frame st name run now) as (Hs & _ & _ & Hw).
    split; [done|by left].
  - apply handleMessage_frame.
  - destruct (_listenersReady (init st)); split; done || by left.
  - unfold Background.onTimeout.
    destruct (timeouts (chrome st) !! id) as [[[tabId changeInfo] tab]|];
      [|split; done || by left].
    unfold enqueue.
    match goal with
    | |- context [Background.handleTabUpdate _ ?s _ _ _ _ _] =>
        destruct (handleTabUpdate_frame s tabId changeInfo tab latest read)
          as (_ & _ & _ & Hw & _ & _ & Hwr)
    end.
    unfold whitelist_ok. rewrite Hw. split; [done|exact Hwr].
  - unfold onHeadersReceived.
    destruct (_listenersReady (init st)), (tabId <? 0)%Z, hs;
      split; done || by left.
  - destruct (_listenersReady (init st)); split; done || by left.
Qed.

Lemma step_invariants st e :
  whitelist_ok st /\ verdicts_ok st ->
  whitelist_ok (step st e) /\ verdicts_ok (step st e).
Proof.
  intros [Hw Hv]. destruct (step_frame st e) as [Hw' Hwr].
  split; [by apply Hw'|].
  destruct Hwr as [Hs|(tabId & entry & Hentry & Hs)];
    unfold verdicts_ok; rewrite Hs; [done|].
  intros tabId' entry'. rewrite lookup_insert. case_decide.
  - by intros [= <-].
  - apply Hv.
Qed.

Lemma run_events_invariants es : forall st,
  whitelist_ok st /\ verdicts_ok st ->
  whitelist_ok (run_events st es) /\ verdicts_ok (run_events st es).
Proof.
  induction es as [|e es IH]; intros st H; [done|].
  apply IH. by apply step_invariants.
Qed.

Lemma reachable_invariants st :
  reachable st -> whitelist_ok st /\ verdicts_ok st.
Proof.
  intros [es ->]. apply run_events_invariants. split.
  - unfold whitelist_ok. simpl. apply not_elem_of_empty.
  - intros tabId entry. simpl. by rewrite lookup_empty.
Qed.

(** X27 (src/scripts/background.ts, verdictForUrl, urlOrigin and
    refreshPolicy): in every state the service worker reaches,
    verdictForUrl returns one of 'trusted', 'trusted-extra' and
    'not-evaluated' for every string, and 'not-evaluated' for one that does
    not parse as a URL, provided the policy's [trustedOrigins] entry has no
    truthy [has] member; with such a member the call throws a TypeError. *)
Theorem verdictForUrl_total_without_has st raw :
  reachable st ->
  (has_member st = false ->
   exists v,
     verdictForUrl st raw = Returned v
     /\ v ∈ ["trusted"; "trusted-extra"; "not-evaluated"]
     /\ (URL_origin raw = None -> v = "not-evaluated"))
  /\ (has_member st = true ->
      verdictForUrl st raw
      = Threw "TypeError" "trustedOrigins.has is not a function").
Proof.
  intros Hst. destruct (reachable_invariants st Hst) as [Hw _].
  split; [|apply verdictForUrl_throws].
  intros Hm. destruct (verdictForUrl_returns st raw Hm) as (v & Hv & Hin).
  exists v. split; [done|]. split; [done|].
  intros Hraw. rewrite (verdictForUrl_unparseable st raw Hm Hw Hraw) in Hv.
  by injection Hv.
Qed.

(** *** Tab updates and the stored verdict *)



(** *** Retries and fallback mode *)

Lemma initialize_in_fallback st run now :
  in_fallback st -> fails_run run ->
  in_fallback (snd (initialize st run now))
  /\ alarms (chrome (snd (initialize st run now))) = alarms (chrome st).
Proof.
  intros Hst Hrun. destruct run as [message|]; [|done].
  destruct Hst as [Hi Hr].
  unfold Background.initialize. rewrite Hi.
  destruct (_ || _); [simpl; split; [by split|done]|].
  unfold in_fallback. cbn -[Z.add Z.ltb Z.mul].
  destruct (_ <? _)%Z eqn:Hlt; cbn -[Z.add Z.mul].
  - apply Z.ltb_lt in Hlt. lia.
  - split; [split; [done|lia]|done].
Qed.

Lemma initialize_retry_budget st run now :
  retry_budget st -> fails_run run ->
  retry_budget (snd (initialize st run now)).
Proof.
  intros (Hi & Hr & Ha) Hrun. destruct run as [message|]; [|done].
  unfold Background.initialize. rewrite Hi.
  destruct (_ || _); [simpl; split; [done|by split]|].
  unfold retry_budget. cbn -[Z.add Z.ltb Z.min Z.of_nat Z.mul Z.sub].
  destruct (_ <? _)%Z eqn:Hlt; cbn -[Z.add Z.min Z.of_nat Z.mul Z.sub].
  - apply Z.ltb_lt in Hlt. unfold maxInitializationRetries in *.
    rewrite length_app, Nat2Z.inj_add. simpl length. split; [done|]. lia.
  - apply Z.ltb_ge in Hlt. unfold maxInitializationRetries in *.
    split; [done|]. lia.
Qed.

(** The initialization fields with the retry flag or the error counters
    changed: neither enters the two invariants. *)
Lemma in_fallback_with_init st i :
  isInitialized i = false ->
  initializationRetries i = initializationRetries (init st) ->
  in_fallback st -> in_fallback (with_init st i).
Proof. unfold in_fallback. simpl. intros -> ->. tauto. Qed.

Lemma retry_budget_with_init st i :
  isInitialized i = false ->
  initializationRetries i = initializationRetries (init st) ->
  retry_budget st -> retry_budget (with_init st i).
Proof. unfold retry_budget. simpl. intros -> ->. tauto. Qed.

Lemma flag_init st sender v d :
  init (fst (flag st sender v d)) = init st
  /\ alarms (chrome (fst (flag st sender v d))) = alarms (chrome st).
Proof. unfold flag. by destruct (sender_tab sender). Qed.

Lemma handleTabUpdate_init st tabId changeInfo tab latest read :
  init (handleTabUpdate st tabId changeInfo tab latest read) = init st
  /\ alarms (chrome (handleTabUpdate st tabId changeInfo tab latest read))
     = alarms (chrome st).
Proof.
  by destruct (handleTabUpdate_frame st tabId changeInfo tab latest read)
    as (? & _ & _ & _ & ? & _).
Qed.

Lemma fails_message msg sender run now :
  fails (Message msg sender run now) -> fails_run run.
Proof. by destruct run. Qed.

Lemma step_in_fallback st e :
  in_fallback st -> fails e ->
  in_fallback (step st e)
  /\ alarms (chrome (step st e)) = alarms (chrome st).
Proof.
  intros Hst He.
  destruct e as [run now|name run now|msg sender run now
                |tabId changeInfo tab|id latest read|tabId hs now|tabId];
    cbn [Background.step].
  - apply initialize_in_fallback; [done|by destruct run].
  - unfold Background.onAlarm. destruct (String.eqb name _); [|done].
    match goal with
    | |- context [Background.initialize _ ?s _ _] =>
        destruct (initialize_in_fallback s run now) as [H1 H2];
        [by apply in_fallback_with_init; [apply Hst|..]|by destruct run|]
    end.
    split; [done|]. by rewrite H2.
  - apply fails_message in He.
    assert (Hpre : in_fallback (after_init_attempt st run now)
                   /\ alarms (chrome (after_init_attempt st run now))
                      = alarms (chrome st)).
    { unfold after_init_attempt. destruct (negb _); [|done].
      by apply initialize_in_fallback. }
    destruct Hpre as [Hfb Hal].
    destruct msg; cbn [Background.handleMessage fst];
      fold (after_init_attempt st run now); try done.
    all: try match goal with
         | |- context [flag ?s ?snd ?v ?d] =>
             destruct (flag_init s snd v d) as [Hfi Hfa];
             unfold in_fallback; rewrite Hfi, Hfa; by split
         end.
    + destruct (checkClientId _ _); simpl; try done.
      by destruct (sender_tab sender).
    + destruct sender as [t|]; simpl; [|done].
      destruct (headers_get _ _); simpl; [|done].
      by destruct (_ <? _)%Z.
    + destruct throws as [error|]; simpl; [|done].
      destruct (_ <? _)%Z; simpl.
      * match goal with
        | |- context [Background.initialize _ ?s _ _] =>
            destruct (initialize_in_fallback s run now) as [H1 H2];
            [by apply in_fallback_with_init|done|]
        end.
        split; [done|]. by rewrite H2.
      * split; [|done]. destruct Hfb as [Hi Hr].
        unfold in_fallback. simpl. by rewrite Hi.
  - by destruct (_listenersReady (init st)).
  - unfold Background.onTimeout.
    destruct (timeouts (chrome st) !! id) as [[[tabId changeInfo] tab]|];
      [|done].
    unfold enqueue.
    match goal with
    | |- context [Background.handleTabUpdate _ ?s _ _ _ _ _] =>
        destruct (handleTabUpdate_init s tabId changeInfo tab latest read)
          as [Hi Ha]
    end.
    unfold in_fallback. by rewrite Hi, Ha.
  - unfold onHeadersReceived.
    by destruct (_listenersReady (init st)), (tabId <? 0)%Z, hs.
  - by destruct (_listenersReady (init st)).
Qed.

Lemma step_retry_budget st e :
  retry_budget st -> fails e -> retry_budget (step st e).
Proof.
  intros Hst He.
  destruct e as [run now|name run now|msg sender run now
                |tabId changeInfo tab|id latest read|tabId hs now|tabId];
    cbn [Background.step].
  - apply initialize_retry_budget; [done|by destruct run].
  - unfold Background.onAlarm. destruct (String.eqb name _); [|done].
    apply initialize_retry_budget; [|by destruct run].
    by apply retry_budget_with_init; [apply Hst|..].
  - apply fails_message in He.
    assert (Hpre : retry_budget (after_init_attempt st run now)).
    { unfold after_init_attempt. destruct (negb _); [|done].
      by apply initialize_retry_budget. }
    destruct msg; cbn [Background.handleMessage fst];
      fold (after_init_attempt st run now); try done.
    all: try match goal with
         | |- context [flag ?s ?snd ?v ?d] =>
             destruct (flag_init s snd v d) as [Hfi Hfa];
             unfold retry_budget; by rewrite Hfi, Hfa
         end.
    + destruct (checkClientId _ _); simpl; try done.
      by destruct (sender_tab sender).
    + destruct sender as [t|]; simpl; [|done].
      destruct (headers_get _ _); simpl; [|done].
      by destruct (_ <? _)%Z.
    + destruct throws as [error|]; simpl; [|done].
      destruct (_ <? _)%Z; simpl.
      * apply initialize_retry_budget; [|done].
        by apply retry_budget_with_init.
      * by apply retry_budget_with_init; [apply Hpre|..].
  - by destruct (_listenersReady (init st)).
  - unfold Background.onTimeout.
    destruct (timeouts (chrome st) !! id) as [[[tabId changeInfo] tab]|];
      [|done].
    unfold enqueue.
    match goal with
    | |- context [Background.handleTabUpdate _ ?s _ _ _ _ _] =>
        destruct (handleTabUpdate_init s tabId changeInfo tab latest read)
          as [Hi Ha]
    end.
    unfold retry_budget. by rewrite Hi, Ha.
  - unfold onHeadersReceived.
    by destruct (_listenersReady (init st)), (tabId <? 0)%Z, hs.
  - by destruct (_listenersReady (init st)).
Qed.

Lemma run_retry_budget es : forall st,
  retry_budget st -> Forall fails es -> retry_budget (run_events st es).
Proof.
  induction es as [|e es IH]; intros st Hst Hes; [done|].
  inversion Hes; subst. apply IH; [by apply step_retry_budget|done].
Qed.

Lemma run_in_fallback es : forall st,
  in_fallback st -> Forall fails es ->
  in_fallback (run_events st es)
  /\ alarms (chrome (run_events st es)) = alarms (chrome st)
  /\ Forall (fun fallbackMode => fallbackMode = true)
       (ping_answers URL_origin st es).
Proof.
  induction es as [|e es IH]; intros st Hst Hes;
    [split; [done|split; [done|constructor]]|].
  inversion Hes as [|? ? He Hes']; subst.
  destruct (step_in_fallback st e Hst He) as [Hst' Ha].
  destruct (IH (step st e) Hst' Hes') as (H1 & H2 & H3).
  split; [done|]. split; [by rewrite <- Ha|].
  destruct e as [| |msg sender run now| | | |]; try exact H3.
  destruct msg; try exact H3.
  cbn [ping_answers Background.handleMessage snd]. constructor; [|exact H3].
  destruct Hst as [-> _]. done.
Qed.

(** C7, as the code has it.  After three failed initializations in a row
    the service worker is in fallback mode: not initialized, with the
    default policy.  Two retry alarms were created, 1000 ms and 2000 ms
    after the failures they follow.  From then on, for as long as no
    initialization run succeeds, no retry alarm is created and every ping
    is answered with [fallbackMode: true]; in every state the ping answers
    [fallbackMode = !initialized].  Under failing runs the service worker
    never creates more than two retry alarms at all. *)
Theorem three_failures_enter_fallback m1 m2 m3 t1 t2 t3 :
  let st := run_events initial (three_failures m1 m2 m3 t1 t2 t3) in
  isInitialized (init st) = false
  /\ policy st = Some getDefaultPolicy
  /\ alarms (chrome st)
     = [ ("check:init-retry", (t1 + 1000 * 1)%Z);
         ("check:init-retry", (t2 + 1000 * 2)%Z) ]
  /\ (forall es,
        Forall fails es ->
        isInitialized (init (run_events st es)) = false
        /\ alarms (chrome (run_events st es)) = alarms (chrome st)
        /\ Forall (fun fallbackMode => fallbackMode = true)
             (ping_answers URL_origin st es))
  /\ (forall st0 sender run now,
        handleMessage st0 ping sender run now
        = (st0, Some (PingResponse (isInitialized (init st0))
                        (negb (isInitialized (init st0)))
                        (errorCount (init st0)) (lastError (init st0)))))
  /\ (forall es,
        Forall fails es ->
        (length (retry_alarms (run_events initial es)) <= 2)%nat).
Proof.
  intros st.
  assert (Hfb : in_fallback st) by (split; [done|]; by vm_compute).
  split; [done|]. split; [done|]. split; [done|].
  split; [|split; [done|]].
  - intros es Hes. destruct (run_in_fallback es st Hfb Hes) as ([? _] & ? & ?).
    by repeat split.
  - intros es Hes.
    assert (H0 : retry_budget initial) by by repeat split.
    destruct (run_retry_budget es initial H0 Hes) as (_ & _ & Hlen).
    unfold retry_alarms. rewrite length_fmap.
    etrans; [apply length_filter|].
    unfold maxInitializationRetries in Hlen. lia.
Qed.

End Runtime.

End BackgroundFacts.

(* ===================================================================== *)
(** ** The service worker on concrete traces *)
(* ===================================================================== *)

Module BackgroundRuns.

Import Background Fixtures.

Local Abbreviation run_events := (run_events Lit.URL_origin).
Local Abbreviation step := (step Lit.URL_origin).
Local Abbreviation verdictForUrl := (verdictForUrl Lit.URL_origin).

Lemma flagged_tab7_session :
  session (chrome (run_events initial flagged_tab7)) !! 7%Z = Some phishy_entry.
Proof. cbn. apply lookup_insert_eq. Qed.


(** C5, at a tab whose page was flagged and whose session read fails.
    The content script of tab 7 has stored 'phishy'; the tab then reports
    'complete' for the same URL, and when the debounce timer runs
    handleTabUpdate the call [chrome.storage.session.get] rejects.  The
    safe wrapper turns the rejection into [undefined], the handler takes
    that for "no verdict stored" and writes the URL-based verdict
    'not-evaluated' over 'phishy'.  When the read resolves the entry is
    kept. *)
Theorem failed_read_overrides_verdict :
  session (chrome (run_events initial flagged_tab7)) !! 7%Z = Some phishy_entry
  /\ tab_url tab7 = url phishy_entry
  /\ session (chrome (run_events initial
                        (flagged_tab7
                         ++ [ TabUpdated 7 complete tab7;
                              TimerFired 1 (Some tab7) false ]))) !! 7%Z
     = Some {| verdict := "not-evaluated"; url := tab_url tab7; detail := [] |}
  /\ session (chrome (run_events initial
                        (flagged_tab7
                         ++ [ TabUpdated 7 complete tab7;
                              TimerFired 1 (Some tab7) true ]))) !! 7%Z
     = Some phishy_entry.
Proof.
  split; [exact flagged_tab7_session|]. split; [reflexivity|].
  split; vm_compute; reflexivity.
Qed.

(** C6, at a tab whose page was flagged and that has a debounce timer
    pending.  The tabs.onRemoved listener drops the tab's header cache,
    queue and debounce entries and cancels the timer, and leaves the
    verdict in session storage; handleTabRemoved of the other copy of the
    service worker removes it. *)
Theorem closed_tab_keeps_verdict :
  let st := run_events initial
              (flagged_tab7
               ++ [ HeadersReceived 7 (Some [("Server", Some "nginx")]) 20;
                    TabUpdated 7 complete tab7 ]) in
  let st' := step st (TabRemoved 7) in
  is_Some (headers_get 7 (tabHeaders (tabs st)))
  /\ tabDebounce (tabs st) !! 7%Z = Some 1%Z
  /\ is_Some (timeouts (chrome st) !! 1%Z)
  /\ headers_get 7 (tabHeaders (tabs st')) = None
  /\ tabQueues (tabs st') !! 7%Z = None
  /\ tabDebounce (tabs st') !! 7%Z = None
  /\ timeouts (chrome st') !! 1%Z = None
  /\ session (chrome st') !! 7%Z = Some phishy_entry
  /\ session (chrome (BackgroundAlt.handleTabRemoved st 7)) !! 7%Z = None.
Proof.
  cbn -[lookup insert delete empty collect_headers].
  rewrite !lookup_insert_eq, !lookup_delete_eq.
  repeat split; by eexists.
Qed.

Lemma later_success_leaves_fallback :
  ping_answers Lit.URL_origin
    (run_events initial (three_failures "e1" "e2" "e3" 0 2000 5000))
    [ Message (Other None) None (InitSucceeds None no_rogue_apps) 9000;
      Message ping None (InitFails "e4") 9001 ]
  = [false].
Proof. reflexivity. Qed.

Lemma three_failures_enter_fallback_witness :
  Forall fails
    [ Message ping None (InitFails "e4") 9000;
      Message (FLAG_PHISHY None) (Some tab7) (InitFails "e5") 9001;
      Message ping None (InitFails "e6") 9002 ]
  /\ Forall (fun fallbackMode => fallbackMode = true)
       (ping_answers Lit.URL_origin
          (run_events initial
             (three_failures "e1" "e2" "e3" 0 2000 5000))
          [ Message ping None (InitFails "e4") 9000;
            Message (FLAG_PHISHY None) (Some tab7) (InitFails "e5") 9001;
            Message ping None (InitFails "e6") 9002 ]).
Proof.
  assert (H : Forall fails
                [ Message ping None (InitFails "e4") 9000;
                  Message (FLAG_PHISHY None) (Some tab7) (InitFails "e5") 9001;
                  Message ping None (InitFails "e6") 9002 ])
    by (repeat constructor).
  split; [exact H|].
  destruct (BackgroundFacts.three_failures_enter_fallback Lit.URL_origin
              "e1" "e2" "e3" 0 2000 5000) as (_ & _ & _ & Hlater & _).
  by destruct (Hlater _ H) as (_ & _ & ?).
Defined.

(** C10, at a stored policy whose [trustedOrigins] entry is an object
    with a truthy [has] member.  The guard [trustedOrigins.has &&
    trustedOrigins.has(origin)] lets the call through and the call throws
    a TypeError, for a string that does not parse as a URL as for one that
    does: verdictForUrl returns none of its three verdicts.  Under the
    default policy the same strings get their verdicts. *)
Theorem stored_has_member_throws :
  policy (run_events initial
            [Loaded (InitSucceeds (Some odd_policy) no_rogue_apps) 0])
  = Some odd_policy
  /\ Lit.URL_origin "not a url" = None
  /\ verdictForUrl
       (run_events initial
          [Loaded (InitSucceeds (Some odd_policy) no_rogue_apps) 0])
       "not a url"
     = Threw "TypeError" "trustedOrigins.has is not a function"
  /\ verdictForUrl
       (run_events initial
          [Loaded (InitSucceeds (Some odd_policy) no_rogue_apps) 0])
       "https://login.microsoftonline.com/common"
     = Threw "TypeError" "trustedOrigins.has is not a function"
  /\ verdictForUrl
       (run_events initial [Loaded (InitSucceeds None no_rogue_apps) 0])
       "not a url"
     = Returned "not-evaluated"
  /\ verdictForUrl
       (run_events initial [Loaded (InitSucceeds None no_rogue_apps) 0])
       "https://login.microsoftonline.com/common"
     = Returned "trusted".
Proof. repeat split; reflexivity. Qed.

Lemma verdictForUrl_total_without_has_witness :
  has_member
    (run_events initial [Loaded (InitSucceeds None no_rogue_apps) 0]) = false
  /\ Lit.URL_origin "not a url" = None
  /\ verdictForUrl
       (run_events initial [Loaded (InitSucceeds None no_rogue_apps) 0])
       "not a url"
     = Returned "not-evaluated".
Proof.
  split; [reflexivity|]. split; [reflexivity|].
  destruct (BackgroundFacts.verdictForUrl_total_without_has Lit.URL_origin
              (run_events initial [Loaded (InitSucceeds None no_rogue_apps) 0])
              "not a url") as [Hret _].
  - by eexists.
  - destruct Hret as (v & Hv & _ & Hraw); [reflexivity|].
    rewrite Hv. f_equal. by apply Hraw.
Defined.

End BackgroundRuns.

(* ===================================================================== *)
(** ** The page scan on concrete pages *)
(* ===================================================================== *)

Module ContentRuns.

Import Content Fixtures.

(** C1, at a rule set whose last secondary pattern does not compile.  On
    the login page the two primary elements (weights 3 and 2) and the
    secondary element 'brand_name' (weight 1) match, so the matched primary
    count 2, the matched weight 6 and the matched overall count 3 reach the
    thresholds 2/5/3, and the origin matches no trusted login pattern; yet
    the scan sets no [isPhishing] at all: it throws on the pattern "(".
    Without that entry the same page is flagged. *)
Theorem thresholds_met_but_scan_throws :
  matched Lit.RegExp Lit.test login_page [password_field; sign_in_text]
  = [password_field; sign_in_text]
  /\ matched Lit.RegExp Lit.test login_page [brand_name; unbalanced]
     = [brand_name]
  /\ gte (count [password_field; sign_in_text]) 2 = true
  /\ gte (weight_sum [password_field; sign_in_text; brand_name]) 5 = true
  /\ gte (count [password_field; sign_in_text; brand_name]) 3 = true
  /\ ~ origin_trusted Lit.RegExp Lit.test Lit.URL_origin
         (globals [password_field; sign_in_text] [brand_name; unbalanced] 2 5 3)
         untrusted_url
  /\ scan (globals [password_field; sign_in_text] [brand_name; unbalanced] 2 5 3)
       untrusted_url login_page
     = Threw "SyntaxError" "Invalid regular expression"
  /\ (exists r,
        scan (globals [password_field; sign_in_text] [brand_name] 2 5 3)
          untrusted_url login_page = Returned r
        /\ isPhishing r = true).
Proof.
  split; [reflexivity|]. split; [reflexivity|]. split; [reflexivity|].
  split; [reflexivity|]. split; [reflexivity|]. split.
  { intros H.
    apply (ContentFacts.isTrustedLoginDomain_spec
             Lit.RegExp Lit.test Lit.URL_origin) in H.
    discriminate H. }
  split; [reflexivity|]. eexists. split; reflexivity.
Qed.

(** The address of the untrusted fixture is on no trusted login origin,
    whatever the rule elements. *)
Lemma untrusted_url_not_trusted primary secondary p w o :
  ~ origin_trusted Lit.RegExp Lit.test Lit.URL_origin
      (globals primary secondary p w o) untrusted_url.
Proof.
  intros H.
  apply (ContentFacts.isTrustedLoginDomain_spec
           Lit.RegExp Lit.test Lit.URL_origin) in H.
  discriminate H.
Qed.

Lemma scan_flags_exactly_at_thresholds_witness :
  requirements_of (globals [password_field; sign_in_text] [brand_name] 2 5 3)
  = Some (requirements [password_field; sign_in_text] [brand_name] 2 5 3)
  /\ (exists r,
        scan (globals [password_field; sign_in_text] [brand_name] 2 5 3)
          untrusted_url login_page = Returned r
        /\ isPhishing r = true)
  /\ (exists r,
        scan (globals [sign_in_text] [brand_name] 2 5 3)
          untrusted_url login_page = Returned r
        /\ isPhishing r = false).
Proof.
  split; [reflexivity|].
  destruct (ContentFacts.scan_flags_exactly_at_thresholds
              Lit.RegExp Lit.test Lit.URL_origin
              (globals [password_field; sign_in_text] [brand_name] 2 5 3)
              (requirements [password_field; sign_in_text] [brand_name] 2 5 3)
              untrusted_url login_page "2025-01-01T00:00:00.000Z" eq_refl)
    as (Hiff & _ & Hb).
  split.
  - apply Hiff. split; [repeat constructor|].
    split; [reflexivity|]. split; [reflexivity|]. split; [reflexivity|].
    intros H.
    apply (ContentFacts.isTrustedLoginDomain_spec
             Lit.RegExp Lit.test Lit.URL_origin) in H.
    discriminate H.
  - destruct Hb as [Hprimary _];
      [repeat constructor|reflexivity|reflexivity|reflexivity|].
    exact (Hprimary 0%nat password_field eq_refl eq_refl).
Defined.

Lemma zero_threshold_confidence_is_nan :
  exists r,
    scan (globals [] [] 0 0 0) untrusted_url blank_page = Returned r
    /\ isPhishing r = true
    /\ totalWeight r = (3 * 0)%float
    /\ confidence r = nan
    /\ confidence r <> 1%float
    /\ severity r = Some "medium".
Proof.
  eexists. split; [reflexivity|]. repeat split. simpl. intros H.
  assert (Hn : PrimFloat.is_nan nan = PrimFloat.is_nan 1) by by rewrite <- H.
  discriminate Hn.
Qed.

Lemma confidence_is_clamped_ratio_witness :
  exists r,
    requirements_of (globals [password_field; sign_in_text] [brand_name] 2 2 3)
    = Some (requirements [password_field; sign_in_text] [brand_name] 2 2 3)
    /\ scan (globals [password_field; sign_in_text] [brand_name] 2 2 3)
         untrusted_url login_page = Returned r
    /\ totalWeight r = (3 * 2)%float
    /\ confidence r = 1%float
    /\ severity r = Some "high".
Proof.
  eexists. split; [reflexivity|]. split; [reflexivity|]. split; [reflexivity|].
  destruct (ContentFacts.confidence_is_clamped_ratio
              Lit.RegExp Lit.test Lit.URL_origin
              (globals [password_field; sign_in_text] [brand_name] 2 2 3)
              (requirements [password_field; sign_in_text] [brand_name] 2 2 3)
              untrusted_url login_page "2025-01-01T00:00:00.000Z" _
              eq_refl eq_refl eq_refl
              (untrusted_url_not_trusted _ _ _ _ _))
    as (_ & _ & _ & Hhigh & _ & H1 & _).
  split; [apply H1; reflexivity|].
  apply Hhigh. reflexivity.
Defined.


(** C4, at a rule set with one pattern that does not compile.  The scan
    of analyzePageForPhishing throws instead of skipping the element, so no
    result is produced although the remaining elements alone flag the
    page; matchesAnyPattern, on the same kind of input, warns and goes
    on. *)
Theorem invalid_pattern_aborts_scan :
  scan (globals [password_field; unbalanced; sign_in_text] [brand_name] 2 5 3)
    untrusted_url login_page
  = Threw "SyntaxError" "Invalid regular expression"
  /\ (exists r,
        scan (globals [password_field; sign_in_text] [brand_name] 2 5 3)
          untrusted_url login_page = Returned r
        /\ isPhishing r = true)
  /\ matchesAnyPattern Lit.RegExp Lit.test "https://login.microsoftonline.com"
       ["("; "microsoftonline"]
     = (true, ["("]).
Proof.
  split; [reflexivity|]. split; [|reflexivity].
  eexists. split; reflexivity.
Qed.

Lemma duplicate_id_counted_twice :
  exists r,
    scan (globals [password_field] [password_field] 1 1 1)
      untrusted_url login_page = Returned r
    /\ detectedElements r = ["password_field"; "password_field"]
    /\ totalWeight r = (weight password_field + weight password_field)%float
    /\ totalWeight r = 6%float.
Proof. eexists. split; [reflexivity|]. repeat split. Qed.

(** Weights are doubles: past 2^53 the running total rounds, and the
    total reported is the one the loop has computed. *)
Lemma large_weights_round :
  exists r,
    scan (globals
            [ {| id := "a"; pattern := Some "password";
                 weight := 9007199254740992 |};
              {| id := "b"; pattern := Some "sign in"; weight := 1 |} ]
            [] 1 1 1)
      untrusted_url login_page = Returned r
    /\ detectedElements r = ["a"; "b"]
    /\ totalWeight r = 9007199254740992%float.
Proof. eexists. split; [reflexivity|]. split; reflexivity. Qed.

Lemma each_entry_counted_once_witness :
  exists r,
    scan (globals [password_field; sign_in_text] [brand_name] 2 5 3)
      untrusted_url login_page = Returned r
    /\ detectedElements r = ["password_field"; "sign_in_text"; "brand_name"]
    /\ totalWeight r = 6%float
    /\ NoDup (detectedElements r).
Proof.
  eexists. split; [reflexivity|].
  destruct (ContentFacts.each_entry_counted_once
              Lit.RegExp Lit.test Lit.URL_origin
              (globals [password_field; sign_in_text] [brand_name] 2 5 3)
              (requirements [password_field; sign_in_text] [brand_name] 2 5 3)
              untrusted_url login_page "2025-01-01T00:00:00.000Z" _
              eq_refl eq_refl)
    as (Hd & Hw & _ & Hnd).
  split; [exact Hd|]. split; [exact Hw|].
  apply Hnd. apply (bool_decide_unpack _). vm_compute. exact I.
Defined.

End ContentRuns.

(* ===================================================================== *)
(** ** The protection loop of the content script *)
(* ===================================================================== *)

Module ProtectionFacts.

Import Content Protection.

Section Runtime.

Context {regex : Type}.
Variable RegExp : string -> string -> option regex.
Variable test : regex -> string -> bool.
Variable URL_origin : string -> option string.

Local Abbreviation runProtection := (runProtection RegExp test URL_origin).
Local Abbreviation run_calls := (run_calls RegExp test URL_origin).
Local Abbreviation scans := (scans RegExp test URL_origin).
Local Abbreviation trusted := (isTrustedLoginDomain RegExp test URL_origin).
Local Abbreviation analyze := (analyzePageForPhishing RegExp test URL_origin).
Local Abbreviation trusted_throughout :=
  (trusted_throughout RegExp test URL_origin).

(** X1 (src/scripts/content.ts, matchesAnyPattern): the loop answers true
    exactly when one of the patterns compiles and matches the URL; every
    pattern it warns about is one of the list that does not compile; and
    when it answers false it has warned about each such pattern, in
    order. *)
Theorem matchesAnyPattern_finds_compiling_match u patterns :
  let out := matchesAnyPattern RegExp test u patterns in
  (fst out = true <->
   exists p re, p ∈ patterns /\ RegExp p "" = Some re /\ test re u = true)
  /\ (forall p, p ∈ snd out -> p ∈ patterns /\ RegExp p "" = None)
  /\ (fst out = false ->
      snd out = filter (fun p => RegExp p "" = None) patterns).
Proof.
  destruct (ContentFacts.matchesAnyPattern_loop_spec RegExp test u patterns [])
    as (H1 & H2 & H3).
  split; [exact H1|split; [|exact H3]].
  intros p Hp. destruct (H2 p Hp) as [Hn|?]; [|done].
  by apply elem_of_nil in Hn.
Qed.

(** One call either leaves the page as it is or is a scan: it counts,
    stamps the time, and the cooldown and the budget allowed it. *)
Lemma runProtection_cases p now loaded ps stamp :
  let p' := runProtection p now loaded ps stamp in
  p' = p
  \/ (scanCount p' = scanCount p + 1
      /\ lastScanTime p' = now
      /\ SCAN_COOLDOWN <= now - lastScanTime p
      /\ scanCount p < MAX_SCANS
      /\ showingBanner p' = showingBanner p)%Z.
Proof.
  unfold Protection.runProtection.
  destruct (href p) as [u|d]; [|by left].
  destruct (showingBanner p || includes u "blocked.html"); [by left|].
  destruct (now - lastScanTime p <? SCAN_COOLDOWN)%Z eqn:Hc; [by left|].
  destruct (MAX_SCANS <=? scanCount p)%Z eqn:Hm; [by left|].
  apply Z.ltb_ge in Hc. apply Z.leb_gt in Hm. simpl. right.
  destruct (match detectionRules (globals p) with
            | Some _ => Some (globals p)
            | None => loadDetectionRules (globals p) <$> loaded
            end) as [g|]; [|done].
  destruct (trusted g u); [done|].
  by destruct (analyze g u ps stamp).
Qed.

Lemma scan_budget_from calls : forall p,
  (0 <= scanCount p <= MAX_SCANS)%Z ->
  scanCount (run_calls p calls)
  = (scanCount p + Z.of_nat (length (scans p calls)))%Z
  /\ (scanCount (run_calls p calls) <= MAX_SCANS)%Z
  /\ spaced (lastScanTime p) (scans p calls).
Proof.
  induction calls as [|c calls IH]; intros p Hp; simpl.
  - split; [lia|]. split; [lia|done].
  - destruct (runProtection_cases p (call_time c) (call_loaded c)
                (call_source c) (call_stamp c))
      as [Heq|(Hn & Ht & Hc & Hm & _)].
    + rewrite Heq, Z.eqb_refl. by apply IH.
    + destruct (_ =? _)%Z eqn:He; [apply Z.eqb_eq in He; lia|].
      set (p' := runProtection p _ _ _ _) in *.
      destruct (IH p') as (IH1 & IH2 & IH3); [lia|].
      simpl. rewrite IH1, Hn, <- Ht.
      split; [lia|]. split; [lia|]. split; [|done]. lia.
Qed.

(** X2 (src/scripts/content.ts, runProtection): over any sequence of
    calls on a freshly loaded page, the scan counter equals the number of
    calls that went past the rate limit, it never exceeds MAX_SCANS = 5,
    and two consecutive scans are at least SCAN_COOLDOWN = 1200 ms
    apart. *)
Theorem scan_budget u calls :
  let p := run_calls (fresh u) calls in
  let ts := scans (fresh u) calls in
  scanCount p = Z.of_nat (length ts)
  /\ (length ts <= 5)%nat
  /\ spaced 0 ts.
Proof.
  destruct (scan_budget_from calls (fresh u)) as (H1 & H2 & H3).
  { unfold MAX_SCANS. simpl. lia. }
  simpl in *. split; [lia|]. split; [|done].
  unfold MAX_SCANS in H2. lia.
Qed.

(** X3 (src/scripts/content.ts, runProtection and blockCurrentPage): a
    call replaces the page by the blocked page only when, under the rules
    then in force, the address is on no trusted login origin and the
    analysis returned a result flagged as phishing; that result is the one
    recorded, and the blocked page is told the address, the matched
    elements and the time of that result, and its confidence as
    [JSON.stringify] serializes it: [null] for NaN or an infinity, the
    number otherwise. *)
Theorem block_needs_phishing_result p now loaded ps stamp u d :
  href p = At u ->
  href (runProtection p now loaded ps stamp) = Blocked d ->
  let p' := runProtection p now loaded ps stamp in
  trusted (globals p') u = false
  /\ exists r,
       analyze (globals p') u ps stamp = Returned r
       /\ isPhishing r = true
       /\ lastDetectionResult p' = Some r
       /\ d = {| blocked_url := u;
                 blocked_reason :=
                   "Potential Microsoft 365 phishing attempt detected";
                 blocked_elements := detectedElements r;
                 blocked_confidence := json_number (confidence r);
                 blocked_timestamp := timestamp r |}
       /\ (blocked_confidence d = None <->
           PrimFloat.is_nan (confidence r) = true
           \/ PrimFloat.is_infinity (confidence r) = true)
       /\ (PrimFloat.is_nan (confidence r) = false ->
           PrimFloat.is_infinity (confidence r) = false ->
           blocked_confidence d
           = Some (if (confidence r =? 0)%float then 0%float
                   else confidence r)).
Proof.
  intros Hu. unfold Protection.runProtection. rewrite Hu.
  destruct (showingBanner p || includes u "blocked.html");
    [by rewrite Hu|].
  destruct ((now - lastScanTime p <? SCAN_COOLDOWN)%Z
            || (MAX_SCANS <=? scanCount p)%Z); [by rewrite Hu|].
  destruct (match detectionRules (globals p) with
            | Some _ => Some (globals p)
            | None => loadDetectionRules (globals p) <$> loaded
            end) as [g|]; [|done].
  destruct (trusted g u) eqn:Ht; [done|].
  destruct (analyze g u ps stamp) as [r|] eqn:Hr; [|done].
  destruct (isPhishing r) eqn:Hp; [|done]. simpl.
  intros [= <-]. split; [done|]. exists r.
  repeat split; try done; cbn [blocked_confidence]; unfold json_number.
  - destruct (PrimFloat.is_nan (confidence r)); [by left|].
    destruct (PrimFloat.is_infinity (confidence r)); [by right|].
    simpl. by destruct (confidence r =? 0)%float.
  - intros [->| ->]; [done|]. by rewrite orb_true_r.
  - intros -> ->. simpl. by destruct (confidence r =? 0)%float.
Qed.

Lemma runProtection_trusted p c calls u :
  href p = At u ->
  trusted_throughout p (c :: calls) u ->
  let p' := runProtection p (call_time c) (call_loaded c) (call_source c)
              (call_stamp c) in
  href p' = At u
  /\ lastDetectionResult p' = lastDetectionResult p
  /\ trusted_throughout p' calls u.
Proof.
  intros Hu Ht. unfold Protection.runProtection. rewrite Hu.
  assert (trusted_throughout p calls u) as Hrest.
  { unfold Protection.trusted_throughout in *.
    destruct (detectionRules (globals p)); [done|].
    intros c' rules Hc'. apply Ht. rewrite elem_of_cons. auto. }
  destruct (showingBanner p || includes u "blocked.html"); [done|].
  destruct ((call_time c - lastScanTime p <? SCAN_COOLDOWN)%Z
            || (MAX_SCANS <=? scanCount p)%Z); [done|].
  unfold Protection.trusted_throughout in *.
  destruct (detectionRules (globals p)) as [rules|] eqn:Hd.
  - rewrite Ht. simpl. by rewrite Hd.
  - destruct (call_loaded c) as [rules|] eqn:Hl; simpl.
    + rewrite (Ht c rules); [|rewrite elem_of_cons; auto|done]. simpl.
      split; [done|]. split; [done|]. apply (Ht c rules); [|done].
      rewrite elem_of_cons. auto.
    + by rewrite Hd.
Qed.

(** X4 (src/scripts/content.ts, runProtection): a page whose address is on
    a trusted login origin under the rules in force is never analysed: no
    call blocks it or records a detection result, whatever its markup. *)
Theorem trusted_page_never_analysed calls : forall p u,
  href p = At u ->
  trusted_throughout p calls u ->
  href (run_calls p calls) = At u
  /\ lastDetectionResult (run_calls p calls) = lastDetectionResult p.
Proof.
  induction calls as [|c calls IH]; intros p u Hu Ht; simpl; [done|].
  destruct (runProtection_trusted p c calls u Hu Ht) as (H1 & H2 & H3).
  destruct (IH _ u H1 H3) as [IH1 IH2]. split; [done|]. by rewrite IH2.
Qed.

Lemma runProtection_broken p now loaded ps stamp u req :
  href p = At u ->
  requirements_of (globals p) = Some req ->
  Exists (fun e => pattern_compiles RegExp e = false)
    (primary_elements req ++ secondary_elements req) ->
  let p' := runProtection p now loaded ps stamp in
  href p' = At u
  /\ lastDetectionResult p' = lastDetectionResult p
  /\ globals p' = globals p.
Proof.
  intros Hu Hreq Hex. unfold Protection.runProtection. rewrite Hu.
  destruct (showingBanner p || includes u "blocked.html"); [done|].
  destruct ((now - lastScanTime p <? SCAN_COOLDOWN)%Z
            || (MAX_SCANS <=? scanCount p)%Z); [done|].
  assert (exists rules, detectionRules (globals p) = Some rules) as [rules Hd].
  { unfold requirements_of in Hreq.
    destruct (detectionRules (globals p)) as [rules|]; [by exists rules|done]. }
  rewrite Hd. destruct (trusted (globals p) u); [done|].
  by rewrite (ContentFacts.analyze_throws RegExp test URL_origin
                (globals p) req u ps stamp Hreq Hex).
Qed.

(** X5 (src/scripts/content.ts, runProtection): once rules are loaded in
    which one element pattern does not compile, the page is unprotected:
    every scan throws inside analyzePageForPhishing and is only logged, so
    no sequence of calls ever blocks the page or records a result. *)
Theorem broken_rules_disable_protection calls : forall p u req,
  href p = At u ->
  requirements_of (globals p) = Some req ->
  Exists (fun e => pattern_compiles RegExp e = false)
    (primary_elements req ++ secondary_elements req) ->
  href (run_calls p calls) = At u
  /\ lastDetectionResult (run_calls p calls) = lastDetectionResult p.
Proof.
  induction calls as [|c calls IH]; intros p u req Hu Hreq Hex; simpl; [done|].
  destruct (runProtection_broken p (call_time c) (call_loaded c)
              (call_source c) (call_stamp c) u req Hu Hreq Hex)
    as (H1 & H2 & H3).
  destruct (IH _ u req H1) as [IH1 IH2]; [by rewrite H3|done|].
  split; [done|]. by rewrite IH2.
Qed.

End Runtime.

End ProtectionFacts.

(* ===================================================================== *)
(** ** The service worker's caches, timers and counters *)
(* ===================================================================== *)

Module ServiceWorkerFacts.

Import Background.

Section Runtime.

Variable URL_origin : string -> option string.

Local Abbreviation handleTabUpdate := (handleTabUpdate URL_origin).
Local Abbreviation initialize := (initialize URL_origin).
Local Abbreviation _doInitialize := (_doInitialize URL_origin).
Local Abbreviation handleMessage := (handleMessage URL_origin).
Local Abbreviation onAlarm := (onAlarm URL_origin).
Local Abbreviation onTimeout := (onTimeout URL_origin).
Local Abbreviation step := (step URL_origin).
Local Abbreviation run_events := (run_events URL_origin).
Local Abbreviation after_init_attempt := (after_init_attempt URL_origin).

(** *** The header cache as a map *)

Lemma headers_get_set tabId e m :
  headers_get tabId (headers_set tabId e m) = Some e.
Proof.
  induction m as [|[k e'] m IH]; simpl.
  - by rewrite Z.eqb_refl.
  - destruct (k =? tabId)%Z eqn:Hk; simpl; by rewrite Hk.
Qed.

Lemma headers_get_set_ne tabId k e m :
  k <> tabId ->
  headers_get k (headers_set tabId e m) = headers_get k m.
Proof.
  intros Hne. induction m as [|[k' e'] m IH]; simpl.
  - destruct (Z.eqb_spec tabId k); [congruence|done].
  - destruct (Z.eqb_spec k' tabId) as [->|Hk]; simpl.
    + destruct (Z.eqb_spec tabId k); [congruence|done].
    + destruct (Z.eqb_spec k' k); [done|exact IH].
Qed.

Lemma headers_get_delete_ne tabId k m :
  k <> tabId ->
  headers_get k (headers_delete tabId m) = headers_get k m.
Proof.
  intros Hne. induction m as [|[k' e'] m IH]; [done|].
  unfold headers_delete in *. rewrite filter_cons. simpl.
  case_decide as Hk; simpl.
  - destruct (Z.eqb_spec k' k); [done|exact IH].
  - destruct (Z.eqb_spec k' k); [congruence|exact IH].
Qed.

Lemma headers_get_elem k m :
  headers_get k m = None <-> k ∉ m.*1.
Proof.
  induction m as [|[k' e'] m IH]; cbn [headers_get].
  - split; [intros _; apply not_elem_of_nil|done].
  - rewrite fmap_cons, not_elem_of_cons. cbn [fst].
    destruct (Z.eqb_spec k' k) as [->|Hk].
    + split; [done|]. by intros [? _].
    + rewrite IH. split; [by split|by intros [_ ?]].
Qed.

Lemma headers_set_keys tabId e m :
  (headers_set tabId e m).*1
  = if bool_decide (tabId ∈ m.*1) then m.*1 else m.*1 ++ [tabId].
Proof.
  induction m as [|[k e'] m IH]; [done|]. cbn [headers_set].
  destruct (Z.eqb_spec k tabId) as [->|Hk]; rewrite !fmap_cons; cbn [fst].
  - rewrite bool_decide_eq_true_2; [done|]. rewrite elem_of_cons. auto.
  - rewrite IH. destruct (bool_decide (tabId ∈ m.*1)) eqn:Hin.
    + apply bool_decide_eq_true in Hin.
      rewrite bool_decide_eq_true_2; [done|]. rewrite elem_of_cons. auto.
    + apply bool_decide_eq_false in Hin.
      rewrite bool_decide_eq_false_2; [done|].
      rewrite elem_of_cons. intros [?|?]; congruence.
Qed.

Lemma headers_set_length tabId e m :
  (length (headers_set tabId e m) <= S (length m))%nat.
Proof.
  rewrite <- (length_fmap fst (headers_set tabId e m)), headers_set_keys.
  destruct (bool_decide _); rewrite ?length_app, !length_fmap; simpl; lia.
Qed.

Lemma headers_set_NoDup tabId e m :
  NoDup m.*1 -> NoDup (headers_set tabId e m).*1.
Proof.
  intros Hnd. rewrite headers_set_keys.
  destruct (bool_decide (tabId ∈ m.*1)) eqn:Hin; [done|].
  apply bool_decide_eq_false in Hin.
  apply NoDup_app. split; [done|]. split.
  - intros x Hx Hx'. apply elem_of_cons in Hx' as [->|Hx']; [done|].
    by apply elem_of_nil in Hx'.
  - apply NoDup_singleton.
Qed.

Lemma headers_delete_keys tabId m :
  (headers_delete tabId m).*1 = filter (fun k => k <> tabId) m.*1.
Proof.
  induction m as [|[k e] m IH]; [done|].
  unfold headers_delete in *. rewrite fmap_cons, !filter_cons. cbn [fst].
  case_decide; rewrite ?fmap_cons; by rewrite IH.
Qed.

Lemma headers_delete_NoDup tabId m :
  NoDup m.*1 -> NoDup (headers_delete tabId m).*1.
Proof. rewrite headers_delete_keys. apply NoDup_filter. Qed.

Lemma headers_delete_length tabId m :
  (length (headers_delete tabId m) <= length m)%nat.
Proof. apply length_filter. Qed.

Lemma headers_delete_length_lt tabId m :
  tabId ∈ m.*1 ->
  (length (headers_delete tabId m) < length m)%nat.
Proof.
  induction m as [|[k e] m IH]; simpl.
  - intros H. by apply elem_of_nil in H.
  - intros H. unfold headers_delete in *. rewrite filter_cons. simpl.
    case_decide as Hk; simpl.
    + apply elem_of_cons in H as [->|H]; [done|]. specialize (IH H). lia.
    + pose proof (length_filter (fun ke : Z * HeaderEntry => ke.1 <> tabId) m).
      lia.
Qed.

(** *** The search for the oldest entry *)

Lemma oldest_from_spec m : forall best k t,
  oldest_from m best = Some (k, t) ->
  (best = Some (k, t) \/ exists e, (k, e) ∈ m /\ ts e = t)
  /\ (forall k' e', (k', e') ∈ m -> (t <= ts e')%Z)
  /\ (forall k0 t0, best = Some (k0, t0) -> (t <= t0)%Z).
Proof.
  induction m as [|[k1 e1] m IH]; intros best k t; simpl.
  - intros ->. split; [by left|]. split.
    + intros k' e' H. by apply elem_of_nil in H.
    + intros k0 t0 [= -> ->]. lia.
  - destruct best as [[k0 t0]|].
    + destruct (ts e1 <? t0)%Z eqn:Hlt.
      * intros H. apply IH in H as (Hin & Hmin & Hb).
        apply Z.ltb_lt in Hlt. specialize (Hb _ _ eq_refl). split; [|split].
        -- right. destruct Hin as [[= <- <-]|(e & He & <-)].
           ++ exists e1. rewrite elem_of_cons. auto.
           ++ exists e. rewrite elem_of_cons. auto.
        -- intros k' e' H'. apply elem_of_cons in H' as [[= -> ->]|H'];
             [done|by eapply Hmin].
        -- intros ? ? [= <- <-]. lia.
      * intros H. apply IH in H as (Hin & Hmin & Hb).
        apply Z.ltb_ge in Hlt. specialize (Hb _ _ eq_refl). split; [|split].
        -- destruct Hin as [?|(e & He & <-)]; [by left|right].
           exists e. rewrite elem_of_cons. auto.
        -- intros k' e' H'. apply elem_of_cons in H' as [[= -> ->]|H'];
             [lia|by eapply Hmin].
        -- intros ? ? [= <- <-]. done.
    + intros H. apply IH in H as (Hin & Hmin & Hb).
      specialize (Hb _ _ eq_refl). split; [|split; [|done]].
      * right. destruct Hin as [[= <- <-]|(e & He & <-)].
        -- exists e1. rewrite elem_of_cons. auto.
        -- exists e. rewrite elem_of_cons. auto.
      * intros k' e' H'. apply elem_of_cons in H' as [[= -> ->]|H'];
          [done|by eapply Hmin].
Qed.

Lemma oldest_from_is_Some m : forall b, is_Some (oldest_from m (Some b)).
Proof.
  induction m as [|[k e] m IH]; intros [k0 t0]; simpl; [done|].
  destruct (_ <? _)%Z; apply IH.
Qed.

Lemma oldest_from_nonempty m :
  m <> [] ->
  exists k e, oldest_from m None = Some (k, ts e) /\ (k, e) ∈ m
              /\ forall k' e', (k', e') ∈ m -> (ts e <= ts e')%Z.
Proof.
  intros Hne. destruct (oldest_from m None) as [[k t]|] eqn:Ho.
  - destruct (oldest_from_spec m None k t Ho) as ([?|(e & He & <-)] & Hmin & _);
      [done|]. by exists k, e.
  - destruct m as [|[k e] m]; [done|]. simpl in Ho.
    destruct (oldest_from_is_Some m (k, ts e)) as [? H]. congruence.
Qed.

(** *** What the handlers do to the initialization record *)

Lemma doInitialize_init st run now :
  let i' := init (snd (_doInitialize st run now)) in
  (errorCount i' = errorCount (init st) \/ errorCount i' = 0%Z)
  /\ (_listenersReady (init st) = true -> _listenersReady i' = true).
Proof.
  destruct run as [message|policyData rogue];
    cbn -[Background.refreshPolicy Z.ltb Z.add].
  - destruct (_ <? _)%Z; simpl; split; auto.
  - split; auto.
Qed.

Lemma initialize_init st run now :
  let i' := init (snd (initialize st run now)) in
  (errorCount i' = errorCount (init st) \/ errorCount i' = 0%Z)
  /\ (_listenersReady (init st) = true -> _listenersReady i' = true).
Proof.
  unfold Background.initialize.
  destruct (isInitialized (init st)); [by split; auto|].
  destruct (_ || _); [by split; auto|].
  match goal with
  | |- context [Background._doInitialize _ ?s _ _] =>
      destruct (doInitialize_init s run now) as [H1 H2]
  end.
  simpl in H1, H2. by split.
Qed.

Lemma onAlarm_init st name run now :
  let i' := init (onAlarm st name run now) in
  (errorCount i' = errorCount (init st) \/ errorCount i' = 0%Z)
  /\ (_listenersReady (init st) = true -> _listenersReady i' = true).
Proof.
  unfold Background.onAlarm. destruct (String.eqb _ _); [|by split; auto].
  match goal with
  | |- context [Background.initialize _ ?s _ _] =>
      destruct (initialize_init s run now) as [H1 H2]
  end.
  simpl in H1, H2. by split.
Qed.

Lemma after_init_attempt_init st run now :
  let i' := init (after_init_attempt st run now) in
  (errorCount i' = errorCount (init st) \/ errorCount i' = 0%Z)
  /\ (_listenersReady (init st) = true -> _listenersReady i' = true).
Proof.
  unfold Background.after_init_attempt. destruct (negb _); [|by split; auto].
  apply initialize_init.
Qed.

Lemma flag_rest st sender v d :
  let st' := fst (flag st sender v d) in
  init st' = init st /\ tabs st' = tabs st
  /\ timeouts (chrome st') = timeouts (chrome st).
Proof. unfold flag. by destruct (sender_tab sender). Qed.

(** What a message does to everything but the stored verdicts. *)
Lemma handleMessage_rest st msg sender run now :
  let st' := fst (handleMessage st msg sender run now) in
  (ServiceWorker.error_count_ok st -> ServiceWorker.error_count_ok st')
  /\ (_listenersReady (init st) = true -> _listenersReady (init st') = true)
  /\ tabQueues (tabs st') = tabQueues (tabs st)
  /\ tabDebounce (tabs st') = tabDebounce (tabs st)
  /\ timeouts (chrome st') = timeouts (chrome st)
  /\ (tabHeaders (tabs st') = tabHeaders (tabs st)
      \/ exists k, tabHeaders (tabs st')
                   = headers_delete k (tabHeaders (tabs st))).
Proof.
  unfold ServiceWorker.error_count_ok, maxErrors.
  destruct (after_init_attempt_init st run now) as (He & Hr).
  destruct (BackgroundFacts.after_init_attempt_frame URL_origin st run now)
    as (_ & Ht & Hto & _).
  assert (Hsame : forall st',
            init st' = init (after_init_attempt st run now) ->
            tabs st' = tabs (after_init_attempt st run now) ->
            timeouts (chrome st')
            = timeouts (chrome (after_init_attempt st run now)) ->
            ((0 <= errorCount (init st) <= 10)%Z ->
             (0 <= errorCount (init st') <= 10)%Z)
            /\ (_listenersReady (init st) = true ->
                _listenersReady (init st') = true)
            /\ tabQueues (tabs st') = tabQueues (tabs st)
            /\ tabDebounce (tabs st') = tabDebounce (tabs st)
            /\ timeouts (chrome st') = timeouts (chrome st)
            /\ (tabHeaders (tabs st') = tabHeaders (tabs st)
                \/ exists k, tabHeaders (tabs st')
                             = headers_delete k (tabHeaders (tabs st)))).
  { intros st' -> -> ->. rewrite Ht, Hto.
    split; [destruct He as [->| ->]; lia|]. split; [done|].
    split; [done|]. split; [done|]. split; [done|by left]. }
  assert (Hflag : forall v d,
            let st' := fst (flag (after_init_attempt st run now) sender v d) in
            ((0 <= errorCount (init st) <= 10)%Z ->
             (0 <= errorCount (init st') <= 10)%Z)
            /\ (_listenersReady (init st) = true ->
                _listenersReady (init st') = true)
            /\ tabQueues (tabs st') = tabQueues (tabs st)
            /\ tabDebounce (tabs st') = tabDebounce (tabs st)
            /\ timeouts (chrome st') = timeouts (chrome st)
            /\ (tabHeaders (tabs st') = tabHeaders (tabs st)
                \/ exists k, tabHeaders (tabs st')
                             = headers_delete k (tabHeaders (tabs st)))).
  { intros v d.
    destruct (flag_rest (after_init_attempt st run now) sender v d)
      as (? & ? & ?). by apply Hsame. }
  destruct msg; cbn [Background.handleMessage fst];
    fold (after_init_attempt st run now); try apply Hflag.
  - split; [done|]. split; [done|]. split; [done|]. split; [done|].
    split; [done|by left].
  - destruct (checkClientId _ _); simpl; try by apply Hsame.
    destruct (sender_tab sender) as [t|]; simpl; by apply Hsame.
  - destruct sender as [t|]; simpl; [|by apply Hsame].
    destruct (headers_get _ _) as [data|]; simpl; [|by apply Hsame].
    destruct (_ <? _)%Z; simpl; [|by apply Hsame].
    rewrite Ht, Hto. split; [destruct He as [->| ->]; lia|].
    split; [done|]. split; [done|]. split; [done|]. split; [done|].
    right. by exists (tab_id t).
  - destruct throws as [error|]; simpl; [|by apply Hsame].
    destruct (_ <? _)%Z eqn:Hmax; simpl.
    + match goal with
      | |- context [Background.initialize _ ?s _ _] =>
          destruct (initialize_init s run now) as (He' & Hr');
          destruct (BackgroundFacts.initialize_frame URL_origin s run now)
            as (_ & Ht' & Hto' & _)
      end.
      simpl in He', Hr', Ht', Hto'. rewrite Ht', Hto', Ht, Hto.
      split; [destruct He' as [->| ->]; lia|].
      split; [intros H; apply Hr'; by apply Hr|].
      split; [done|]. split; [done|]. split; [done|by left].
    + simpl. rewrite Ht, Hto. apply Z.ltb_ge in Hmax.
      unfold maxErrors in Hmax.
      split; [destruct He as [He|He]; rewrite He in Hmax |- *; lia|].
      split; [done|]. split; [done|]. split; [done|]. split; [done|by left].
Qed.

(** *** Invariants of the transitions *)

Lemma step_init st e :
  (ServiceWorker.error_count_ok st -> ServiceWorker.error_count_ok (step st e))
  /\ (_listenersReady (init st) = true ->
      _listenersReady (init (step st e)) = true).
Proof.
  unfold ServiceWorker.error_count_ok.
  destruct e as [run now|name run now|msg sender run now
                |tabId changeInfo tab|id latest read|tabId hs now|tabId];
    cbn [Background.step].
  - destruct (initialize_init st run now) as [[->| ->] Hr];
      (split; [unfold maxErrors; lia|done]).
  - destruct (onAlarm_init st name run now) as [[->| ->] Hr];
      (split; [unfold maxErrors; lia|done]).
  - destruct (handleMessage_rest st msg sender run now) as (He & Hr & _).
    by split.
  - destruct (_listenersReady (init st)) eqn:Hr; simpl; rewrite ?Hr; by split.
  - unfold Background.onTimeout.
    destruct (timeouts (chrome st) !! id) as [[[tabId changeInfo] tab]|];
      [|done].
    unfold enqueue.
    match goal with
    | |- context [Background.handleTabUpdate _ ?s _ _ _ _ _] =>
        destruct (BackgroundFacts.handleTabUpdate_frame URL_origin s tabId
                    changeInfo tab latest read) as (-> & _)
    end.
    done.
  - unfold onHeadersReceived.
    destruct (_listenersReady (init st)) eqn:Hr, (tabId <? 0)%Z, hs;
      simpl; rewrite ?Hr; by split.
  - destruct (_listenersReady (init st)) eqn:Hr; simpl; rewrite ?Hr; by split.
Qed.

Lemma onHeadersReceived_cache st tabId hs now :
  ServiceWorker.header_cache_ok st ->
  ServiceWorker.header_cache_ok (onHeadersReceived st tabId hs now).
Proof.
  unfold ServiceWorker.header_cache_ok, onHeadersReceived.
  intros [Hlen Hnd].
  destruct (tabId <? 0)%Z; [done|]. destruct hs as [hs|]; [|done].
  cbn [tabs with_tabs tabHeaders].
  set (cache := tabHeaders (tabs st)) in *.
  destruct (MAX_HEADER_CACHE_ENTRIES <=? length cache)%nat eqn:Hfull.
  - apply Nat.leb_le in Hfull.
    destruct (oldest_from_nonempty cache) as (k & e & -> & Hin & _).
    { intros Hc. rewrite Hc in Hfull. unfold MAX_HEADER_CACHE_ENTRIES in Hfull.
      simpl in Hfull. lia. }
    split.
    + pose proof (headers_set_length tabId
                    {| headers := collect_headers hs; ts := now |}
                    (headers_delete k cache)).
      assert (length (headers_delete k cache) < length cache)%nat as Hlt.
      { apply headers_delete_length_lt.
        by apply (list_elem_of_fmap_2 fst cache (k, e)). }
      lia.
    + by apply headers_set_NoDup, headers_delete_NoDup.
  - apply Nat.leb_gt in Hfull. split.
    + pose proof (headers_set_length tabId
                    {| headers := collect_headers hs; ts := now |} cache).
      lia.
    + by apply headers_set_NoDup.
Qed.

Lemma step_header_cache st e :
  ServiceWorker.header_cache_ok st ->
  ServiceWorker.header_cache_ok (step st e).
Proof.
  intros Hok.
  destruct e as [run now|name run now|msg sender run now
                |tabId changeInfo tab|id latest read|tabId hs now|tabId];
    cbn [Background.step].
  - destruct (BackgroundFacts.initialize_frame URL_origin st run now)
      as (_ & Ht & _).
    unfold ServiceWorker.header_cache_ok. by rewrite Ht.
  - destruct (BackgroundFacts.onAlarm_frame URL_origin st name run now)
      as (_ & Ht & _).
    unfold ServiceWorker.header_cache_ok. by rewrite Ht.
  - destruct (handleMessage_rest st msg sender run now)
      as (_ & _ & _ & _ & _ & [Hh|[k Hh]]);
      unfold ServiceWorker.header_cache_ok; rewrite Hh; [done|].
    destruct Hok as [Hlen Hnd]. split.
    + pose proof (headers_delete_length k (tabHeaders (tabs st))). lia.
    + by apply headers_delete_NoDup.
  - by destruct (_listenersReady (init st)).
  - unfold Background.onTimeout.
    destruct (timeouts (chrome st) !! id) as [[[tabId changeInfo] tab]|];
      [|done].
    unfold enqueue.
    match goal with
    | |- context [Background.handleTabUpdate _ ?s _ _ _ _ _] =>
        destruct (BackgroundFacts.handleTabUpdate_frame URL_origin s tabId
                    changeInfo tab latest read) as (_ & Ht & _)
    end.
    unfold ServiceWorker.header_cache_ok. by rewrite Ht.
  - destruct (_listenersReady (init st)); [|done].
    by apply onHeadersReceived_cache.
  - destruct (_listenersReady (init st)); [|done].
    destruct Hok as [Hlen Hnd]. split; simpl.
    + pose proof (headers_delete_length tabId (tabHeaders (tabs st))). lia.
    + by apply headers_delete_NoDup.
Qed.

Lemma debouncePerTab_timers st tabId changeInfo tab :
  ServiceWorker.timers_ok st ->
  _listenersReady (init st) = true ->
  ServiceWorker.timers_ok (debouncePerTab st tabId changeInfo tab).
Proof.
  intros [Ht _] Hready. split; [|simpl; congruence].
  simpl. intros id' tabId' ci' tab'. rewrite lookup_insert.
  case_decide as Hid.
  - intros [= <- <- <-]. subst id'. by rewrite lookup_insert_eq.
  - intros Hl.
    assert (timeouts (chrome st) !! id' = Some (tabId', ci', tab')
            /\ tabDebounce (tabs st) !! tabId <> Some id') as [Hl' Hold].
    { destruct (tabDebounce (tabs st) !! tabId) as [old|]; [|done].
      apply lookup_delete_Some in Hl as [Hne Hl]. split; [done|congruence]. }
    specialize (Ht _ _ _ _ Hl').
    rewrite lookup_insert_ne; [done|]. intros <-. congruence.
Qed.

Lemma onRemoved_timers st tabId :
  ServiceWorker.timers_ok st ->
  ServiceWorker.timers_ok (onRemoved st tabId).
Proof.
  intros [Ht Hempty]. split; simpl.
  - intros id' tabId' ci' tab' Hl.
    assert (timeouts (chrome st) !! id' = Some (tabId', ci', tab')
            /\ tabDebounce (tabs st) !! tabId <> Some id') as [Hl' Hold].
    { destruct (tabDebounce (tabs st) !! tabId) as [old|]; [|done].
      apply lookup_delete_Some in Hl as [Hne Hl]. split; [done|congruence]. }
    specialize (Ht _ _ _ _ Hl').
    rewrite lookup_delete_ne; [done|]. intros <-. congruence.
  - intros Hr. rewrite (Hempty Hr).
    destruct (tabDebounce (tabs st) !! tabId); [apply delete_empty|done].
Qed.

Lemma step_timers st e :
  ServiceWorker.timers_ok st -> ServiceWorker.timers_ok (step st e).
Proof.
  intros Hok. pose proof (step_init st e) as [_ Hmono].
  assert (Hsame : forall st',
            tabDebounce (tabs st') = tabDebounce (tabs st) ->
            timeouts (chrome st') = timeouts (chrome st) ->
            (_listenersReady (init st) = true ->
             _listenersReady (init st') = true) ->
            ServiceWorker.timers_ok st').
  { intros st' Hd Hto Hm. destruct Hok as [Ht Hempty].
    unfold ServiceWorker.timers_ok. rewrite Hd, Hto. split; [done|].
    intros Hr. apply Hempty.
    destruct (_listenersReady (init st)); [|done]. by rewrite Hm in Hr. }
  destruct e as [run now|name run now|msg sender run now
                |tabId changeInfo tab|id latest read|tabId hs now|tabId];
    cbn [Background.step] in *.
  - destruct (BackgroundFacts.initialize_frame URL_origin st run now)
      as (_ & Ht & Hto & _).
    apply Hsame; [by rewrite Ht|done|done].
  - destruct (BackgroundFacts.onAlarm_frame URL_origin st name run now)
      as (_ & Ht & Hto & _).
    apply Hsame; [by rewrite Ht|done|done].
  - destruct (handleMessage_rest st msg sender run now)
      as (_ & _ & _ & Hd & Hto & _).
    by apply Hsame.
  - destruct (_listenersReady (init st)) eqn:Hr; [|done].
    by apply debouncePerTab_timers.
  - unfold Background.onTimeout in *.
    destruct (timeouts (chrome st) !! id) as [[[tabId changeInfo] tab]|]
      eqn:Hid; [|done].
    unfold enqueue in *.
    match goal with
    | |- context [Background.handleTabUpdate _ ?s _ _ _ _ _] =>
        destruct (BackgroundFacts.handleTabUpdate_frame URL_origin s tabId
                    changeInfo tab latest read) as (Hi & Ht & _ & _ & _ & Hto & _)
    end.
    destruct Hok as [Hok Hempty].
    unfold ServiceWorker.timers_ok. rewrite Hi, Ht, Hto. simpl. split.
    + intros id' tabId' ci' tab' Hl.
      apply lookup_delete_Some in Hl as [_ Hl]. by eapply Hok.
    + intros Hr. rewrite (Hempty Hr). apply delete_empty.
  - apply Hsame; [| |done]; unfold onHeadersReceived;
      by destruct (_listenersReady (init st)), (tabId <? 0)%Z, hs.
  - destruct (_listenersReady (init st)) eqn:Hr; [|done].
    by apply onRemoved_timers.
Qed.

Lemma run_events_preserves (P : State -> Prop) :
  (forall st e, P st -> P (step st e)) ->
  forall es st, P st -> P (run_events st es).
Proof.
  intros Hstep es. induction es as [|e es IH]; intros st H; [done|].
  apply IH. by apply Hstep.
Qed.

(** X6 (src/scripts/background.ts, the onHeadersReceived listener and the
    handlers that delete from [tabHeaders]): however the events arrive,
    the header cache never holds more than MAX_HEADER_CACHE_ENTRIES = 100
    tabs, and no tab twice. *)
Theorem header_cache_bounded es :
  (length (tabHeaders (tabs (run_events initial es))) <= 100)%nat
  /\ NoDup (tabHeaders (tabs (run_events initial es))).*1.
Proof.
  apply (run_events_preserves ServiceWorker.header_cache_ok
           step_header_cache es initial).
  split; simpl; [lia|constructor].
Qed.

(** X7 (src/scripts/background.ts, the outer catch of handleMessage): the
    error counter stays between 0 and maxErrors = 10 in every state the
    service worker reaches: the error that would make it 11 resets it to 0
    and starts a re-initialization. *)
Theorem error_count_bounded es :
  (0 <= errorCount (init (run_events initial es)) <= 10)%Z.
Proof.
  apply (run_events_preserves ServiceWorker.error_count_ok
           (fun st e => proj1 (step_init st e)) es initial).
  unfold ServiceWorker.error_count_ok, maxErrors. simpl. lia.
Qed.

(** X8 (src/scripts/background.ts, debouncePerTab with the onUpdated and
    onRemoved listeners): in every state the service worker reaches, a
    pending debounce timer is the one recorded for its tab in
    [tabDebounce]; so a tab never has two pending timers, and
    handleTabUpdate runs once per burst of updates. *)
Theorem one_pending_timer_per_tab es id1 id2 tabId c1 c2 t1 t2 :
  timeouts (chrome (run_events initial es)) !! id1 = Some (tabId, c1, t1) ->
  timeouts (chrome (run_events initial es)) !! id2 = Some (tabId, c2, t2) ->
  tabDebounce (tabs (run_events initial es)) !! tabId = Some id1
  /\ id1 = id2.
Proof.
  intros H1 H2.
  destruct (run_events_preserves ServiceWorker.timers_ok step_timers es initial)
    as [Hok _].
  { split; [|done]. simpl. intros ? ? ? ?. by rewrite lookup_empty. }
  pose proof (Hok _ _ _ _ H1) as E1. pose proof (Hok _ _ _ _ H2) as E2.
  split; [done|congruence].
Qed.

(** X9 (src/scripts/background.ts, the onRemoved listener): when a tab is
    closed, the update that was waiting in its debounce timer is
    cancelled: no pending timer belongs to the closed tab afterwards. *)
Theorem closed_tab_has_no_pending_update es tabId id changeInfo tab :
  timeouts (chrome (step (run_events initial es) (TabRemoved tabId))) !! id
  <> Some (tabId, changeInfo, tab).
Proof.
  destruct (run_events_preserves ServiceWorker.timers_ok step_timers
              (es ++ [TabRemoved tabId]) initial) as [Hok _].
  { split; [|done]. simpl. intros ? ? ? ?. by rewrite lookup_empty. }
  unfold Background.run_events in Hok. rewrite foldl_app in Hok. simpl in Hok.
  fold (run_events initial es) in Hok.
  intros Hl. specialize (Hok _ _ _ _ Hl). revert Hok Hl.
  set (st := run_events initial es). cbn [Background.step].
  pose proof (run_events_preserves ServiceWorker.timers_ok step_timers
                es initial) as Hst.
  destruct (_listenersReady (init st)) eqn:Hr.
  - simpl. by rewrite lookup_delete_eq.
  - intros _. destruct Hst as [_ Hempty].
    { split; [|done]. simpl. intros ? ? ? ?. by rewrite lookup_empty. }
    fold st in Hempty. by rewrite (Hempty Hr), lookup_empty.
Qed.

(** *** The header cache, read back *)

Lemma collect_headers_snoc hs h :
  collect_headers (hs ++ [h])
  = if String.eqb (toLowerCase (fst h)) "__proto__" then collect_headers hs
    else <[toLowerCase (fst h) := default "" (snd h)]> (collect_headers hs).
Proof. unfold collect_headers. by rewrite foldl_app. Qed.

Lemma collect_headers_lookup hs n :
  collect_headers hs !! n
  = if String.eqb n "__proto__" then None else last_header n hs.
Proof.
  induction hs as [|h hs IH] using rev_ind.
  - change (collect_headers []) with (∅ : gmap string string).
    rewrite lookup_empty. by destruct (String.eqb _ _).
  - rewrite collect_headers_snoc. unfold last_header in *.
    rewrite filter_app.
    destruct (decide (toLowerCase (fst h) = n)) as [<-|Hne].
    + rewrite filter_cons_True by done. rewrite filter_nil, last_snoc.
      destruct (String.eqb _ _) eqn:Hp; [done|by rewrite lookup_insert_eq].
    + rewrite filter_cons_False by done. rewrite filter_nil, app_nil_r.
      destruct (String.eqb (toLowerCase (fst h)) _); [done|].
      by rewrite lookup_insert_ne.
Qed.

(** X10 (src/scripts/background.ts, the onHeadersReceived listener and the
    GET_PAGE_HEADERS case of handleMessage): the headers captured for a
    tab are what GET_PAGE_HEADERS answers to that tab for as long as they
    are no older than HEADER_CACHE_TTL (five minutes); asked later, it
    answers with no headers and drops the entry.  What is captured is,
    under each lower-cased name other than '__proto__', the value of the
    last header of that name ('' when it has none), and nothing under
    '__proto__'. *)
Theorem captured_headers_round_trip st t hs now run now' :
  (0 <= tab_id t)%Z ->
  let st1 := onHeadersReceived st (tab_id t) (Some hs) now in
  let out := handleMessage st1 GET_PAGE_HEADERS (Some t) run now' in
  snd out
  = Some (PageHeaders (if (5 * 60 * 1000 <? now' - now)%Z then ∅
                       else collect_headers hs))
  /\ ((5 * 60 * 1000 < now' - now)%Z ->
      headers_get (tab_id t) (tabHeaders (tabs (fst out))) = None)
  /\ collect_headers hs !! "__proto__" = None
  /\ (forall n, n <> "__proto__" ->
        collect_headers hs !! n = last_header n hs).
Proof.
  intros Hid st1 out.
  assert (Hcollect :
    collect_headers hs !! "__proto__" = None
    /\ (forall n, n <> "__proto__" ->
          collect_headers hs !! n = last_header n hs)).
  { split; [by rewrite collect_headers_lookup|].
    intros n Hn. rewrite collect_headers_lookup.
    destruct (String.eqb_spec n "__proto__"); done. }
  rewrite (and_assoc _ _ (_ /\ _)). split; [|exact Hcollect].
  subst out. cbn [Background.handleMessage].
  fold (after_init_attempt st1 run now').
  destruct (BackgroundFacts.after_init_attempt_frame URL_origin st1 run now')
    as (_ & Ht & _).
  cbv zeta in Ht. rewrite Ht. subst st1. unfold onHeadersReceived.
  destruct (Z.ltb_spec (tab_id t) 0); [lia|].
  cbn [tabs with_tabs tabHeaders]. rewrite headers_get_set. cbn [ts headers].
  change HEADER_CACHE_TTL with (5 * 60 * 1000)%Z.
  destruct (5 * 60 * 1000 <? now' - now)%Z eqn:Hold; cbn [fst snd].
  - split; [done|]. intros _. cbn [tabs with_tabs tabHeaders].
    apply BackgroundFacts.headers_get_delete.
  - split; [done|]. apply Z.ltb_ge in Hold. lia.
Qed.

(** X11 (src/scripts/background.ts, the onHeadersReceived listener): when
    the cache is full, capturing a response first evicts an entry whose
    timestamp is the smallest of the cache; unless the evicted tab is the
    one the response belongs to, its headers are gone afterwards, and the
    entries of all other tabs are kept. *)
Theorem full_cache_evicts_oldest st tabId hs now :
  (0 <= tabId)%Z ->
  (100 <= length (tabHeaders (tabs st)))%nat ->
  let cache' :=
    tabHeaders (tabs (onHeadersReceived st tabId (Some hs) now)) in
  exists k e,
    (k, e) ∈ tabHeaders (tabs st)
    /\ (forall k' e', (k', e') ∈ tabHeaders (tabs st) -> (ts e <= ts e')%Z)
    /\ (k <> tabId -> headers_get k cache' = None)
    /\ (forall k', k' <> k -> k' <> tabId ->
          headers_get k' cache' = headers_get k' (tabHeaders (tabs st))).
Proof.
  intros Hid Hfull. unfold onHeadersReceived.
  destruct (Z.ltb_spec tabId 0); [lia|].
  cbn [tabs with_tabs tabHeaders].
  set (cache := tabHeaders (tabs st)) in *.
  destruct (MAX_HEADER_CACHE_ENTRIES <=? length cache)%nat eqn:Hm.
  2:{ apply Nat.leb_gt in Hm. unfold MAX_HEADER_CACHE_ENTRIES in Hm. lia. }
  destruct (oldest_from_nonempty cache) as (k & e & -> & Hin & Hmin).
  { intros Hc. rewrite Hc in Hfull. simpl in Hfull. lia. }
  exists k, e. split; [done|]. split; [done|]. split.
  - intros Hne. rewrite headers_get_set_ne; [|done].
    apply BackgroundFacts.headers_get_delete.
  - intros k' Hk Hk'. rewrite headers_get_set_ne; [|done].
    by apply headers_get_delete_ne.
Qed.

(** *** The stored verdicts *)

Lemma flag_session st sender v d :
  session (chrome (fst (flag st sender v d))) = session (chrome st)
  \/ exists t entry,
       sender_tab sender = Some t
       /\ session (chrome (fst (flag st sender v d)))
          = <[tab_id t := entry]> (session (chrome st)).
Proof.
  unfold flag. destruct (sender_tab sender) as [t|]; [|by left].
  right. by eexists t, _.
Qed.

Lemma handleMessage_session st msg sender run now :
  let st' := fst (handleMessage st msg sender run now) in
  session (chrome st') = session (chrome st)
  \/ exists t entry,
       sender_tab sender = Some t
       /\ session (chrome st') = <[tab_id t := entry]> (session (chrome st)).
Proof.
  destruct (BackgroundFacts.after_init_attempt_frame URL_origin st run now)
    as (Hs & _).
  cbv zeta in Hs.
  destruct msg; cbn [Background.handleMessage fst];
    fold (after_init_attempt st run now);
    try (rewrite <- Hs; apply flag_session).
  - by left.
  - destruct (checkClientId _ _); simpl; try by left.
    destruct (sender_tab sender) as [t|]; simpl; [|by left].
    right. rewrite <- Hs. by eexists t, _.
  - destruct sender as [t|]; simpl; [|by left].
    destruct (headers_get _ _) as [data|]; simpl; [|by left].
    destruct (_ <? _)%Z; simpl; by left.
  - destruct throws as [error|]; simpl; [|by left].
    destruct (_ <? _)%Z; simpl; [|by left].
    match goal with
    | |- context [Background.initialize _ ?s _ _] =>
        destruct (BackgroundFacts.initialize_frame URL_origin s run now)
          as (Hs' & _)
    end.
    left. by rewrite Hs'.
Qed.

(** X12 (src/scripts/background.ts, handleMessage): whatever the message,
    the only stored verdict it can change is that of the tab it was sent
    from; a message from a sender without a tab (or with tab id 0) changes
    no verdict at all. *)
Theorem message_writes_only_sender_tab st msg sender run now tabId :
  (forall t, sender_tab sender = Some t -> tab_id t <> tabId) ->
  session (chrome (fst (handleMessage st msg sender run now))) !! tabId
  = session (chrome st) !! tabId.
Proof.
  intros Hother.
  destruct (handleMessage_session st msg sender run now)
    as [->|(t & entry & Ht & ->)]; [done|].
  rewrite lookup_insert_ne; [done|]. by apply Hother.
Qed.

(** X13 (src/scripts/background.ts, handleTabUpdate and the FLAG_*,
    UPDATE_VERDICT_TO_SAFE and CHECK_ROGUE_APP cases of handleMessage):
    every verdict found in session storage, in any state the service
    worker reaches, is one of the seven strings the code writes. *)
Theorem stored_verdicts_are_known es tabId entry :
  session (chrome (run_events initial es)) !! tabId = Some entry ->
  verdict entry ∈ ["trusted"; "trusted-extra"; "not-evaluated"; "phishy";
                   "ms-login-unknown"; "rogue-app"; "safe"].
Proof.
  destruct (BackgroundFacts.run_events_invariants URL_origin es initial)
    as [_ Hv].
  { split; [unfold whitelist_ok; simpl; set_solver|].
    intros ? ?. simpl. by rewrite lookup_empty. }
  apply Hv.
Qed.

(** *** The registry of rogue applications *)

Lemma same_key_eq a b : same_key a b = true -> a = b.
Proof.
  destruct a, b; simpl; try done.
  - destruct b, b0; simpl; congruence.
  - intros H. apply Z.eqb_eq in H. congruence.
  - intros H. apply String.eqb_eq in H. congruence.
Qed.

Lemma same_key_str c k : same_key (JStr c) k = true <-> k = JStr c.
Proof.
  split.
  - intros H. by apply same_key_eq in H.
  - intros ->. simpl. apply String.eqb_refl.
Qed.

Lemma map_get_set c k v m :
  map_get (JStr c) (map_set k v m)
  = if same_key (JStr c) k then Some v else map_get (JStr c) m.
Proof.
  induction m as [|[k' v'] m IH]; cbn -[same_key].
  - by destruct (same_key (JStr c) k).
  - destruct (same_key k k') eqn:Hk; cbn -[same_key].
    + apply same_key_eq in Hk as <-.
      by destruct (same_key (JStr c) k).
    + destruct (same_key (JStr c) k') eqn:Hc; [|exact IH].
      apply same_key_str in Hc as ->.
      destruct (same_key (JStr c) k) eqn:Hc'; [|done].
      apply same_key_str in Hc' as ->. simpl in Hk.
      by rewrite String.eqb_refl in Hk.
Qed.

Lemma last_cons_filter {A} (P : A -> Prop) `{!forall x, Decision (P x)}
    (x : A) (l : list A) :
  last (filter P (x :: l))
  = match last (filter P l) with
    | Some y => Some y
    | None => if decide (P x) then Some x else None
    end.
Proof.
  rewrite filter_cons. destruct (decide (P x)); [|by destruct (last _)].
  destruct (filter P l) as [|y l'] eqn:Hf; [done|].
  rewrite last_cons. by destruct (last (y :: l')).
Qed.

Lemma populate_lookup c apps : forall table table',
  c <> "" ->
  populate apps table = (Returned tt, table') ->
  map_get (JStr c) table'
  = match ServiceWorker.listed c apps with
    | Some app => Some app
    | None => map_get (JStr c) table
    end.
Proof.
  unfold ServiceWorker.listed.
  induction apps as [|app apps IH]; intros table table' Hc; simpl.
  - by intros [= <-].
  - rewrite last_cons_filter.
    destruct (get app "appId") as [appId|] eqn:Hget; [|done].
    assert (ServiceWorker.has_id c app
            = match appId with
              | Some (JStr s) => String.eqb s c
              | _ => false
              end) as Hh.
    { unfold ServiceWorker.has_id, ServiceWorker.app_id. by rewrite Hget. }
    destruct (truthy appId) eqn:Htr.
    + intros H. rewrite (IH _ _ Hc H).
      destruct (last _); [done|]. rewrite map_get_set.
      destruct appId as [k|]; [|done]. cbn [default from_option id].
      destruct k; cbn [same_key];
        try (rewrite decide_False; [done|by rewrite Hh]).
      rewrite (String.eqb_sym c s). destruct (String.eqb s c) eqn:E.
      * rewrite decide_True; [done|by rewrite Hh].
      * rewrite decide_False; [done|]. by rewrite Hh.
    + intros H. rewrite (IH _ _ Hc H).
      destruct (last _); [done|].
      rewrite decide_False; [done|]. rewrite Hh.
      destruct appId as [[| | |s| |]|]; try done. simpl in Htr.
      apply negb_false_iff, String.eqb_eq in Htr as ->.
      apply String.eqb_neq in Hc. rewrite String.eqb_sym in Hc.
      by rewrite Hc.
Qed.

Lemma listed_is_object c apps app :
  ServiceWorker.listed c apps = Some app -> exists ms, app = JObj ms.
Proof.
  unfold ServiceWorker.listed. intros H. apply last_Some in H as [l' H].
  assert (app ∈ filter (fun app => ServiceWorker.has_id c app = true) apps)
    as Hin.
  { rewrite H. apply elem_of_app. right. constructor. }
  apply list_elem_of_filter in Hin as [Hid _].
  unfold ServiceWorker.has_id, ServiceWorker.app_id in Hid.
  destruct app; simpl in Hid; try done. by eexists.
Qed.

(** X14 (src/scripts/background.ts, RogueAppsManager.updateRogueApps and
    checkClientId): after a refresh that succeeds, an initialized manager
    reports a non-empty client id as rogue exactly when the fetched list
    has an entry with that appId; where several entries carry the id, the
    last one gives the name and the risk. *)
Theorem refreshed_registry_lookup m status text apps now m' clientId :
  updateRogueApps m (Response status text (Some (JArr apps))) now
  = (Returned tt, m') ->
  initialized m = true ->
  clientId <> "" ->
  checkClientId m' clientId
  = match ServiceWorker.listed clientId apps with
    | Some app =>
        IsRogue (get_opt (Some app) "displayName") (calculateRiskLevel app)
    | None => NotRogue
    end.
Proof.
  intros Hup Hinit Hc. unfold updateRogueApps in Hup.
  destruct (negb (ok status)); [done|].
  destruct (populate apps []) as [[[]|] table] eqn:Hpop; [|done].
  injection Hup as <-. unfold checkClientId. cbn [initialized rogueApps].
  rewrite Hinit. apply String.eqb_neq in Hc as Hc'. rewrite Hc'. simpl.
  rewrite (populate_lookup clientId apps [] table Hc Hpop).
  destruct (ServiceWorker.listed clientId apps) as [app|] eqn:Hl; [|done].
  destruct (listed_is_object _ _ _ Hl) as [ms ->]. done.
Qed.

(** *** The extra whitelist *)

(** X15 (src/scripts/background.ts, refreshPolicy, urlOrigin and
    verdictForUrl): with a loaded policy that lists origins under
    ExtraWhitelist (and stores no trustedOrigins), a URL gets the verdict
    'trusted-extra' exactly when its lower-cased origin is not one of the
    three Microsoft login origins and is the origin of one of the listed
    entries; an unparseable entry whitelists nothing. *)
Theorem extra_whitelist_decides_trusted_extra st fields items raw :
  assoc "ExtraWhitelist" fields = Some (JArr items) ->
  truthy (assoc "trustedOrigins" fields) = false ->
  Background.verdictForUrl URL_origin
    (Background.refreshPolicy URL_origin st (Some (JObj fields))) raw
  = Returned "trusted-extra"
  <-> (urlOrigin URL_origin raw ∉ default_trusted_origins)
      /\ urlOrigin URL_origin raw <> ""
      /\ exists item, item ∈ items
           /\ urlOrigin URL_origin (ToString item) = urlOrigin URL_origin raw.
Proof.
  intros Hw Ht.
  unfold Background.refreshPolicy, whitelist_of. cbn [truthy get_opt].
  rewrite Hw. cbn [truthy].
  unfold Background.verdictForUrl. cbn [policy with_policy extraWhitelist get_opt].
  rewrite Ht.
  set (origin := urlOrigin URL_origin raw).
  destruct (bool_decide (origin ∈ default_trusted_origins)) eqn:Hd.
  - apply bool_decide_eq_true in Hd. split; [done|]. by intros [? _].
  - apply bool_decide_eq_false in Hd.
    destruct (bool_decide (origin ∈ _)) eqn:Hin.
    + apply bool_decide_eq_true in Hin.
      apply elem_of_list_to_set, list_elem_of_filter in Hin as [Hne Hin].
      apply list_elem_of_In, in_map_iff in Hin as (item & Hitem & Hin).
      split; [intros _|done]. split; [done|]. split; [done|].
      exists item. by rewrite list_elem_of_In.
    + apply bool_decide_eq_false in Hin. split; [done|].
      intros (_ & Hne & item & Hitem & Ho). exfalso. apply Hin.
      apply elem_of_list_to_set, list_elem_of_filter. split; [done|].
      apply list_elem_of_In, in_map_iff. exists item.
      by rewrite <- list_elem_of_In.
Qed.

End Runtime.

End ServiceWorkerFacts.

(* ===================================================================== *)
(** ** The persisted caches *)
(* ===================================================================== *)

Module CacheFacts.

Import Background.

(** X16 (src/scripts/background.ts, RogueAppsManager.updateRogueApps and
    loadFromCache): what a successful refresh persists is what a service
    worker started later loads back: within the cache duration the table
    and the refresh time are restored as they were; once the entry is
    older than the cache duration nothing is loaded. *)
Theorem registry_cache_round_trip m status text body now m' duration later :
  updateRogueApps m (Response status text body) now = (Returned tt, m') ->
  now <> 0%Z ->
  let m2 :=
    ServiceWorker.loadFromCache (ServiceWorker.restarted m')
      (rogue_apps_cache m') duration later in
  ((later - now <= duration)%Z ->
   rogueApps m2 = rogueApps m' /\ lastUpdate m2 = now)
  /\ ((duration < later - now)%Z ->
      rogueApps m2 = [] /\ lastUpdate m2 = 0%Z).
Proof.
  intros Hup Hnow. unfold updateRogueApps in Hup.
  destruct (negb (ok status)); [done|].
  destruct body as [[| | | |apps|]|]; try done.
  destruct (populate apps []) as [[[]|] table] eqn:Hpop; [|done].
  injection Hup as <-. cbn [rogue_apps_cache ServiceWorker.loadFromCache truthy].
  apply Z.eqb_neq in Hnow. rewrite Hnow. cbn [negb andb].
  destruct (duration <? later - now)%Z eqn:Hd.
  - apply Z.ltb_lt in Hd. split; [lia|done].
  - apply Z.ltb_ge in Hd. split; [|lia]. intros _. simpl. by rewrite Hpop.
Qed.

Import RulesManager.

(** X17 (src/modules/detection-rules-manager.ts, fetchDetectionRules and
    saveToCache): when the remote rules cannot be used (no remote URL, the
    remote URL is the bundled one, or the remote fetch fails in any way),
    the bundled rules are fetched instead; if they arrive they are
    returned and cached, with the remote URL recorded as their source; if
    that fetch fails too, its error is thrown and the manager is left as
    it was. *)
Theorem rules_fetch_falls_back m remote bundled now :
  (remoteUrl m = "" \/ remoteUrl m = fallbackUrl m
   \/ exists n msg, rules_of remote = Threw n msg) ->
  (forall rules, rules_of bundled = Returned rules ->
     exists m',
       fetchDetectionRules m remote bundled now true = (Returned rules, m')
       /\ cachedRules m' = rules /\ RulesManager.lastUpdate m' = now
       /\ detection_rules_cache m'
          = Some {| rules := rules; cached_lastUpdate := now;
                    source := remoteUrl m |})
  /\ (forall n msg stored, rules_of bundled = Threw n msg ->
        fetchDetectionRules m remote bundled now stored = (Threw n msg, m)).
Proof.
  intros Hremote.
  assert ((if negb (String.eqb (remoteUrl m) "")
              && negb (String.eqb (remoteUrl m) (fallbackUrl m))
           then match rules_of remote with
                | Returned rules => Some rules
                | Threw _ _ => None
                end
           else None) = None) as Hnone.
  { destruct Hremote as [->|[->|(n & msg & ->)]].
    - done.
    - by rewrite String.eqb_refl, andb_false_r.
    - by destruct (_ && _). }
  unfold fetchDetectionRules. rewrite Hnone. split.
  - intros rules ->. eexists. split; [done|]. done.
  - by intros n msg stored ->.
Qed.

(** X18 (src/modules/detection-rules-manager.ts, fetchDetectionRules,
    saveToCache and loadFromCache): rules that a fetch returned and cached
    are loaded back by a manager constructed later for as long as they are
    younger than the update interval; from the moment their age reaches
    the interval loadFromCache answers false and loads nothing. *)
Theorem rules_cache_round_trip m remote bundled now fetched m' later :
  fetchDetectionRules m remote bundled now true = (Returned fetched, m') ->
  truthy (Some fetched) = true ->
  now <> 0%Z ->
  let out :=
    loadFromCache (restarted m') (Some (detection_rules_cache m')) later in
  ((later - now < updateInterval m)%Z ->
   fst out = true /\ cachedRules (snd out) = fetched
   /\ RulesManager.lastUpdate (snd out) = now)
  /\ ((updateInterval m <= later - now)%Z ->
      fst out = false /\ cachedRules (snd out) = JNull).
Proof.
  intros Hf Ht Hnow. unfold fetchDetectionRules in Hf.
  assert (m' = saveToCache m fetched now true) as ->.
  { destruct (_ && _).
    - destruct (rules_of remote) as [r|].
      + by injection Hf as <- <-.
      + destruct (rules_of bundled) as [r|]; [|done].
        by injection Hf as <- <-.
    - destruct (rules_of bundled) as [r|]; [|done].
      by injection Hf as <- <-. }
  cbn [saveToCache detection_rules_cache loadFromCache rules
         cached_lastUpdate restarted updateInterval].
  rewrite Ht. apply Z.eqb_neq in Hnow. rewrite Hnow. cbn [negb andb].
  destruct (later - now <? updateInterval m)%Z eqn:Hd.
  - apply Z.ltb_lt in Hd. split; [done|lia].
  - apply Z.ltb_ge in Hd. split; [lia|done].
Qed.

End CacheFacts.

(* ===================================================================== *)
(** ** The logs *)
(* ===================================================================== *)

Module LogFacts.

Import LogBatch.

Lemma slice_last_length {A} n (l : list A) :
  (length (slice_last n l) <= n)%nat.
Proof. unfold slice_last. rewrite length_drop. lia. Qed.

Lemma slice_last_app {A} n (l k : list A) :
  slice_last n (slice_last n l ++ k) = slice_last n (l ++ k).
Proof.
  unfold slice_last. rewrite !length_app, length_drop.
  destruct (decide (length l <= n)%nat) as [Hle|Hgt].
  - replace (length l - n)%nat with 0%nat by lia. simpl.
    by replace (length l - 0)%nat with (length l) by lia.
  - rewrite !drop_app, drop_drop, length_drop. f_equal; f_equal; lia.
Qed.

Lemma slice_last_idemp {A} n (l : list A) :
  slice_last n (slice_last n l) = slice_last n l.
Proof.
  rewrite <- (app_nil_r (slice_last n l)) at 1.
  by rewrite slice_last_app, app_nil_r.
Qed.

Section Runtime.

Variable stringify_length : list json -> list json -> Z.

Local Abbreviation run := (run stringify_length).
Local Abbreviation step := (step stringify_length).

Lemma run_snoc b es e : run b (es ++ [e]) = step (run b es) e.
Proof. unfold LogBatch.run. by rewrite foldl_app. Qed.

(** X19 (src/scripts/background.ts, _doFlush with logUrlAccess and
    logEvent): whatever is logged and whenever the flush alarm fires, the
    stored access log never holds more than 1000 entries and the stored
    security log never more than 500. *)
Theorem stored_logs_bounded es :
  (length (default [] (accessLogs (run empty es))) <= 1000)%nat
  /\ (length (default [] (securityEvents (run empty es))) <= 500)%nat.
Proof.
  induction es as [|e es IH] using rev_ind; [simpl; lia|].
  rewrite run_snoc. set (b := run empty es) in *.
  destruct e as [logEntry now|logEntry now|read written]; simpl.
  - unfold queueAccess, scheduleFlush. simpl. by destruct (flushScheduled b).
  - unfold queueSecurity, scheduleFlush. simpl. by destruct (flushScheduled b).
  - unfold onFlushAlarm, _doFlush. simpl.
    destruct (_ && _); simpl; [|done].
    split; apply slice_last_length.
Qed.

(** X20 (src/scripts/background.ts, scheduleFlush with the check:flush
    alarm): entries never wait without a flush being scheduled: whenever
    no flush is scheduled both pending lists are empty; and however many
    entries are queued, no more alarms have been created than flushes have
    run. *)
Theorem pending_entries_await_flush es :
  flushScheduled (run empty es) = false ->
  pendingAccess (run empty es) = []
  /\ pendingSecurity (run empty es) = []
  /\ (length (flushAlarms (run empty es)) <= flushes es)%nat.
Proof.
  assert (forall es,
            let b := run empty es in
            (flushScheduled b = false ->
             pendingAccess b = [] /\ pendingSecurity b = [])
            /\ (length (flushAlarms b)
                <= flushes es + (if flushScheduled b then 1 else 0))%nat) as H.
  { clear es. intros es. unfold flushes.
    induction es as [|e es IH] using rev_ind; [simpl; split; [done|lia]|].
    rewrite run_snoc, filter_app, length_app. cbv zeta in IH.
    set (b := run empty es) in *. destruct IH as [IH1 IH2].
    destruct e as [logEntry now|logEntry now|read written];
      rewrite filter_cons; simpl.
    - unfold queueAccess, scheduleFlush. simpl.
      destruct (flushScheduled b) eqn:Hs; simpl;
        (split; [done|]); rewrite ?length_app; simpl; lia.
    - unfold queueSecurity, scheduleFlush. simpl.
      destruct (flushScheduled b) eqn:Hs; simpl;
        (split; [done|]); rewrite ?length_app; simpl; lia.
    - unfold onFlushAlarm, _doFlush. simpl.
      destruct (_ && _); simpl; (split; [done|]);
        destruct (flushScheduled b); lia. }
  intros Hs. destruct (H es) as [H1 H2]. rewrite Hs in H2.
  destruct (H1 Hs) as [? ?]. split; [done|]. split; [done|lia].
Qed.

Lemma newest_entries_from es : forall b,
  every_flush_written stringify_length b es ->
  slice_last 1000 (default [] (accessLogs (run b es)) ++ pendingAccess (run b es))
  = slice_last 1000
      ((default [] (accessLogs b) ++ pendingAccess b) ++ access_logged es)
  /\ slice_last 500 (default [] (securityEvents (run b es))
                     ++ pendingSecurity (run b es))
     = slice_last 500
         ((default [] (securityEvents b) ++ pendingSecurity b)
          ++ security_logged es).
Proof.
  induction es as [|e es IH]; intros b Hw.
  - unfold access_logged, security_logged. simpl. by rewrite !app_nil_r.
  - destruct Hw as [He Hw]. destruct (IH _ Hw) as [IHa IHs]. clear IH.
    change (run b (e :: es)) with (run (step b e) es).
    rewrite IHa, IHs. clear IHa IHs Hw.
    destruct e as [logEntry now|logEntry now|read written];
      cbn [LogBatch.step].
    + unfold queueAccess, scheduleFlush.
      destruct (flushScheduled b); cbn; rewrite <- !app_assoc; done.
    + unfold queueSecurity, scheduleFlush.
      destruct (flushScheduled b); cbn; rewrite <- !app_assoc; done.
    + destruct He as (-> & -> & Hfit). apply Z.leb_le in Hfit.
      unfold onFlushAlarm, _doFlush.
      cbn [accessLogs securityEvents pendingAccess pendingSecurity].
      rewrite Hfit.
      cbn [andb accessLogs securityEvents pendingAccess pendingSecurity
           default from_option id].
      rewrite !app_nil_r, !slice_last_app.
      unfold access_logged, security_logged. by cbn [omap].
Qed.

(** X21 (src/scripts/background.ts, _doFlush with logUrlAccess and
    logEvent): as long as every flush reads the stored logs, stays within
    the 4 MiB payload limit and writes, no entry among the newest 1000
    access entries (500 security entries) is lost or reordered: what is
    stored followed by what is pending ends with exactly the newest
    entries logged. *)
Theorem newest_entries_survive es :
  every_flush_written stringify_length empty es ->
  slice_last 1000 (default [] (accessLogs (run empty es))
                   ++ pendingAccess (run empty es))
  = slice_last 1000 (access_logged es)
  /\ slice_last 500 (default [] (securityEvents (run empty es))
                     ++ pendingSecurity (run empty es))
     = slice_last 500 (security_logged es).
Proof.
  intros Hw. destruct (newest_entries_from es empty Hw) as [Ha Hs].
  split.
  - rewrite Ha. by cbn [empty accessLogs pendingAccess default app].
  - rewrite Hs. by cbn [empty securityEvents pendingSecurity default app].
Qed.

End Runtime.

Import LogStore.

Lemma store_all_snoc logs entries e :
  store_all logs (entries ++ [e]) = store (store_all logs entries) true true e.
Proof. unfold store_all. by rewrite foldl_app. Qed.

Lemma store_all_last_1000 entries e :
  store_all None (entries ++ [e])
  = Some (drop (length (entries ++ [e]) - 1000) (entries ++ [e])).
Proof.
  revert e. induction entries as [|e' entries IH] using rev_ind; intros e.
  - done.
  - rewrite store_all_snoc, IH. unfold store. cbn [default from_option id].
    set (l := entries ++ [e']).
    change (drop (length l - 1000) l) with (slice_last 1000 l).
    change (drop (length (l ++ [e]) - 1000) (l ++ [e]))
      with (slice_last 1000 (l ++ [e])).
    rewrite <- slice_last_app.
    destruct (1000 <? length (slice_last 1000 l ++ [e]))%nat eqn:Hlt;
      [done|].
    f_equal. apply Nat.ltb_ge in Hlt.
    unfold slice_last at 2.
    by replace (length (slice_last 1000 l ++ [e]) - 1000)%nat
      with 0%nat by lia.
Qed.

Lemma pushed_length logs entry : (length (pushed logs entry) <= 1000)%nat.
Proof.
  unfold pushed. destruct (1000 <? _)%nat eqn:Hlt.
  - rewrite length_drop. lia.
  - by apply Nat.ltb_ge in Hlt.
Qed.

Lemma store_pushed logs entry :
  store logs true true entry = Some (pushed logs entry).
Proof. done. Qed.

Lemma step_within_bound st e : within_bound st -> within_bound (step st e).
Proof.
  intros [Hs Hw]. destruct e as [call entry [|]|call resolved]; simpl;
    [|done|].
  - split; [done|]. intros c logs. simpl.
    destruct (decide (c = call)) as [->|Hne].
    + rewrite lookup_insert_eq. intros [= <-]. apply pushed_length.
    + rewrite lookup_insert_ne by done. apply Hw.
  - destruct (writing st !! call) as [logs|] eqn:Hc; [|done].
    split; simpl.
    + destruct resolved; [|done]. simpl. by apply (Hw call).
    + intros c logs'. destruct (decide (c = call)) as [->|Hne].
      * by rewrite lookup_delete_eq.
      * rewrite lookup_delete_ne by done. apply Hw.
Qed.

Lemma run_within_bound es : forall st,
  within_bound st -> within_bound (run st es).
Proof.
  induction es as [|e es IH]; intros st Hst; [done|].
  apply IH. by apply step_within_bound.
Qed.

Lemma run_serial calls : forall st,
  debugLogs (run st (serial calls)) = store_all (debugLogs st) (snd <$> calls).
Proof.
  induction calls as [|[call entry] calls IH]; intros st; [done|].
  cbn [serial run foldl]. fold (run (step (step st (Read call entry true))
                                          (Write call true)) (serial calls)).
  rewrite IH. simpl. by rewrite lookup_insert_eq.
Qed.

(** X22 (src/utils/background-logger.ts, store): the calls of store are
    not serialized.  Under every interleaving of their reads and writes,
    and whichever of these reject, the stored debug log never holds more
    than 1000 entries.  When the calls run one after the other and the
    storage calls succeed, the stored log is the last 1000 of the entries
    stored so far, in order.  When two calls overlap, both reading before
    either writes, the entry of the call that writes first is lost. *)
Theorem store_keeps_last_1000 :
  (forall es,
     (length (default [] (debugLogs (run empty_storage es))) <= 1000)%nat)
  /\ (forall calls c,
        let entries := snd <$> (calls ++ [c]) in
        debugLogs (run empty_storage (serial (calls ++ [c])))
        = Some (drop (length entries - 1000) entries))
  /\ (forall logs a b,
        debugLogs
          (run {| debugLogs := logs; writing := ∅ |}
             [Read 1 a true; Read 2 b true; Write 1 true; Write 2 true])
        = store logs true true b)
  /\ (forall logs call entry read written,
        debugLogs
          (run {| debugLogs := logs; writing := ∅ |}
             [Read call entry read; Write call written])
        = store logs read written entry).
Proof.
  split; [|split; [|split]].
  - intros es. apply (run_within_bound es empty_storage).
    split; [simpl; lia|]. intros call logs. simpl. by rewrite lookup_empty.
  - intros calls c entries. rewrite run_serial. subst entries.
    rewrite fmap_app. apply store_all_last_1000.
  - intros logs a b. cbn [run foldl step debugLogs writing].
    rewrite lookup_insert_ne by done. rewrite lookup_insert_eq.
    cbn [debugLogs writing].
    rewrite lookup_delete_ne by done. by rewrite lookup_insert_eq.
  - intros logs call entry [|] written; cbn [run foldl step debugLogs writing].
    + rewrite lookup_insert_eq. by destruct written.
    + by rewrite lookup_empty.
Qed.

End LogFacts.

(* ===================================================================== *)
(** ** Defanged URLs *)
(* ===================================================================== *)

Module DefangFacts.

Import Defang.

Lemma append_String c s t : String c s +:+ t = String c (s +:+ t).
Proof. done. Qed.

Lemma append_Empty t : "" +:+ t = t.
Proof. done. Qed.

Lemma length_append s t :
  String.length (s +:+ t) = (String.length s + String.length t)%nat.
Proof.
  induction s as [|c s IH]; [done|].
  rewrite append_String. cbn [String.length]. by rewrite IH.
Qed.

Lemma length_substring_0 n : forall s,
  (String.length (String.substring 0 n s) <= n)%nat.
Proof.
  induction n as [|n IH]; intros [|c s]; simpl; try lia.
  specialize (IH s). lia.
Qed.

Lemma prefix_Empty s : String.prefix "" s = true.
Proof. by destruct s. Qed.

Lemma prefix_slash_slash s :
  String.prefix "/" s = false -> String.prefix "//" s = false.
Proof.
  destruct s as [|c s]; cbn [String.prefix]; [done|].
  destruct (ascii_dec "/" c); [by rewrite prefix_Empty|done].
Qed.

Lemma no_colon_slash_replace u : no_colon_slash (replace_colons u) = true.
Proof.
  induction u as [|c u IH]; [done|]. cbn [replace_colons].
  destruct (Ascii.eqb c ":") eqn:E.
  - rewrite !append_String, append_Empty. cbn [no_colon_slash].
    by rewrite IH.
  - cbn [no_colon_slash]. by rewrite E, IH.
Qed.

Lemma prefix_slash_truncate n s :
  String.prefix "/" s = false ->
  String.prefix "/" (String.substring 0 n s +:+ "...") = false.
Proof.
  destruct n as [|n], s as [|c s]; cbn [String.substring];
    rewrite ?append_String, ?append_Empty; try done.
  cbn [String.prefix].
  destruct (ascii_dec "/" c); [by rewrite prefix_Empty|done].
Qed.

Lemma no_colon_slash_truncate n : forall s,
  no_colon_slash s = true ->
  no_colon_slash (String.substring 0 n s +:+ "...") = true.
Proof.
  induction n as [|n IH]; intros [|c s]; try done.
  cbn [String.substring]. rewrite append_String. cbn [no_colon_slash].
  intros H. apply andb_true_iff in H as [Hc Hs].
  rewrite (IH s Hs), andb_true_r.
  destruct (Ascii.eqb c ":"); [|done]. cbn [andb] in Hc |- *.
  apply negb_true_iff in Hc. by rewrite (prefix_slash_truncate n s Hc).
Qed.

Lemma no_colon_slash_contains s :
  no_colon_slash s = true -> Lit.contains "://" s = false.
Proof.
  induction s as [|c s IH]; [done|].
  cbn [no_colon_slash Lit.contains]. intros H.
  apply andb_true_iff in H as [Hc Hs]. rewrite (IH Hs), orb_false_r.
  cbn [String.prefix]. destruct (ascii_dec ":" c) as [<-|Hne]; [|done].
  rewrite Ascii.eqb_refl in Hc. cbn [andb] in Hc.
  apply negb_true_iff in Hc. by apply prefix_slash_slash.
Qed.

(** X23 (src/scripts/blocked.ts, defangUrl and truncateUrl): the text the
    blocked page shows for a URL is never longer than 80 characters and
    never contains the scheme separator [://]; truncateUrl never returns
    more than 50 characters and returns a string of up to 50 characters
    as it is. *)
Theorem blocked_url_is_defanged_and_short u :
  (String.length (defangUrl u) <= 80)%nat
  /\ Protection.includes (defangUrl u) "://" = false
  /\ (String.length (truncateUrl u) <= 50)%nat
  /\ ((String.length u <= 50)%nat -> truncateUrl u = u).
Proof.
  unfold Protection.includes, defangUrl, truncateUrl. split; [|split; [|split]].
  - destruct (_ || _); [simpl; lia|].
    destruct (80 <? _)%nat eqn:Hlt.
    + rewrite length_append.
      pose proof (length_substring_0 77 (replace_colons u)). simpl. lia.
    + by apply Nat.ltb_ge in Hlt.
  - destruct (_ || _); [done|].
    apply no_colon_slash_contains.
    destruct (80 <? _)%nat.
    + apply no_colon_slash_truncate, no_colon_slash_replace.
    + apply no_colon_slash_replace.
  - destruct (50 <? _)%nat eqn:Hlt.
    + rewrite length_append. pose proof (length_substring_0 47 u). simpl. lia.
    + by apply Nat.ltb_ge in Hlt.
  - intros Hle. apply Nat.ltb_ge in Hle. by rewrite Hle.
Qed.

Lemma replace_without_colon u :
  Lit.contains ":" u = false -> replace_colons u = u.
Proof.
  induction u as [|c u IH]; [done|].
  cbn [Lit.contains String.prefix replace_colons]. intros H.
  apply orb_false_iff in H as [Hc Hu].
  destruct (ascii_dec ":" c) as [<-|Hne]; [by rewrite prefix_Empty in Hc|].
  destruct (Ascii.eqb_spec c ":") as [->|_]; [done|]. by rewrite (IH Hu).
Qed.

Lemma replace_with_colon u :
  Lit.contains ":" u = true -> Lit.contains "[:]" (replace_colons u) = true.
Proof.
  induction u as [|c u IH]; [done|].
  cbn [Lit.contains String.prefix replace_colons]. intros H.
  destruct (Ascii.eqb_spec c ":") as [->|Hne].
  - rewrite !append_String, append_Empty. cbn [Lit.contains].
    replace (String.prefix "[:]" _) with true; [done|].
    cbn [String.prefix]. by rewrite prefix_Empty.
  - destruct (ascii_dec ":" c) as [<-|_]; [done|]. cbn [orb] in H.
    cbn [Lit.contains]. by rewrite (IH H), orb_true_r.
Qed.

(** X24 (src/scripts/background.ts, CheckBackground.defangUrl): defanging
    a URL for the logs is idempotent; a URL that does not yet contain the
    marker [[:]] comes out without any scheme separator [://]; a URL that
    contains the marker anywhere is returned exactly as it came, colons
    included. *)
Theorem background_defang_is_idempotent u :
  defangUrl_background (defangUrl_background u) = defangUrl_background u
  /\ (Protection.includes u "[:]" = false ->
      Protection.includes (defangUrl_background u) "://" = false)
  /\ (Protection.includes u "[:]" = true -> defangUrl_background u = u).
Proof.
  unfold defangUrl_background, Protection.includes.
  destruct (Lit.contains "[:]" u) eqn:Hm.
  - rewrite Hm. by split.
  - split; [|split; [|done]].
    + destruct (Lit.contains ":" u) eqn:Hc.
      * by rewrite (replace_with_colon u Hc).
      * by rewrite (replace_without_colon u Hc), Hm, (replace_without_colon u Hc).
    + intros _. apply no_colon_slash_contains, no_colon_slash_replace.
Qed.

End DefangFacts.

(* ===================================================================== *)
(** ** Instances on concrete inputs *)
(* ===================================================================== *)

Module MoreRuns.

Import Content Fixtures Samples.

Lemma block_needs_phishing_result_witness :
  Protection.href (Protection.fresh untrusted_url) = Protection.At untrusted_url
  /\ Protection.href
       (run_protection (Protection.fresh untrusted_url) 2000
          (Some (rules [password_field; sign_in_text] [brand_name])))
     = Protection.Blocked block_details
  /\ exists r,
       isPhishing r = true
       /\ Protection.blocked_elements block_details = detectedElements r.
Proof.
  split; [reflexivity|]. split; [vm_compute; reflexivity|].
  destruct (ProtectionFacts.block_needs_phishing_result
              Lit.RegExp Lit.test Lit.URL_origin
              (Protection.fresh untrusted_url) 2000
              (Some (rules [password_field; sign_in_text] [brand_name]))
              login_page stamp untrusted_url block_details)
    as (_ & r & _ & Hp & _ & Hd & _ & _).
  - reflexivity.
  - vm_compute; reflexivity.
  - exists r. split; [exact Hp|]. rewrite Hd. reflexivity.
Defined.

Lemma trusted_page_never_analysed_witness :
  Protection.href (page_at [password_field; sign_in_text] [brand_name]
                     trusted_url)
  = Protection.At trusted_url
  /\ Protection.trusted_throughout Lit.RegExp Lit.test Lit.URL_origin
       (page_at [password_field; sign_in_text] [brand_name] trusted_url)
       [first_call] trusted_url
  /\ Protection.href
       (Protection.run_calls Lit.RegExp Lit.test Lit.URL_origin
          (page_at [password_field; sign_in_text] [brand_name] trusted_url)
          [first_call])
     = Protection.At trusted_url.
Proof.
  split; [reflexivity|]. split; [vm_compute; reflexivity|].
  apply (ProtectionFacts.trusted_page_never_analysed
           Lit.RegExp Lit.test Lit.URL_origin [first_call]
           (page_at [password_field; sign_in_text] [brand_name] trusted_url)
           trusted_url).
  - reflexivity.
  - vm_compute; reflexivity.
Defined.

Lemma broken_rules_disable_protection_witness :
  requirements_of
    (Protection.globals
       (page_at [password_field; unbalanced; sign_in_text] [brand_name]
          untrusted_url))
  = Some (requirements [password_field; unbalanced; sign_in_text]
            [brand_name] 2 5 3)
  /\ pattern_compiles Lit.RegExp unbalanced = false
  /\ Protection.href
       (Protection.run_calls Lit.RegExp Lit.test Lit.URL_origin
          (page_at [password_field; unbalanced; sign_in_text] [brand_name]
             untrusted_url)
          [first_call])
     = Protection.At untrusted_url.
Proof.
  split; [reflexivity|]. split; [reflexivity|].
  apply (ProtectionFacts.broken_rules_disable_protection
           Lit.RegExp Lit.test Lit.URL_origin [first_call]
           (page_at [password_field; unbalanced; sign_in_text] [brand_name]
              untrusted_url)
           untrusted_url
           (requirements [password_field; unbalanced; sign_in_text]
              [brand_name] 2 5 3)).
  - reflexivity.
  - reflexivity.
  - apply Exists_cons_tl, Exists_cons_hd. reflexivity.
Defined.

Lemma one_pending_timer_per_tab_witness :
  Background.timeouts
    (Background.chrome
       (Background.run_events Lit.URL_origin Background.initial burst_tab7))
    !! 2%Z
  = Some (7%Z, complete, tab7)
  /\ Background.tabDebounce
       (Background.tabs
          (Background.run_events Lit.URL_origin Background.initial burst_tab7))
       !! 7%Z
     = Some 2%Z.
Proof.
  split; [vm_compute; reflexivity|].
  apply (ServiceWorkerFacts.one_pending_timer_per_tab Lit.URL_origin
           burst_tab7 2 2 7 complete complete tab7 tab7);
    vm_compute; reflexivity.
Defined.

Lemma captured_headers_round_trip_witness :
  (0 <= Background.tab_id tab7)%Z
  /\ snd (Background.handleMessage Lit.URL_origin
            (Background.onHeadersReceived Background.initial 7
               (Some html_headers) 1000)
            Background.GET_PAGE_HEADERS (Some tab7)
            (Background.InitFails "") 2000)
     = Some (Background.PageHeaders (Background.collect_headers html_headers))
  /\ Background.collect_headers html_headers !! "__proto__" = None
  /\ Background.collect_headers html_headers !! "x-frame-options" = Some "".
Proof.
  split; [vm_compute; discriminate|].
  destruct (ServiceWorkerFacts.captured_headers_round_trip Lit.URL_origin
              Background.initial tab7 html_headers 1000
              (Background.InitFails "") 2000)
    as (Hanswer & _ & Hproto & Hlast); [vm_compute; discriminate|].
  split; [exact Hanswer|]. split; [exact Hproto|].
  by rewrite Hlast.
Defined.

Lemma full_cache_evicts_oldest_witness :
  (100 <= length (Background.tabHeaders (Background.tabs full_state)))%nat
  /\ exists k e,
       (k, e) ∈ Background.tabHeaders (Background.tabs full_state)
       /\ (forall k' e',
             (k', e') ∈ Background.tabHeaders (Background.tabs full_state) ->
             (Background.ts e <= Background.ts e')%Z)
       /\ (k <> 500%Z ->
           Background.headers_get k
             (Background.tabHeaders
                (Background.tabs
                   (Background.onHeadersReceived full_state 500
                      (Some html_headers) 5000)))
           = None).
Proof.
  split; [vm_compute; lia|].
  destruct (ServiceWorkerFacts.full_cache_evicts_oldest full_state 500
              html_headers 5000) as (k & e & Hin & Hmin & Hgone & _).
  - lia.
  - vm_compute; lia.
  - exists k, e. split; [exact Hin|]. split; [exact Hmin|exact Hgone].
Defined.

Lemma message_writes_only_sender_tab_witness :
  (forall t, Background.sender_tab (Some tab7) = Some t ->
             Background.tab_id t <> 8%Z)
  /\ Background.session
       (Background.chrome
          (fst (Background.handleMessage Lit.URL_origin Background.initial
                  (Background.FLAG_PHISHY None) (Some tab7)
                  (Background.InitFails "") 10)))
       !! 8%Z
     = Background.session (Background.chrome Background.initial) !! 8%Z.
Proof.
  assert (forall t, Background.sender_tab (Some tab7) = Some t ->
                    Background.tab_id t <> 8%Z) as H.
  { intros t Ht. injection Ht as <-. discriminate. }
  split; [exact H|].
  exact (ServiceWorkerFacts.message_writes_only_sender_tab Lit.URL_origin
           Background.initial (Background.FLAG_PHISHY None) (Some tab7)
           (Background.InitFails "") 10 8 H).
Defined.

Lemma stored_verdicts_are_known_witness :
  Background.session
    (Background.chrome
       (Background.run_events Lit.URL_origin Background.initial flagged_tab7))
    !! 7%Z
  = Some phishy_entry
  /\ Background.verdict phishy_entry
     ∈ ["trusted"; "trusted-extra"; "not-evaluated"; "phishy";
        "ms-login-unknown"; "rogue-app"; "safe"].
Proof.
  split; [vm_compute; reflexivity|].
  apply (ServiceWorkerFacts.stored_verdicts_are_known Lit.URL_origin
           flagged_tab7 7 phishy_entry).
  vm_compute; reflexivity.
Defined.

Lemma refreshed_registry_lookup_witness :
  Background.updateRogueApps no_rogue_apps refreshed 1000
  = (Returned tt, snd (Background.updateRogueApps no_rogue_apps refreshed 1000))
  /\ Background.initialized no_rogue_apps = true
  /\ Background.checkClientId
       (snd (Background.updateRogueApps no_rogue_apps refreshed 1000)) "app-1"
     = Background.IsRogue (Some (JStr "Mail Sync")) "high".
Proof.
  split; [reflexivity|]. split; [reflexivity|].
  rewrite (ServiceWorkerFacts.refreshed_registry_lookup no_rogue_apps 200 "OK"
             [mail_sync] 1000
             (snd (Background.updateRogueApps no_rogue_apps refreshed 1000))
             "app-1").
  - reflexivity.
  - reflexivity.
  - reflexivity.
  - discriminate.
Defined.

Lemma extra_whitelist_decides_trusted_extra_witness :
  assoc "ExtraWhitelist" whitelist_policy
  = Some (JArr [JStr "https://Partner.Example/start"])
  /\ truthy (assoc "trustedOrigins" whitelist_policy) = false
  /\ Background.verdictForUrl Lit.URL_origin
       (Background.refreshPolicy Lit.URL_origin Background.initial
          (Some (JObj whitelist_policy)))
       "https://partner.example/login"
     = Returned "trusted-extra".
Proof.
  split; [reflexivity|]. split; [reflexivity|].
  apply (ServiceWorkerFacts.extra_whitelist_decides_trusted_extra
           Lit.URL_origin Background.initial whitelist_policy
           [JStr "https://Partner.Example/start"]
           "https://partner.example/login").
  - reflexivity.
  - reflexivity.
  - split; [|split].
    + vm_compute. intros H. inversion H as [|? ? ? H1]; subst.
      inversion H1 as [|? ? ? H2]; subst.
      inversion H2 as [|? ? ? H3]; subst. inversion H3.
    + vm_compute; discriminate.
    + exists (JStr "https://Partner.Example/start").
      split; [constructor|vm_compute; reflexivity].
Defined.

Lemma registry_cache_round_trip_witness :
  Background.updateRogueApps no_rogue_apps refreshed 1000
  = (Returned tt, snd (Background.updateRogueApps no_rogue_apps refreshed 1000))
  /\ 1000%Z <> 0%Z
  /\ Background.rogueApps
       (ServiceWorker.loadFromCache
          (ServiceWorker.restarted
             (snd (Background.updateRogueApps no_rogue_apps refreshed 1000)))
          (Background.rogue_apps_cache
             (snd (Background.updateRogueApps no_rogue_apps refreshed 1000)))
          86400000 5000)
     = [(JStr "app-1", mail_sync)].
Proof.
  split; [reflexivity|]. split; [discriminate|].
  destruct (CacheFacts.registry_cache_round_trip no_rogue_apps 200 "OK"
              (Some (JArr [mail_sync])) 1000
              (snd (Background.updateRogueApps no_rogue_apps refreshed 1000))
              86400000 5000) as [Hfresh _].
  - reflexivity.
  - discriminate.
  - destruct Hfresh as [Htable _]; [vm_compute; discriminate|].
    rewrite Htable. reflexivity.
Defined.

Lemma rules_fetch_falls_back_witness :
  (exists n msg, RulesManager.rules_of unreachable = Threw n msg)
  /\ exists m',
       RulesManager.fetchDetectionRules rules_manager unreachable answered
         1000 true
       = (Returned rules_document, m')
       /\ RulesManager.cachedRules m' = rules_document.
Proof.
  assert (exists n msg, RulesManager.rules_of unreachable = Threw n msg) as H.
  { exists "TypeError", "Failed to fetch". reflexivity. }
  split; [exact H|].
  destruct (CacheFacts.rules_fetch_falls_back rules_manager unreachable
              answered 1000 (or_intror (or_intror H))) as [Hok _].
  destruct (Hok rules_document eq_refl) as (m' & Hf & Hc & _).
  exists m'. split; [exact Hf|exact Hc].
Defined.

Lemma rules_cache_round_trip_witness :
  RulesManager.fetchDetectionRules rules_manager answered unreachable 1000 true
  = (Returned rules_document,
     snd (RulesManager.fetchDetectionRules rules_manager answered unreachable
            1000 true))
  /\ truthy (Some rules_document) = true
  /\ 1000%Z <> 0%Z
  /\ RulesManager.cachedRules
       (snd (RulesManager.loadFromCache
               (RulesManager.restarted
                  (snd (RulesManager.fetchDetectionRules rules_manager
                          answered unreachable 1000 true)))
               (Some (RulesManager.detection_rules_cache
                        (snd (RulesManager.fetchDetectionRules rules_manager
                                answered unreachable 1000 true))))
               5000))
     = rules_document.
Proof.
  split; [reflexivity|]. split; [reflexivity|]. split; [discriminate|].
  destruct (CacheFacts.rules_cache_round_trip rules_manager answered
              unreachable 1000 rules_document
              (snd (RulesManager.fetchDetectionRules rules_manager answered
                      unreachable 1000 true))
              5000) as [Hfresh _].
  - reflexivity.
  - reflexivity.
  - discriminate.
  - destruct Hfresh as (_ & Hc & _); [vm_compute; reflexivity|exact Hc].
Defined.

Lemma pending_entries_await_flush_witness :
  LogBatch.flushScheduled
    (LogBatch.run small_payload LogBatch.empty logged_and_flushed) = false
  /\ LogBatch.pendingAccess
       (LogBatch.run small_payload LogBatch.empty logged_and_flushed) = []
  /\ (length (LogBatch.flushAlarms
                (LogBatch.run small_payload LogBatch.empty logged_and_flushed))
      <= 1)%nat.
Proof.
  split; [reflexivity|].
  destruct (LogFacts.pending_entries_await_flush small_payload
              logged_and_flushed) as (Ha & _ & Hn).
  - reflexivity.
  - split; [exact Ha|exact Hn].
Defined.

Lemma newest_entries_survive_witness :
  LogBatch.every_flush_written small_payload LogBatch.empty logged_and_flushed
  /\ LogBatch.slice_last 1000
       (default []
          (LogBatch.accessLogs
             (LogBatch.run small_payload LogBatch.empty logged_and_flushed))
        ++ LogBatch.pendingAccess
             (LogBatch.run small_payload LogBatch.empty logged_and_flushed))
     = [JStr "first"].
Proof.
  assert (LogBatch.every_flush_written small_payload LogBatch.empty
            logged_and_flushed) as H.
  { split; [exact I|]. split; [exact I|]. split; [|exact I].
    split; [reflexivity|]. split; [reflexivity|]. vm_compute; discriminate. }
  split; [exact H|].
  rewrite (proj1 (LogFacts.newest_entries_survive small_payload
                    logged_and_flushed H)).
  reflexivity.
Defined.

End MoreRuns.
